(** * Bangladesh climate forecast: the preprocessing script

    A shallow embedding of [scripts/data_preprocessing.py] and of the pandas
    operations it calls, followed by the properties of its cleaning,
    feature-derivation, partitioning and I/O functions.

    The script is embedded twice.
    - The first embedding serves the statements about the shape of the
      tables: which columns and rows there are, which cells are missing,
      what is filled in, which calls raise.  There a numeric cell (dtype
      int64 or float64) is an exact rational [Q], and a missing cell (NaN /
      None) is [None].
    - The second embedding, [Machine], serves the statements about the
      numbers themselves: an int64 cell is an integer that wraps around, a
      float64 cell is a binary64 number with NaN for the missing cell.

    In both:
    - A table is column-oriented, as a pandas DataFrame is: a row index and an
      ordered list of named columns.
    - A Python exception is a value of [exn]; a call that may raise returns a
      [result].
    - pandas behaves as in its 1.x and 2.x releases: [s.fillna(v, inplace=True)]
      on a column taken from a table writes through to the table (no
      copy-on-write), and column labels are pairwise distinct wherever a
      statement asks for it. *)

From Stdlib Require Import Floats String Ascii Bool Arith ZArith QArith Qround
  Qreduction Lia Lqa Permutation Sorted DecimalString List.
Import ListNotations.

(** A decimal literal of a binary64 number, such as [0.3], stands for the
    binary64 number nearest to it, as it does in Python. *)
Set Warnings "-inexact-float".

Local Open Scope string_scope.
Local Open Scope list_scope.

(** ** Python exceptions *)

(** The exceptions that calls raise.  All of them are instances of Python's
    [Exception]: the three classes that the modelled pandas operations raise,
    and [OtherError] for any other class (a missing file, a parser error, a
    full disk, ...).  [KeyboardInterrupt] and [SystemExit], which are not
    instances of [Exception], are not errors of a call and are left out. *)
Inductive exn : Type :=
| KeyError (key : string)
| TypeError (msg : string)
| ValueError (msg : string)
| OtherError (class msg : string).

(** [str(e)] *)
Definition exn_str (e : exn) : string :=
  match e with
  | KeyError key => ("'" ++ key ++ "'")%string
  | TypeError msg | ValueError msg | OtherError _ msg => msg
  end.

Inductive result (A : Type) : Type :=
| Ok (a : A)
| Raise (e : exn).
Arguments Ok {A} a.
Arguments Raise {A} e.

Definition bind {A B : Type} (m : result A) (k : A -> result B) : result B :=
  match m with
  | Ok a => k a
  | Raise e => Raise e
  end.

Notation "x <- m ;; k" := (bind m (fun x => k))
  (at level 61, m at next level, right associativity).

(** ** pandas: Series *)

(** A column.  [NumSeries] is a column of dtype int64 or float64, the two
    dtypes the script tests for; [ObjSeries] is a column of dtype object
    holding text (also the carrier of categorical labels). *)
Inductive Series : Type :=
| NumSeries (cells : list (option Q))
| ObjSeries (cells : list (option string)).

Definition series_len (s : Series) : nat :=
  match s with
  | NumSeries cells => length cells
  | ObjSeries cells => length cells
  end.

Definition is_missing {A : Type} (c : option A) : bool :=
  match c with
  | None => true
  | Some _ => false
  end.

Definition is_present {A : Type} (c : option A) : bool := negb (is_missing c).

Fixpoint dropna {A : Type} (cells : list (option A)) : list A :=
  match cells with
  | [] => []
  | None :: rest => dropna rest
  | Some v :: rest => v :: dropna rest
  end.

(** [s.isnull().sum()] *)
Definition isnull_sum (s : Series) : nat :=
  match s with
  | NumSeries cells => length (filter is_missing cells)
  | ObjSeries cells => length (filter is_missing cells)
  end.

(** [s.dtype in ['int64', 'float64']] *)
Definition dtype_is_numeric (s : Series) : bool :=
  match s with
  | NumSeries _ => true
  | ObjSeries _ => false
  end.

(** The numeric view used by arithmetic: text cells make Python raise
    [TypeError]; a column without any text cell is read as numbers. *)
Definition as_numeric (s : Series) : result (list (option Q)) :=
  match s with
  | NumSeries cells => Ok cells
  | ObjSeries cells =>
      if existsb is_present cells
      then Raise (TypeError "unsupported operand type(s)")
      else Ok (map (fun _ => None) cells)
  end.

Definition map_cells (f : Q -> Q) (s : Series) : result Series :=
  cells <- as_numeric s ;;
  Ok (NumSeries (map (option_map f) cells)).

(** [s // k], [s * k], [s / k], [k - s] for a scalar [k] *)
Definition floordiv_scalar (s : Series) (k : Q) : result Series :=
  map_cells (fun v => inject_Z (Qfloor (v / k))) s.

Definition mul_scalar (s : Series) (k : Q) : result Series :=
  map_cells (fun v => v * k)%Q s.

Definition div_scalar (s : Series) (k : Q) : result Series :=
  map_cells (fun v => v / k)%Q s.

Definition rsub_scalar (k : Q) (s : Series) : result Series :=
  map_cells (fun v => k - v)%Q s.

Definition add_cell (a b : option Q) : option Q :=
  match a, b with
  | Some x, Some y => Some (x + y)%Q
  | _, _ => None
  end.

(** [s1 + s2] for two columns of one table (same index: position-wise) *)
Definition add_series (s1 s2 : Series) : result Series :=
  c1 <- as_numeric s1 ;;
  c2 <- as_numeric s2 ;;
  Ok (NumSeries (map (fun p => add_cell (fst p) (snd p)) (combine c1 c2))).

(** ** pandas: DataFrame *)

Record DataFrame : Type := mkDataFrame {
  frame_index : list Z;
  frame_cols : list (string * Series)
}.

(** [df.columns] *)
Definition columns (df : DataFrame) : list string := map fst (frame_cols df).

(** [df.shape[0]] *)
Definition nrows (df : DataFrame) : nat := length (frame_index df).

(** [df.shape[1]] *)
Definition ncols (df : DataFrame) : nat := length (frame_cols df).

(** [df.copy()]: tables are values here, so a copy is the table itself. *)
Definition copy (df : DataFrame) : DataFrame := df.

Fixpoint lookup_col (col : string) (cols : list (string * Series)) : option Series :=
  match cols with
  | [] => None
  | (name, s) :: rest => if String.eqb name col then Some s else lookup_col col rest
  end.

(** [df[col]] *)
Definition getitem (df : DataFrame) (col : string) : result Series :=
  match lookup_col col (frame_cols df) with
  | Some s => Ok s
  | None => Raise (KeyError col)
  end.

Fixpoint assign_col (col : string) (s : Series) (cols : list (string * Series))
  : list (string * Series) :=
  match cols with
  | [] => [(col, s)]
  | (name, s0) :: rest =>
      if String.eqb name col then (name, s) :: rest
      else (name, s0) :: assign_col col s rest
  end.

(** [df[col] = s]: replaces the column [col] in place, or appends it. *)
Definition setitem (df : DataFrame) (col : string) (s : Series) : DataFrame :=
  mkDataFrame (frame_index df) (assign_col col s (frame_cols df)).

(** ['col' in df.columns] *)
Definition has_column (col : string) (df : DataFrame) : bool :=
  existsb (String.eqb col) (columns df).

(** The DataFrame invariant: every column is as long as the index. *)
Definition well_formed (df : DataFrame) : Prop :=
  Forall (fun c => series_len (snd c) = nrows df) (frame_cols df).

(** ** pandas: cut *)

Definition Qltb (a b : Q) : bool := negb (Qle_bool b a).

(** [bins.searchsorted(x, side='left')] for increasing [bins]: the number of
    edges strictly below [x]. *)
Definition searchsorted_left (bins : list Q) (x : Q) : nat :=
  length (filter (fun b => Qltb b x) bins).

(** The bin of one value under [right=True]: bin [i] (counted from 1) is
    the interval from edge [i-1] (excluded) to edge [i] (included); with
    [include_lowest] the first edge belongs to bin 1.  A value in no bin is
    missing. *)
Definition bin_id (bins : list Q) (include_lowest : bool) (x : Q) : option nat :=
  let id :=
    if include_lowest && Qeq_bool x (hd 0%Q bins) then 1%nat
    else searchsorted_left bins x in
  if (id =? 0)%nat || (id =? length bins)%nat then None else Some id.

Definition bin_label (bins : list Q) (labels : list string) (include_lowest : bool)
  (cell : option Q) : option string :=
  match cell with
  | None => None
  | Some x =>
      match bin_id bins include_lowest x with
      | None => None
      | Some id => nth_error labels (id - 1)
      end
  end.

Fixpoint has_duplicates (l : list string) : bool :=
  match l with
  | [] => false
  | x :: rest => existsb (String.eqb x) rest || has_duplicates rest
  end.

(** [pd.cut(x, bins=bins, labels=labels, include_lowest=include_lowest)], with
    the defaults [right=True] and [ordered=True].  The values are located
    in the bins first; then the labels are checked: with [ordered=True] they
    must be pairwise distinct, and there must be one per bin.  (Since pandas
    1.1 the check is the one quoted below; before, building the ordered
    categories from repeated labels raised [ValueError] as well.) *)
Definition cut (x : Series) (bins : list Q) (labels : list string)
  (include_lowest : bool) : result Series :=
  cells <- as_numeric x ;;
  if has_duplicates labels then
    Raise (ValueError
      "labels must be unique if ordered=True; pass ordered=False for duplicate labels")
  else if negb (length labels =? length bins - 1)%nat then
    Raise (ValueError "Bin labels must be one fewer than the number of bin edges")
  else
    Ok (ObjSeries (map (bin_label bins labels include_lowest) cells)).

(** ** The script: feature_engineering *)

Definition season_bins : list Q := [0; 2; 5; 8; 11; 12]%Q.
Definition season_labels : list string :=
  ["Winter"; "Spring"; "Summer"; "Autumn"; "Winter"].

Definition feature_engineering (df : DataFrame) : result DataFrame :=
  let engineered_df := copy df in
  (* engineered_df['Decade'] = (engineered_df['Year'] // 10) * 10 *)
  year <- getitem engineered_df "Year" ;;
  tens <- floordiv_scalar year 10 ;;
  decade <- mul_scalar tens 10 ;;
  let engineered_df := setitem engineered_df "Decade" decade in
  (* Climate_Risk_Score *)
  flood <- getitem engineered_df "Flood_Impact_Score" ;;
  r1 <- mul_scalar flood 0.3 ;;
  drought <- getitem engineered_df "Drought_Severity" ;;
  r2 <- mul_scalar drought 0.3 ;;
  r12 <- add_series r1 r2 ;;
  cyclone <- getitem engineered_df "Cyclone_Count" ;;
  r3 <- mul_scalar cyclone 0.4 ;;
  risk <- add_series r12 r3 ;;
  let engineered_df := setitem engineered_df "Climate_Risk_Score" risk in
  (* Environmental_Health_Index *)
  forest <- getitem engineered_df "Forest_Cover_Percent" ;;
  h1 <- mul_scalar forest 0.4 ;;
  aqi <- getitem engineered_df "AQI" ;;
  inv <- rsub_scalar 100 aqi ;;
  h2 <- mul_scalar inv 0.3 ;;
  h12 <- add_series h1 h2 ;;
  renew <- getitem engineered_df "Renewable_Energy_Usage_Percent" ;;
  h3 <- mul_scalar renew 0.3 ;;
  hsum <- add_series h12 h3 ;;
  health <- div_scalar hsum 100 ;;
  let engineered_df := setitem engineered_df "Environmental_Health_Index" health in
  (* Season, if month data is available *)
  if has_column "Month" engineered_df then
    month <- getitem engineered_df "Month" ;;
    season <- cut month season_bins season_labels true ;;
    Ok (setitem engineered_df "Season" season)
  else
    Ok engineered_df.

(** ** pandas: order statistics *)

Fixpoint insert_value (x : Q) (l : list Q) : list Q :=
  match l with
  | [] => [x]
  | y :: rest => if Qle_bool x y then x :: l else y :: insert_value x rest
  end.

Fixpoint sort_values (l : list Q) : list Q :=
  match l with
  | [] => []
  | x :: rest => insert_value x (sort_values rest)
  end.

(** [s.median()]: missing cells are skipped; the middle value of the sorted
    values, or the mean of the two middle values; NaN ([None]) when no value
    is left. *)
Definition median (cells : list (option Q)) : option Q :=
  let a := sort_values (dropna cells) in
  let n := length a in
  if (n =? 0)%nat then None
  else if Nat.even n then Some ((nth (n / 2 - 1) a 0 + nth (n / 2) a 0) / 2)%Q
  else Some (nth (n / 2) a 0%Q).

(** [s.quantile(q)] with the default linear interpolation: missing cells are
    skipped; at the virtual position [q * (n - 1)] of the sorted values, the
    two neighbours are interpolated. *)
Definition quantile (cells : list (option Q)) (q : Q) : option Q :=
  let a := sort_values (dropna cells) in
  let n := length a in
  if (n =? 0)%nat then None
  else
    let pos := (q * inject_Z (Z.of_nat (n - 1)))%Q in
    let lo := Z.to_nat (Qfloor pos) in
    let hi := Nat.min (lo + 1) (n - 1) in
    let gamma := (pos - inject_Z (Qfloor pos))%Q in
    Some (nth lo a 0 + (nth hi a 0 - nth lo a 0) * gamma)%Q.

Definition count_value (v : string) (l : list string) : nat :=
  length (filter (String.eqb v) l).

Definition max_count (l : list string) : nat :=
  fold_right Nat.max 0%nat (map (fun v => count_value v l) l).

Fixpoint insert_text (x : string) (l : list string) : list string :=
  match l with
  | [] => [x]
  | y :: rest => if String.leb x y then x :: l else y :: insert_text x rest
  end.

Fixpoint sort_text (l : list string) : list string :=
  match l with
  | [] => []
  | x :: rest => insert_text x (sort_text rest)
  end.

(** [s.mode()] on a text column: missing cells are skipped; the values that
    occur most often, each once, sorted ascending (text is compared code
    point by code point). *)
Definition mode (cells : list (option string)) : list string :=
  let vals := dropna cells in
  let top := max_count vals in
  sort_text (nodup string_dec (filter (fun v => (count_value v vals =? top)%nat) vals)).

(** [s.fillna(v)]: a NaN fill value ([None]) leaves the column as it is. *)
Definition fillna {A : Type} (cells : list (option A)) (v : option A) : list (option A) :=
  map (fun c => match c with None => v | Some x => Some x end) cells.

(** ** The script: clean_data *)

(** The body of the first loop, for one column:
    [if s.isnull().sum() > 0: s.fillna(s.median() or s.mode()[0], inplace=True)].
    The fill writes through to the table (pandas without copy-on-write). *)
Definition fill_missing (s : Series) : result Series :=
  if (0 <? isnull_sum s)%nat then
    match s with
    | NumSeries cells => Ok (NumSeries (fillna cells (median cells)))
    | ObjSeries cells =>
        match mode cells with
        | [] => Raise (KeyError "0")
        | v :: _ => Ok (ObjSeries (fillna cells (Some v)))
        end
    end
  else Ok s.

Definition lift2 (f : Q -> Q -> Q) (a b : option Q) : option Q :=
  match a, b with
  | Some x, Some y => Some (f x y)
  | _, _ => None
  end.

(** [cell < bound] and [cell > bound]; a comparison with NaN is false. *)
Definition cell_lt (c bound : option Q) : bool :=
  match c, bound with
  | Some x, Some b => Qltb x b
  | _, _ => false
  end.

Definition cell_gt (c bound : option Q) : bool :=
  match c, bound with
  | Some x, Some b => Qltb b x
  | _, _ => false
  end.

(** [df.loc[cond, col] = value] on the cells of one column *)
Definition loc_assign (cond : option Q -> bool) (value : option Q)
  (cells : list (option Q)) : list (option Q) :=
  map (fun c => if cond c then value else c) cells.

Definition lower_bound_of (cells : list (option Q)) : option Q :=
  let Q1 := quantile cells 0.25 in
  let Q3 := quantile cells 0.75 in
  let IQR := lift2 Qminus Q3 Q1 in
  lift2 Qminus Q1 (option_map (Qmult 1.5) IQR).

Definition upper_bound_of (cells : list (option Q)) : option Q :=
  let Q1 := quantile cells 0.25 in
  let Q3 := quantile cells 0.75 in
  let IQR := lift2 Qminus Q3 Q1 in
  lift2 Qplus Q3 (option_map (Qmult 1.5) IQR).

(** The body of the second loop, for one numeric column. *)
Definition clip_outliers (s : Series) : result Series :=
  match s with
  | NumSeries cells =>
      let lower_bound := lower_bound_of cells in
      let upper_bound := upper_bound_of cells in
      let cells := loc_assign (fun c => cell_lt c lower_bound) lower_bound cells in
      let cells := loc_assign (fun c => cell_gt c upper_bound) upper_bound cells in
      Ok (NumSeries cells)
  | ObjSeries _ => Raise (TypeError "unsupported operand type(s)")
  end.

(** [for col in cols: df[col] = body(df[col])] *)
Fixpoint for_each_column (cols : list string) (body : Series -> result Series)
  (df : DataFrame) : result DataFrame :=
  match cols with
  | [] => Ok df
  | col :: rest =>
      s <- getitem df col ;;
      s' <- body s ;;
      for_each_column rest body (setitem df col s')
  end.

(** [df.select_dtypes(include=['int64', 'float64']).columns] *)
Definition numeric_columns (df : DataFrame) : list string :=
  map fst (filter (fun c => dtype_is_numeric (snd c)) (frame_cols df)).

(** The table after the first loop of [clean_data]. *)
Definition fill_stage (df : DataFrame) : result DataFrame :=
  for_each_column (columns df) fill_missing df.

Definition clean_data (df : DataFrame) : result DataFrame :=
  let cleaned_df := copy df in
  cleaned_df <- fill_stage cleaned_df ;;
  let numeric_cols := numeric_columns cleaned_df in
  for_each_column numeric_cols clip_outliers cleaned_df.

(** ** The script: split_by_region *)

Definition coastal_districts : list string :=
  ["Cox's Bazar"; "Chattogram"; "Khulna"; "Barishal"; "Satkhira"; "Patuakhali"].
Definition northern_districts : list string :=
  ["Rangpur"; "Rajshahi"; "Dinajpur"; "Bogura"; "Panchagarh"; "Thakurgaon"].
Definition central_districts : list string :=
  ["Dhaka"; "Gazipur"; "Narayanganj"; "Tangail"; "Mymensingh"].

Definition text_in (values : list string) (c : option string) : bool :=
  match c with
  | Some v => existsb (String.eqb v) values
  | None => false
  end.

(** [s.isin(values)] for a list of texts: exact match; a missing cell and a
    number match nothing. *)
Definition isin (s : Series) (values : list string) : list bool :=
  match s with
  | ObjSeries cells => map (text_in values) cells
  | NumSeries cells => map (fun _ => false) cells
  end.

(** [~mask] *)
Definition invert (mask : list bool) : list bool := map negb mask.

Fixpoint select {A : Type} (mask : list bool) (l : list A) : list A :=
  match mask, l with
  | true :: m, x :: r => x :: select m r
  | false :: m, _ :: r => select m r
  | _, _ => []
  end.

Definition select_series (mask : list bool) (s : Series) : Series :=
  match s with
  | NumSeries cells => NumSeries (select mask cells)
  | ObjSeries cells => ObjSeries (select mask cells)
  end.

(** [df[mask]]: the rows where [mask] holds, with their index labels. *)
Definition boolean_index (df : DataFrame) (mask : list bool) : DataFrame :=
  mkDataFrame (select mask (frame_index df))
    (map (fun c => (fst c, select_series mask (snd c))) (frame_cols df)).

(** The dict returned by [split_by_region], in insertion order. *)
Definition split_by_region (df : DataFrame) : result (list (string * DataFrame)) :=
  d1 <- getitem df "District" ;;
  let coastal := boolean_index df (isin d1 coastal_districts) in
  d2 <- getitem df "District" ;;
  let northern := boolean_index df (isin d2 northern_districts) in
  d3 <- getitem df "District" ;;
  let central := boolean_index df (isin d3 central_districts) in
  d4 <- getitem df "District" ;;
  let other :=
    boolean_index df
      (invert (isin d4 (coastal_districts ++ northern_districts ++ central_districts))) in
  Ok [("coastal", coastal); ("northern", northern); ("central", central); ("other", other)].

(** ** The script: load_data and save_processed_data *)

(** A call that prints: its result and the lines written to standard
    output, oldest first. *)
Definition io (A : Type) : Type := (result A * list string)%type.

Definition io_ret {A : Type} (a : A) : io A := (Ok a, []).

Definition io_lift {A : Type} (r : result A) : io A := (r, []).

Definition print (line : string) : io unit := (Ok tt, [line]).

Definition io_bind {A B : Type} (m : io A) (k : A -> io B) : io B :=
  match m with
  | (Ok a, out) => let (r, out') := k a in (r, out ++ out')
  | (Raise e, out) => (Raise e, out)
  end.

(** [try: body  except Exception as e: handler(e)] *)
Definition try_except {A : Type} (body : io A) (handler : exn -> io A) : io A :=
  match body with
  | (Ok a, out) => (Ok a, out)
  | (Raise e, out) => let (r, out') := handler e in (r, out ++ out')
  end.

Definition str_of_nat (n : nat) : string := NilEmpty.string_of_uint (Nat.to_uint n).

Section FileSystem.

(** The two pandas calls that touch the file system, as the environment
    answers them: [pd.read_csv(filepath)] and
    [df.to_csv(output_path, index=index)]. *)
Variable read_csv : string -> result DataFrame.
Variable to_csv : DataFrame -> string -> bool -> result unit.

Definition load_data (filepath : string) : io (option DataFrame) :=
  try_except
    (io_bind (io_lift (read_csv filepath)) (fun df =>
     io_bind (print ("Dataset loaded successfully with " ++ str_of_nat (nrows df)
                     ++ " rows and " ++ str_of_nat (ncols df) ++ " columns")%string)
       (fun _ => io_ret (Some df))))
    (fun e =>
     io_bind (print ("Error loading dataset: " ++ exn_str e)%string)
       (fun _ => io_ret None)).

Definition save_processed_data (df : DataFrame) (output_path : string) : io unit :=
  try_except
    (io_bind (io_lift (to_csv df output_path false)) (fun _ =>
     print ("Processed data saved to " ++ output_path)%string))
    (fun e => print ("Error saving processed data: " ++ exn_str e)%string).

End FileSystem.

(** ** Auxiliary notions used in the statements *)

(** The numeric cell of column [col] at row position [i], if there is one. *)
Definition num_at (df : DataFrame) (col : string) (i : nat) : option Q :=
  match getitem df col with
  | Ok (NumSeries cells) => nth i cells None
  | _ => None
  end.

(** [v // 10] on one value *)
Definition floor_tens (v : Q) : Q := inject_Z (Qfloor (v / 10)).

(** The names of the columns with their lengths, in order. *)
Definition column_lengths (df : DataFrame) : list (string * nat) :=
  map (fun c => (fst c, series_len (snd c))) (frame_cols df).

(** The number of values above and below a threshold. *)
Definition count_above (m : Q) (l : list Q) : nat :=
  length (filter (fun x => Qltb m x) l).


(** The order in which [sort_text] sorts. *)
Definition text_le (a b : string) : Prop := String.leb a b = true.

(** [coastal_districts + northern_districts + central_districts] *)
Definition all_districts : list string :=
  coastal_districts ++ northern_districts ++ central_districts.

(** The four membership flags of one District cell, in the order coastal,
    northern, central, other. *)
Definition region_flags (c : option string) : list bool :=
  [text_in coastal_districts c; text_in northern_districts c;
   text_in central_districts c; negb (text_in all_districts c)].

(** The number of flags that hold. *)
Definition count_true (flags : list bool) : nat := length (filter (fun b => b) flags).

(** The text of the District cell at row position [i]. *)
Definition district_at (district : Series) (i : nat) : option string :=
  match district with
  | ObjSeries cells => nth i cells None
  | NumSeries _ => None
  end.

(** A cell of either kind, and a table read row by row: the index label of
    each row with its cells, named by their columns in column order.  A
    column shorter than the index has no cell ([None]) at the rows it does
    not reach. *)
Inductive Cell : Type :=
| NumCell (c : option Q)
| TextCell (c : option string).

Definition Row : Type := (Z * list (string * option Cell))%type.

Definition head_cell (s : Series) : option Cell :=
  match s with
  | NumSeries (c :: _) => Some (NumCell c)
  | ObjSeries (c :: _) => Some (TextCell c)
  | _ => None
  end.

Definition tail_series (s : Series) : Series :=
  match s with
  | NumSeries cells => NumSeries (tl cells)
  | ObjSeries cells => ObjSeries (tl cells)
  end.

Fixpoint rows_of (index : list Z) (cols : list (string * Series)) : list Row :=
  match index with
  | [] => []
  | label :: rest =>
      (label, map (fun c => (fst c, head_cell (snd c))) cols)
      :: rows_of rest (map (fun c => (fst c, tail_series (snd c))) cols)
  end.

Definition rows (df : DataFrame) : list Row := rows_of (frame_index df) (frame_cols df).

(** The cell of a row under a column name (the first column of that name). *)
Fixpoint lookup_cell (col : string) (cells : list (string * option Cell))
  : option (option Cell) :=
  match cells with
  | [] => None
  | (name, c) :: rest => if String.eqb name col then Some c else lookup_cell col rest
  end.

(** The text a row holds under a column name, if it holds one. *)
Definition row_text (col : string) (r : Row) : option string :=
  match lookup_cell col (snd r) with
  | Some (Some (TextCell (Some v))) => Some v
  | _ => None
  end.

(** Whether the District of a row is one of the given names. *)
Definition row_in (names : list string) (r : Row) : bool :=
  match row_text "District" r with
  | Some v => existsb (String.eqb v) names
  | None => false
  end.

(** ** Sample tables *)

Definition sample_row : DataFrame :=
  mkDataFrame [0%Z]
    [("Year", NumSeries [Some 1995%Q]);
     ("District", ObjSeries [Some "Dhaka"]);
     ("Flood_Impact_Score", NumSeries [Some 5%Q]);
     ("Drought_Severity", NumSeries [Some 2%Q]);
     ("Cyclone_Count", NumSeries [Some 1%Q]);
     ("Forest_Cover_Percent", NumSeries [Some 20%Q]);
     ("AQI", NumSeries [Some 150%Q]);
     ("Renewable_Energy_Usage_Percent", NumSeries [Some 10%Q])].

Definition sample_row_month : DataFrame :=
  setitem sample_row "Month" (NumSeries [Some 7%Q]).

Definition sample_row_out : DataFrame :=
  Eval vm_compute in
    match feature_engineering sample_row with
    | Ok out => out
    | Raise _ => sample_row
    end.

Definition outlier_values : list (option Q) :=
  [Some 1; Some 2; Some 3; Some 4; Some 100]%Q.

Definition sample_outlier : DataFrame :=
  mkDataFrame [0; 1; 2; 3; 4]%Z
    [("x", NumSeries outlier_values)].

Definition sample_outlier_out : DataFrame :=
  Eval vm_compute in
    match clean_data sample_outlier with
    | Ok out => out
    | Raise _ => sample_outlier
    end.

Definition sample_missing : DataFrame :=
  mkDataFrame [0; 1; 2; 3]%Z
    [("Rainfall", NumSeries [None; Some 5; None; Some 8]%Q);
     ("District", ObjSeries [Some "Khulna"; None; Some "Dhaka"; None])].

Definition sample_missing_out : DataFrame :=
  Eval vm_compute in
    match clean_data sample_missing with
    | Ok out => out
    | Raise _ => sample_missing
    end.


Definition sample_all_missing_text : DataFrame :=
  mkDataFrame [0; 1]%Z
    [("Year", NumSeries [Some 1995; Some 1996]%Q);
     ("District", ObjSeries [None; None])].

Definition sample_districts : DataFrame :=
  mkDataFrame [0; 1; 2; 3]%Z
    [("Year", NumSeries [Some 1995; Some 1996; Some 1997; Some 1998]%Q);
     ("District", ObjSeries [Some "Khulna"; Some "Dhaka"; Some "Sylhet"; None])].

Definition sample_regions : list (string * DataFrame) :=
  Eval vm_compute in
    match split_by_region sample_districts with
    | Ok regions => regions
    | Raise _ => []
    end.

(** ** The script: main *)

(** [cleaned_df.isnull().sum()]: the number of missing cells of each column. *)
Definition missing_values (df : DataFrame) : list (string * nat) :=
  map (fun c => (fst c, isnull_sum (snd c))) (frame_cols df).

Definition newline : string := String (Ascii.ascii_of_nat 10) EmptyString.

Definition input_file : string := "../Bangladesh_Environmental_Climate_Change_Impact.csv".
Definition output_file : string := "../data/processed_climate_data.csv".

Section Pipeline.

Variable read_csv : string -> result DataFrame.
Variable to_csv : DataFrame -> string -> bool -> result unit.

(** The text that [print] shows for a Series of counts (pandas' layout of
    it is not modelled). *)
Variable series_repr : list (string * nat) -> string.

(** [clean_data] together with the report it prints before cleaning. *)
Definition clean_data_io (df : DataFrame) : io DataFrame :=
  io_bind
    (print ("Missing values before cleaning:" ++ newline
            ++ series_repr (missing_values (copy df)))%string)
    (fun _ => io_lift (clean_data df)).

Definition main : io unit :=
  io_bind (load_data read_csv input_file) (fun df =>
  match df with
  | None => io_ret tt
  | Some df =>
      io_bind (print "Cleaning data...") (fun _ =>
      io_bind (clean_data_io df) (fun cleaned_df =>
      io_bind (print "Engineering features...") (fun _ =>
      io_bind (io_lift (feature_engineering cleaned_df)) (fun processed_df =>
      io_bind (save_processed_data to_csv processed_df output_file) (fun _ =>
      print "Preprocessing completed successfully!")))))
  end).

End Pipeline.

(** ** Further notions used in the statements *)

(** The last line that [main] prints. *)
Definition completed : string := "Preprocessing completed successfully!".

(** The line that [load_data] prints on success. *)
Definition loaded_line (df : DataFrame) : string :=
  ("Dataset loaded successfully with " ++ str_of_nat (nrows df)
   ++ " rows and " ++ str_of_nat (ncols df) ++ " columns")%string.

(** The lines that [main] prints up to the end of cleaning. *)
Definition cleaning_lines (series_repr : list (string * nat) -> string)
  (df : DataFrame) : list string :=
  [loaded_line df; "Cleaning data...";
   ("Missing values before cleaning:" ++ newline
    ++ series_repr (missing_values df))%string].

(** The columns that [feature_engineering] reads, in the order in which it
    reads them. *)
Definition required_columns : list string :=
  ["Year"; "Flood_Impact_Score"; "Drought_Severity"; "Cyclone_Count";
   "Forest_Cover_Percent"; "AQI"; "Renewable_Energy_Usage_Percent"].

(** The columns that [feature_engineering] assigns. *)
Definition derived_columns : list string :=
  ["Decade"; "Climate_Risk_Score"; "Environmental_Health_Index"].

(** The first required column that the table lacks. *)
Definition first_missing (df : DataFrame) : option string :=
  find (fun c => negb (has_column c df)) required_columns.

(** The cells of a column, whatever their kind, as present or missing. *)
Definition presence (s : Series) : list bool :=
  match s with
  | NumSeries cells => map is_present cells
  | ObjSeries cells => map is_present cells
  end.

Definition same_kind (s s' : Series) : bool :=
  Bool.eqb (dtype_is_numeric s) (dtype_is_numeric s').

(** ** Further sample tables *)

Definition sample_no_drought : DataFrame :=
  mkDataFrame [0%Z]
    [("Year", NumSeries [Some 1995%Q]);
     ("Flood_Impact_Score", NumSeries [Some 5%Q])].



Definition sample_coastal : DataFrame :=
  Eval vm_compute in
    match sample_regions with
    | (_, g) :: _ => g
    | [] => sample_districts
    end.

Definition sample_row_cleaned : DataFrame :=
  Eval vm_compute in
    match clean_data sample_row with
    | Ok out => out
    | Raise _ => sample_row
    end.

Definition sample_row_processed : DataFrame :=
  Eval vm_compute in
    match feature_engineering sample_row_cleaned with
    | Ok out => out
    | Raise _ => sample_row_cleaned
    end.

(** A table with a missing cell in each of the columns that
    [feature_engineering] reads. *)
Definition sample_gaps : DataFrame :=
  mkDataFrame [0; 1; 2]%Z
    [("Year", NumSeries [Some 1995; Some 2003; None]%Q);
     ("Flood_Impact_Score", NumSeries [Some 5; None; Some 3]%Q);
     ("Drought_Severity", NumSeries [None; Some 2; Some 4]%Q);
     ("Cyclone_Count", NumSeries [Some 1; Some 0; None]%Q);
     ("Forest_Cover_Percent", NumSeries [Some 20; None; Some 30]%Q);
     ("AQI", NumSeries [None; Some 150; Some 90]%Q);
     ("Renewable_Energy_Usage_Percent", NumSeries [Some 10; Some 12; None]%Q)].

Definition sample_gaps_out : DataFrame :=
  Eval vm_compute in
    match feature_engineering sample_gaps with
    | Ok out => out
    | Raise _ => sample_gaps
    end.

Definition sample_gaps_cleaned : DataFrame :=
  Eval vm_compute in
    match clean_data sample_gaps with
    | Ok out => out
    | Raise _ => sample_gaps
    end.

Definition sample_gaps_processed : DataFrame :=
  Eval vm_compute in
    match feature_engineering sample_gaps_cleaned with
    | Ok out => out
    | Raise _ => sample_gaps_cleaned
    end.

(** Answers of the file system used in the sample runs of [main]. *)
Definition read_sample_row (filepath : string) : result DataFrame := Ok sample_row.

Definition read_sample_month (filepath : string) : result DataFrame :=
  Ok sample_row_month.

Definition read_sample_all_missing_text (filepath : string) : result DataFrame :=
  Ok sample_all_missing_text.

Definition write_denied (df : DataFrame) (path : string) (index : bool) : result unit :=
  Raise (OtherError "PermissionError" "Permission denied").

Definition no_repr (counts : list (string * nat)) : string := "".

(** * The script over machine numbers

    A second embedding of [clean_data] and [feature_engineering], for the
    statements that depend on the arithmetic of the columns.  Here a column
    has one of the three dtypes that [pd.read_csv] gives the columns of the
    dataset:
    - int64: every cell an integer between [-2^63] and [2^63 - 1]; the
      result of an operation wraps around, as numpy's does; no cell is
      missing;
    - float64: every cell a binary64 floating-point number, NaN being the
      missing cell; operations round to nearest, ties to even;
    - object: every cell a text or NaN.
    pandas and numpy behave as in pandas 1.5 to 2.x with numpy 1.22 or
    later: [s.fillna(v, inplace=True)] on a column of a table writes through
    to the table; [df.loc[mask, col] = v] keeps an int64 column when [v] is
    a whole number that int64 holds, and turns it into a float64 column
    otherwise; percentiles are interpolated by numpy's [_lerp]. *)

Module Machine.

(** ** numpy: int64 *)

Definition int64_min : Z := (- 2 ^ 63)%Z.
Definition int64_max : Z := (2 ^ 63 - 1)%Z.

(** The int64 that an integer result wraps around to. *)
Definition wrap64 (z : Z) : Z := ((z - int64_min) mod 2 ^ 64 + int64_min)%Z.

(** ** numpy: float64 *)

(** [float(z)] for an int64 [z]: the nearest binary64 number, ties to even. *)
Definition float_of_int64 (z : Z) : float :=
  if (z =? int64_min)%Z then (-9223372036854775808)%float
  else if (z <? 0)%Z then (- of_uint63 (Uint63Axioms.of_Z (- z)))%float
  else of_uint63 (Uint63Axioms.of_Z z).

(** [int(x)]: the whole part of a finite number, rounded toward zero. *)
Definition int_of_float (x : float) : option Z :=
  match Prim2SF x with
  | S754_zero _ => Some 0%Z
  | S754_finite s m e =>
      let n := (if 0 <=? e then Z.pos m * 2 ^ e else Z.pos m / 2 ^ (- e))%Z in
      Some (if s then (- n)%Z else n)
  | _ => None
  end.

(** The int64 that holds [x] exactly: [x.is_integer()] and
    [int64_min <= x <= int64_max].  A number is whole when it is the float of
    its own whole part. *)
Definition int64_of_float (x : float) : option Z :=
  match int_of_float x with
  | Some n =>
      if ((int64_min <=? n)%Z && (n <=? int64_max)%Z
          && (float_of_int64 n =? x)%float)%bool
      then Some n else None
  | None => None
  end.

(** C's [floor] *)
Definition floor (x : float) : float :=
  match Prim2SF x with
  | S754_finite s m e =>
      if (0 <=? e)%Z then x
      else float_of_int64 ((if s then Z.neg m else Z.pos m) / 2 ^ (- e))
  | _ => x
  end.

(** C's [fmod]: the remainder of [a / b] rounded toward zero, with the sign
    of [a]; it is exact. *)
Definition fmod (a b : float) : float :=
  match Prim2SF a, Prim2SF b with
  | S754_nan, _ | _, S754_nan => nan
  | S754_infinity _, _ => nan
  | _, S754_zero _ => nan
  | _, S754_infinity _ => a
  | S754_zero _, _ => a
  | S754_finite sa ma ea, S754_finite _ mb eb =>
      let e := Z.min ea eb in
      let A := (Z.pos ma * 2 ^ (ea - e))%Z in
      let B := (Z.pos mb * 2 ^ (eb - e))%Z in
      let r := Z.ldexp (of_uint63 (Uint63Axioms.of_Z (A mod B))) e in
      if sa then (- r)%float else r
  end.

(** C's truth value of a number: anything but zero (NaN is true). *)
Definition is_true (x : float) : bool := negb (x =? 0)%float.

(** C's [copysign(0, x)] *)
Definition signed_zero (x : float) : float :=
  if get_sign x then (-0)%float else 0%float.

(** numpy's [npy_divmod], the quotient: the remainder is taken with [fmod],
    brought to the sign of the divisor, and the quotient snapped to the
    nearest whole number. *)
Definition npy_divmod (a b : float) : float :=
  let mod_ := fmod a b in
  if negb (is_true b) then (a / b)%float
  else
    let div := ((a - mod_) / b)%float in
    let div :=
      if is_true mod_ then
        if Bool.eqb (b <? 0)%float (mod_ <? 0)%float then div else (div - 1)%float
      else div in
    if is_true div then
      let floordiv := floor div in
      if (0.5 <? div - floordiv)%float then (floordiv + 1)%float else floordiv
    else signed_zero (a / b)%float.

(** numpy's [floor_divide] on float64 *)
Definition floor_divide (a b : float) : float :=
  if negb (is_true b) then (a / b)%float else npy_divmod a b.

(** ** pandas: Series *)

Inductive Series : Type :=
| Int64 (cells : list Z)
| Float64 (cells : list float)
| Object (cells : list (option string)).

Definition series_len (s : Series) : nat :=
  match s with
  | Int64 cells => length cells
  | Float64 cells => length cells
  | Object cells => length cells
  end.

(** [s.isnull().sum()] *)
Definition isnull_sum (s : Series) : nat :=
  match s with
  | Int64 _ => 0%nat
  | Float64 cells => length (filter is_nan cells)
  | Object cells => length (filter is_missing cells)
  end.

(** [s.dtype in ['int64', 'float64']] *)
Definition dtype_is_numeric (s : Series) : bool :=
  match s with
  | Int64 _ | Float64 _ => true
  | Object _ => false
  end.

(** A Python number next to a column: an [int] or a [float]. *)
Inductive Scalar : Type :=
| PyInt (k : Z)
| PyFloat (x : float).

Definition unsupported : exn := TypeError "unsupported operand type(s)".

(** An operation on the cells of an object column that numbers support and
    text does not: a text cell makes Python raise [TypeError]; NaN gives
    NaN. *)
Definition numbers_only (cells : list (option string)) : result Series :=
  if existsb is_present cells then Raise unsupported else Ok (Object cells).

(** [s // k] for a Python int [k > 0] *)
Definition floordiv_scalar (s : Series) (k : positive) : result Series :=
  match s with
  | Int64 cells => Ok (Int64 (map (fun z => z / Z.pos k)%Z cells))
  | Float64 cells =>
      Ok (Float64 (map (fun x => floor_divide x (float_of_int64 (Z.pos k))) cells))
  | Object cells => numbers_only cells
  end.

(** Python's [text * k] *)
Fixpoint repeat_text (text : string) (k : nat) : string :=
  match k with
  | O => EmptyString
  | S k' => (text ++ repeat_text text k')%string
  end.

(** [s * k] *)
Definition mul_scalar (s : Series) (k : Scalar) : result Series :=
  match s, k with
  | Int64 cells, PyInt k => Ok (Int64 (map (fun z => wrap64 (z * k)) cells))
  | Int64 cells, PyFloat k =>
      Ok (Float64 (map (fun z => float_of_int64 z * k)%float cells))
  | Float64 cells, PyInt k =>
      Ok (Float64 (map (fun x => x * float_of_int64 k)%float cells))
  | Float64 cells, PyFloat k => Ok (Float64 (map (fun x => x * k)%float cells))
  | Object cells, PyInt k =>
      Ok (Object (map (option_map (fun text => repeat_text text (Z.to_nat k))) cells))
  | Object cells, PyFloat _ => numbers_only cells
  end.

(** [k - s] for a Python int [k] *)
Definition rsub_scalar (k : Z) (s : Series) : result Series :=
  match s with
  | Int64 cells => Ok (Int64 (map (fun z => wrap64 (k - z)) cells))
  | Float64 cells => Ok (Float64 (map (fun x => float_of_int64 k - x)%float cells))
  | Object cells => numbers_only cells
  end.

(** [s / k] for a Python int [k > 0]: true division, in float64 *)
Definition div_scalar (s : Series) (k : positive) : result Series :=
  match s with
  | Int64 cells =>
      Ok (Float64
            (map (fun z => float_of_int64 z / float_of_int64 (Z.pos k))%float cells))
  | Float64 cells =>
      Ok (Float64 (map (fun x => x / float_of_int64 (Z.pos k))%float cells))
  | Object cells => numbers_only cells
  end.

(** Python's [a + b] on the cells of two object columns: two texts are
    joined, NaN and NaN give NaN, a text and NaN raise [TypeError]. *)
Fixpoint add_objects (c1 c2 : list (option string)) : result (list (option string)) :=
  match c1, c2 with
  | a :: r1, b :: r2 =>
      match a, b with
      | Some x, Some y => rest <- add_objects r1 r2 ;; Ok (Some (x ++ y)%string :: rest)
      | None, None => rest <- add_objects r1 r2 ;; Ok (None :: rest)
      | _, _ => Raise unsupported
      end
  | _, _ => Ok []
  end.

(** An object column next to a column of numbers: NaN where the object cell
    is NaN, [TypeError] on a text cell. *)
Definition add_numbers {A : Type} (objects : list (option string)) (others : list A)
  : result Series :=
  if existsb is_present objects then Raise unsupported
  else Ok (Object (map (fun _ => None) (combine objects others))).

(** [s1 + s2] for two columns of one table (same index: position-wise) *)
Definition add_series (s1 s2 : Series) : result Series :=
  match s1, s2 with
  | Int64 c1, Int64 c2 =>
      Ok (Int64 (map (fun p => wrap64 (fst p + snd p)) (combine c1 c2)))
  | Int64 c1, Float64 c2 =>
      Ok (Float64 (map (fun p => float_of_int64 (fst p) + snd p)%float (combine c1 c2)))
  | Float64 c1, Int64 c2 =>
      Ok (Float64 (map (fun p => fst p + float_of_int64 (snd p))%float (combine c1 c2)))
  | Float64 c1, Float64 c2 =>
      Ok (Float64 (map (fun p => fst p + snd p)%float (combine c1 c2)))
  | Object c1, Object c2 => cells <- add_objects c1 c2 ;; Ok (Object cells)
  | Object c1, Int64 c2 => add_numbers c1 c2
  | Object c1, Float64 c2 => add_numbers c1 c2
  | Int64 c1, Object c2 => add_numbers c2 c1
  | Float64 c1, Object c2 => add_numbers c2 c1
  end.

(** ** pandas: DataFrame *)

Record DataFrame : Type := mkDataFrame {
  frame_index : list Z;
  frame_cols : list (string * Series)
}.

(** [df.columns] *)
Definition columns (df : DataFrame) : list string := map fst (frame_cols df).

(** [df.shape[0]] *)
Definition nrows (df : DataFrame) : nat := length (frame_index df).

(** [df.copy()]: tables are values here, so a copy is the table itself. *)
Definition copy (df : DataFrame) : DataFrame := df.

Fixpoint lookup_col (col : string) (cols : list (string * Series)) : option Series :=
  match cols with
  | [] => None
  | (name, s) :: rest => if String.eqb name col then Some s else lookup_col col rest
  end.

(** [df[col]] *)
Definition getitem (df : DataFrame) (col : string) : result Series :=
  match lookup_col col (frame_cols df) with
  | Some s => Ok s
  | None => Raise (KeyError col)
  end.

Fixpoint assign_col (col : string) (s : Series) (cols : list (string * Series))
  : list (string * Series) :=
  match cols with
  | [] => [(col, s)]
  | (name, s0) :: rest =>
      if String.eqb name col then (name, s) :: rest
      else (name, s0) :: assign_col col s rest
  end.

(** [df[col] = s]: replaces the column [col] in place, or appends it. *)
Definition setitem (df : DataFrame) (col : string) (s : Series) : DataFrame :=
  mkDataFrame (frame_index df) (assign_col col s (frame_cols df)).

(** ['col' in df.columns] *)
Definition has_column (col : string) (df : DataFrame) : bool :=
  existsb (String.eqb col) (columns df).

(** ** pandas: cut *)

(** [bins.searchsorted(x, side='left')] for increasing whole-number [bins]:
    the number of edges strictly below the value; NaN sorts after every
    edge. *)
Definition searchsorted_left_int (bins : list Z) (z : Z) : nat :=
  length (filter (fun b => b <? z)%Z bins).

Definition searchsorted_left_float (bins : list Z) (x : float) : nat :=
  if is_nan x then length bins
  else length (filter (fun b => float_of_int64 b <? x)%float bins).

Definition bin_of (bins : list Z) (labels : list string) (id : nat) : option string :=
  if (id =? 0)%nat || (id =? length bins)%nat then None else nth_error labels (id - 1).

(** [pd.cut(x, bins=bins, labels=labels, include_lowest=include_lowest)], with
    the defaults [right=True] and [ordered=True]: the values are located in
    the bins first (text cannot be compared with the edges); then the labels
    are checked: with [ordered=True] they must be pairwise distinct, and
    there must be one per bin. *)
Definition cut (x : Series) (bins : list Z) (labels : list string)
  (include_lowest : bool) : result Series :=
  ids <- match x with
         | Int64 cells =>
             Ok (map (fun z => if include_lowest && (z =? hd 0 bins)%Z then 1%nat
                               else searchsorted_left_int bins z) cells)
         | Float64 cells =>
             Ok (map (fun v =>
                        if include_lowest && (v =? float_of_int64 (hd 0%Z bins))%float
                        then 1%nat
                        else searchsorted_left_float bins v) cells)
         | Object cells =>
             if existsb is_present cells then Raise unsupported
             else Ok (map (fun _ => length bins) cells)
         end ;;
  if has_duplicates labels then
    Raise (ValueError
      "labels must be unique if ordered=True; pass ordered=False for duplicate labels")
  else if negb (length labels =? length bins - 1)%nat then
    Raise (ValueError "Bin labels must be one fewer than the number of bin edges")
  else
    Ok (Object (map (bin_of bins labels) ids)).

(** ** The script: feature_engineering *)

Definition season_bins : list Z := [0; 2; 5; 8; 11; 12]%Z.

Definition feature_engineering (df : DataFrame) : result DataFrame :=
  let engineered_df := copy df in
  (* engineered_df['Decade'] = (engineered_df['Year'] // 10) * 10 *)
  year <- getitem engineered_df "Year" ;;
  tens <- floordiv_scalar year 10 ;;
  decade <- mul_scalar tens (PyInt 10) ;;
  let engineered_df := setitem engineered_df "Decade" decade in
  (* Climate_Risk_Score *)
  flood <- getitem engineered_df "Flood_Impact_Score" ;;
  r1 <- mul_scalar flood (PyFloat 0.3) ;;
  drought <- getitem engineered_df "Drought_Severity" ;;
  r2 <- mul_scalar drought (PyFloat 0.3) ;;
  r12 <- add_series r1 r2 ;;
  cyclone <- getitem engineered_df "Cyclone_Count" ;;
  r3 <- mul_scalar cyclone (PyFloat 0.4) ;;
  risk <- add_series r12 r3 ;;
  let engineered_df := setitem engineered_df "Climate_Risk_Score" risk in
  (* Environmental_Health_Index *)
  forest <- getitem engineered_df "Forest_Cover_Percent" ;;
  h1 <- mul_scalar forest (PyFloat 0.4) ;;
  aqi <- getitem engineered_df "AQI" ;;
  inv <- rsub_scalar 100 aqi ;;
  h2 <- mul_scalar inv (PyFloat 0.3) ;;
  h12 <- add_series h1 h2 ;;
  renew <- getitem engineered_df "Renewable_Energy_Usage_Percent" ;;
  h3 <- mul_scalar renew (PyFloat 0.3) ;;
  hsum <- add_series h12 h3 ;;
  health <- div_scalar hsum 100 ;;
  let engineered_df := setitem engineered_df "Environmental_Health_Index" health in
  (* Season, if month data is available *)
  if has_column "Month" engineered_df then
    month <- getitem engineered_df "Month" ;;
    season <- cut month season_bins season_labels true ;;
    Ok (setitem engineered_df "Season" season)
  else
    Ok engineered_df.

(** ** pandas: order statistics *)

Fixpoint insert_int (x : Z) (l : list Z) : list Z :=
  match l with
  | [] => [x]
  | y :: rest => if (x <=? y)%Z then x :: l else y :: insert_int x rest
  end.

Fixpoint sort_ints (l : list Z) : list Z :=
  match l with
  | [] => []
  | x :: rest => insert_int x (sort_ints rest)
  end.

Fixpoint insert_value (x : float) (l : list float) : list float :=
  match l with
  | [] => [x]
  | y :: rest => if (x <=? y)%float then x :: l else y :: insert_value x rest
  end.

Fixpoint sort_values (l : list float) : list float :=
  match l with
  | [] => []
  | x :: rest => insert_value x (sort_values rest)
  end.

(** The cells that hold a number. *)
Definition dropna (cells : list float) : list float :=
  filter (fun x => negb (is_nan x)) cells.

(** [float(n)] for a count *)
Definition float_of_nat (n : nat) : float := float_of_int64 (Z.of_nat n).

(** [s.median()] on a float64 column: missing cells are skipped; the middle
    value of the sorted values, or the mean of the two middle values; NaN
    when no value is left. *)
Definition median (cells : list float) : float :=
  let a := sort_values (dropna cells) in
  let n := length a in
  if (n =? 0)%nat then nan
  else if Nat.even n then ((nth (n / 2 - 1) a nan + nth (n / 2) a nan) / 2)%float
  else nth (n / 2) a nan.

(** numpy's [_lerp(a, b, t)], given [b - a] as the dtype of the values
    computes it. *)
Definition lerp (a b diff_b_a t : float) : float :=
  if (0.5 <=? t)%float then (b - diff_b_a * (1 - t))%float
  else (a + diff_b_a * t)%float.

(** numpy's [percentile] with linear interpolation, on sorted values: at
    the virtual index [(n - 1) * q], the two neighbours are interpolated;
    at the last index and beyond, the last value is taken for both
    neighbours. *)
Definition percentile {A : Type} (a : list A) (d : A) (to_float : A -> float)
  (diff : A -> A -> float) (q : float) : float :=
  let n := length a in
  if (n =? 0)%nat then nan
  else
    let virtual_index := (float_of_nat (n - 1) * q)%float in
    if (float_of_nat (n - 1) <=? virtual_index)%float then
      let last := nth (n - 1) a d in
      lerp (to_float last) (to_float last) (diff last last) (virtual_index - (-1))%float
    else
      match int_of_float (floor virtual_index) with
      | Some i =>
          let previous := nth (Z.to_nat i) a d in
          let next := nth (Z.to_nat i + 1) a d in
          let gamma := (virtual_index - float_of_int64 i)%float in
          lerp (to_float previous) (to_float next) (diff previous next) gamma
      | None => nan
      end.

(** [s.quantile(q)] with the default linear interpolation: missing cells are
    skipped; on an int64 column the difference of the two neighbours is
    taken in int64 before anything is converted to float64. *)
Definition quantile (s : Series) (q : float) : result float :=
  match s with
  | Int64 cells =>
      Ok (percentile (sort_ints cells) 0%Z float_of_int64
            (fun a b => float_of_int64 (wrap64 (b - a))) q)
  | Float64 cells =>
      Ok (percentile (sort_values (dropna cells)) nan (fun x => x)
            (fun a b => (b - a)%float) q)
  | Object _ => Raise unsupported
  end.

(** [s.fillna(v)] on a float64 column *)
Definition fillna_float (cells : list float) (v : float) : list float :=
  map (fun c => if is_nan c then v else c) cells.

(** ** The script: clean_data *)

(** The body of the first loop, for one column:
    [if s.isnull().sum() > 0: s.fillna(s.median() or s.mode()[0], inplace=True)].
    The fill writes through to the table.  An int64 column has no missing
    cell. *)
Definition fill_missing (s : Series) : result Series :=
  if (0 <? isnull_sum s)%nat then
    match s with
    | Int64 cells => Ok (Int64 cells)
    | Float64 cells => Ok (Float64 (fillna_float cells (median cells)))
    | Object cells =>
        match mode cells with
        | [] => Raise (KeyError "0")
        | v :: _ => Ok (Object (fillna cells (Some v)))
        end
    end
  else Ok s.

(** [s < bound] and [s > bound] for a float64 [bound]: an int64 cell is
    converted to float64 first; a comparison with NaN is false. *)
Definition lt_scalar (s : Series) (bound : float) : result (list bool) :=
  match s with
  | Int64 cells => Ok (map (fun z => float_of_int64 z <? bound)%float cells)
  | Float64 cells => Ok (map (fun x => x <? bound)%float cells)
  | Object cells =>
      if existsb is_present cells then Raise unsupported
      else Ok (map (fun _ => false) cells)
  end.

Definition gt_scalar (s : Series) (bound : float) : result (list bool) :=
  match s with
  | Int64 cells => Ok (map (fun z => bound <? float_of_int64 z)%float cells)
  | Float64 cells => Ok (map (fun x => bound <? x)%float cells)
  | Object cells =>
      if existsb is_present cells then Raise unsupported
      else Ok (map (fun _ => false) cells)
  end.

Definition set_where {A : Type} (mask : list bool) (value : A) (cells : list A)
  : list A :=
  map (fun p : bool * A => if fst p then value else snd p) (combine mask cells).

(** [df.loc[mask, col] = value] on one column, for a float64 [value] and a
    mask as long as the column.  A column without rows is left as it is.
    An int64 column stays int64 when it can hold [value], whatever the
    mask; otherwise the whole column becomes float64.  (An object column can
    hold any value; the script assigns to numeric columns only, and of the
    object columns only the case where no cell is selected is modelled.) *)
Definition loc_assign (mask : list bool) (value : float) (s : Series) : result Series :=
  match s with
  | Float64 cells => Ok (Float64 (set_where mask value cells))
  | Int64 cells =>
      if (length cells =? 0)%nat then Ok s
      else
        match int64_of_float value with
        | Some k => Ok (Int64 (set_where mask k cells))
        | None => Ok (Float64 (set_where mask value (map float_of_int64 cells)))
        end
  | Object cells =>
      if existsb (fun b => b) mask then Raise unsupported else Ok s
  end.

(** The body of the second loop, for one numeric column. *)
Definition clip_outliers (s : Series) : result Series :=
  Q1 <- quantile s 0.25 ;;
  Q3 <- quantile s 0.75 ;;
  let IQR := (Q3 - Q1)%float in
  let lower_bound := (Q1 - 1.5 * IQR)%float in
  let upper_bound := (Q3 + 1.5 * IQR)%float in
  below <- lt_scalar s lower_bound ;;
  s <- loc_assign below lower_bound s ;;
  above <- gt_scalar s upper_bound ;;
  loc_assign above upper_bound s.

(** [for col in cols: df[col] = body(df[col])] *)
Fixpoint for_each_column (cols : list string) (body : Series -> result Series)
  (df : DataFrame) : result DataFrame :=
  match cols with
  | [] => Ok df
  | col :: rest =>
      s <- getitem df col ;;
      s' <- body s ;;
      for_each_column rest body (setitem df col s')
  end.

(** [df.select_dtypes(include=['int64', 'float64']).columns] *)
Definition numeric_columns (df : DataFrame) : list string :=
  map fst (filter (fun c => dtype_is_numeric (snd c)) (frame_cols df)).

(** The table after the first loop of [clean_data]. *)
Definition fill_stage (df : DataFrame) : result DataFrame :=
  for_each_column (columns df) fill_missing df.

Definition clean_data (df : DataFrame) : result DataFrame :=
  let cleaned_df := copy df in
  cleaned_df <- fill_stage cleaned_df ;;
  let numeric_cols := numeric_columns cleaned_df in
  for_each_column numeric_cols clip_outliers cleaned_df.

(** ** Notions used in the statements *)

(** A cell of any dtype. *)
Inductive Cell : Type :=
| IntCell (z : Z)
| FloatCell (x : float)
| TextCell (c : option string).

Definition cells_of (s : Series) : list Cell :=
  match s with
  | Int64 cells => map IntCell cells
  | Float64 cells => map FloatCell cells
  | Object cells => map TextCell cells
  end.

(** The cell of column [col] at row position [i], if there is one. *)
Definition cell (df : DataFrame) (col : string) (i : nat) : option Cell :=
  match getitem df col with
  | Ok s => nth_error (cells_of s) i
  | Raise _ => None
  end.

(** The binary64 number that arithmetic with a float, and a comparison,
    see in a cell of a numeric column. *)
Definition number (c : Cell) : option float :=
  match c with
  | IntCell z => Some (float_of_int64 z)
  | FloatCell x => Some x
  | TextCell _ => None
  end.

(** The operations of [feature_engineering] on one cell.  They are applied
    to columns on which the operation returns, where the cells of an object
    column are NaN unless the operation accepts text. *)
Definition floordiv_cell (k : positive) (c : Cell) : Cell :=
  match c with
  | IntCell z => IntCell (z / Z.pos k)
  | FloatCell x => FloatCell (floor_divide x (float_of_int64 (Z.pos k)))
  | TextCell _ => TextCell None
  end.

Definition mul_cell (k : Scalar) (c : Cell) : Cell :=
  match c, k with
  | IntCell z, PyInt k => IntCell (wrap64 (z * k))
  | IntCell z, PyFloat k => FloatCell (float_of_int64 z * k)
  | FloatCell x, PyInt k => FloatCell (x * float_of_int64 k)
  | FloatCell x, PyFloat k => FloatCell (x * k)
  | TextCell c, PyInt k =>
      TextCell (option_map (fun text => repeat_text text (Z.to_nat k)) c)
  | TextCell _, PyFloat _ => TextCell None
  end.

Definition rsub_cell (k : Z) (c : Cell) : Cell :=
  match c with
  | IntCell z => IntCell (wrap64 (k - z))
  | FloatCell x => FloatCell (float_of_int64 k - x)
  | TextCell _ => TextCell None
  end.

Definition div_cell (k : positive) (c : Cell) : Cell :=
  match c with
  | IntCell z => FloatCell (float_of_int64 z / float_of_int64 (Z.pos k))
  | FloatCell x => FloatCell (x / float_of_int64 (Z.pos k))
  | TextCell _ => TextCell None
  end.

Definition add_cell (a b : Cell) : Cell :=
  match a, b with
  | IntCell x, IntCell y => IntCell (wrap64 (x + y))
  | IntCell x, FloatCell y => FloatCell (float_of_int64 x + y)
  | FloatCell x, IntCell y => FloatCell (x + float_of_int64 y)
  | FloatCell x, FloatCell y => FloatCell (x + y)
  | TextCell (Some x), TextCell (Some y) => TextCell (Some (x ++ y)%string)
  | _, _ => TextCell None
  end.

(** The numbers that comparisons see in the cells of a numeric column. *)
Definition numbers (s : Series) : list float :=
  match s with
  | Int64 cells => map float_of_int64 cells
  | Float64 cells => cells
  | Object cells => map (fun _ => nan) cells
  end.

(** What clipping makes of one number, given the two bounds. *)
Definition clipped (lower upper v v' : float) : Prop :=
  ((v <? lower)%float = true -> (upper <? lower)%float = false ->
   (v' =? lower)%float = true) /\
  ((v <? lower)%float = true -> (upper <? lower)%float = true ->
   (v' =? upper)%float = true) /\
  ((v <? lower)%float = false -> (upper <? v)%float = true ->
   (v' =? upper)%float = true) /\
  ((v <? lower)%float = false -> (upper <? v)%float = false -> v' = v).

(** ** The order of binary64 numbers

    A key for every number, such that numbers compare as their keys do in
    the lexicographic order: the sign class first, then the exponent and the
    mantissa (both negated for a negative number).  Both zeros have the same
    key. *)
Definition sf_key (x : spec_float) : Z * Z * Z :=
  match x with
  | S754_nan => (0, 0, 0)%Z
  | S754_zero _ => (0, 0, 0)%Z
  | S754_infinity true => (-2, 0, 0)%Z
  | S754_infinity false => (2, 0, 0)%Z
  | S754_finite true m e => (-1, - e, Z.neg m)%Z
  | S754_finite false m e => (1, e, Z.pos m)%Z
  end.

Definition fkey (x : float) : Z * Z * Z := sf_key (Prim2SF x).

Definition key_compare (k k' : Z * Z * Z) : comparison :=
  match k, k' with
  | (a, b, c), (a', b', c') =>
      match (a ?= a')%Z with
      | Eq => match (b ?= b')%Z with
              | Eq => (c ?= c')%Z
              | Lt => Lt
              | Gt => Gt
              end
      | Lt => Lt
      | Gt => Gt
      end
  end.

Definition key_lt (k k' : Z * Z * Z) : Prop :=
  match k, k' with
  | (a, b, c), (a', b', c') =>
      (a < a' \/ (a = a' /\ (b < b' \/ (b = b' /\ c < c'))))%Z
  end.

(** ** Sample tables *)

Definition sample_row : DataFrame :=
  mkDataFrame [0%Z]
    [("Year", Int64 [1995%Z]);
     ("District", Object [Some "Dhaka"]);
     ("Flood_Impact_Score", Int64 [5%Z]);
     ("Drought_Severity", Int64 [2%Z]);
     ("Cyclone_Count", Int64 [1%Z]);
     ("Forest_Cover_Percent", Int64 [20%Z]);
     ("AQI", Int64 [150%Z]);
     ("Renewable_Energy_Usage_Percent", Int64 [10%Z])].

Definition sample_row_out : DataFrame :=
  Eval vm_compute in
    match feature_engineering sample_row with
    | Ok out => out
    | Raise _ => sample_row
    end.

(** A row whose Year is the smallest int64. *)
Definition sample_wrap : DataFrame :=
  mkDataFrame [0%Z]
    [("Year", Int64 [(-9223372036854775808)%Z]);
     ("Flood_Impact_Score", Int64 [5%Z]);
     ("Drought_Severity", Int64 [2%Z]);
     ("Cyclone_Count", Int64 [1%Z]);
     ("Forest_Cover_Percent", Int64 [20%Z]);
     ("AQI", Int64 [150%Z]);
     ("Renewable_Energy_Usage_Percent", Int64 [10%Z])].

Definition sample_wrap_out : DataFrame :=
  Eval vm_compute in
    match feature_engineering sample_wrap with
    | Ok out => out
    | Raise _ => sample_wrap
    end.

(** Rows with float64 columns, as [clean_data] leaves them. *)
Definition sample_floats : DataFrame :=
  mkDataFrame [0; 1; 2]%Z
    [("Year", Float64 [1995.5; 2003; infinity]%float);
     ("Flood_Impact_Score", Float64 [0.9; 5; 1]%float);
     ("Drought_Severity", Float64 [0.9; 2; 1]%float);
     ("Cyclone_Count", Float64 [0.9; 1; 1]%float);
     ("Forest_Cover_Percent", Float64 [20.5; 20; nan]%float);
     ("AQI", Float64 [150; 150; 90]%float);
     ("Renewable_Energy_Usage_Percent", Int64 [10; 10; 12]%Z)].

Definition sample_floats_out : DataFrame :=
  Eval vm_compute in
    match feature_engineering sample_floats with
    | Ok out => out
    | Raise _ => sample_floats
    end.

(** The scenario of the outlier, as [pd.read_csv] types it (int64). *)
Definition sample_outlier : DataFrame :=
  mkDataFrame [0; 1; 2; 3; 4]%Z
    [("x", Int64 [1; 2; 3; 4; 100]%Z)].

Definition sample_outlier_out : DataFrame :=
  Eval vm_compute in
    match clean_data sample_outlier with
    | Ok out => out
    | Raise _ => sample_outlier
    end.

(** Columns whose quartiles fall between two values, one with a missing
    cell. *)
Definition sample_quartiles : DataFrame :=
  mkDataFrame [0; 1; 2; 3; 4; 5]%Z
    [("count", Int64 [1; 2; 3; 4; 5; 100]%Z);
     ("level", Float64 [1; 2; 3; 4; nan; 100]%float)].

Definition sample_quartiles_out : DataFrame :=
  Eval vm_compute in
    match clean_data sample_quartiles with
    | Ok out => out
    | Raise _ => sample_quartiles
    end.



End Machine.

(** * Properties *)

(** ** Columns: lookup and assignment *)

Ltac inv_bind H :=
  match type of H with
  | bind ?m _ = Ok _ =>
      let E := fresh "E" in
      destruct m eqn:E; simpl in H; [ | discriminate H ]
  end.

Lemma lookup_assign_same col s cols :
  lookup_col col (assign_col col s cols) = Some s.
Proof.
  induction cols as [ | [name s0] rest IH ]; simpl.
  - now rewrite String.eqb_refl.
  - destruct (String.eqb name col) eqn:E; simpl; rewrite E; auto.
Qed.

Lemma lookup_assign_other col col' s cols :
  col <> col' ->
  lookup_col col' (assign_col col s cols) = lookup_col col' cols.
Proof.
  intros Hne.
  induction cols as [ | [name s0] rest IH ]; simpl.
  - destruct (String.eqb col col') eqn:E; auto.
    apply String.eqb_eq in E. contradiction.
  - destruct (String.eqb name col) eqn:E; simpl.
    + apply String.eqb_eq in E. subst name.
      destruct (String.eqb col col') eqn:E'; auto.
      apply String.eqb_eq in E'. contradiction.
    + now rewrite IH.
Qed.

Lemma getitem_setitem_same df col s : getitem (setitem df col s) col = Ok s.
Proof. unfold getitem, setitem; simpl. now rewrite lookup_assign_same. Qed.

Lemma getitem_setitem_other df col col' s :
  col <> col' -> getitem (setitem df col s) col' = getitem df col'.
Proof.
  intros Hne. unfold getitem, setitem; simpl.
  now rewrite lookup_assign_other.
Qed.

Lemma has_column_lookup col cols :
  existsb (String.eqb col) (map fst cols) = true <-> lookup_col col cols <> None.
Proof.
  induction cols as [ | [name s0] rest IH ]; simpl.
  - split; [ discriminate | congruence ].
  - rewrite String.eqb_sym.
    destruct (String.eqb name col); simpl; [ split; [ discriminate | auto ] | exact IH ].
Qed.

Lemma has_column_assign_other col col' s cols :
  col <> col' ->
  existsb (String.eqb col') (map fst (assign_col col s cols))
  = existsb (String.eqb col') (map fst cols).
Proof.
  intros Hne.
  induction cols as [ | [name s0] rest IH ]; simpl.
  - destruct (String.eqb col' col) eqn:E; auto.
    apply String.eqb_eq in E. congruence.
  - destruct (String.eqb name col) eqn:E; simpl; [ reflexivity | now rewrite IH ].
Qed.

Lemma has_column_setitem_other df col col' s :
  col <> col' -> has_column col' (setitem df col s) = has_column col' df.
Proof. intros Hne. unfold has_column, columns, setitem; simpl. now apply has_column_assign_other. Qed.

Lemma assign_col_Forall (P : string * Series -> Prop) col s cols :
  Forall P cols -> P (col, s) ->
  (forall name s0, P (name, s0) -> P (name, s)) ->
  Forall P (assign_col col s cols).
Proof.
  intros Hall Hnew Hrep.
  induction Hall as [ | [name s0] rest Hx Hrest IH ]; simpl.
  - constructor; auto.
  - destruct (String.eqb name col); constructor; eauto.
Qed.

Lemma setitem_well_formed df col s :
  well_formed df -> series_len s = nrows df -> well_formed (setitem df col s).
Proof.
  intros Hwf Hlen. unfold well_formed, setitem, nrows in *; simpl.
  apply assign_col_Forall; auto.
Qed.

Lemma getitem_well_formed df col s :
  well_formed df -> getitem df col = Ok s -> series_len s = nrows df.
Proof.
  unfold well_formed, getitem. intros Hwf.
  induction Hwf as [ | [name s0] rest Hx Hrest IH ]; simpl.
  - discriminate.
  - destruct (String.eqb name col).
    + intros H; inversion H; subst. exact Hx.
    + exact IH.
Qed.

(** ** Series arithmetic *)

Lemma as_numeric_length s cells :
  as_numeric s = Ok cells -> length cells = series_len s.
Proof.
  destruct s as [c | c]; simpl.
  - intros H; inversion H; reflexivity.
  - destruct (existsb is_present c); [ discriminate | ].
    intros H; inversion H. now rewrite length_map.
Qed.

Lemma map_cells_inv f s r :
  map_cells f s = Ok r ->
  exists cells, as_numeric s = Ok cells /\ r = NumSeries (map (option_map f) cells).
Proof.
  unfold map_cells. intros H. inv_bind H. inversion H. eauto.
Qed.

Lemma add_series_inv s1 s2 r :
  add_series s1 s2 = Ok r ->
  exists c1 c2, as_numeric s1 = Ok c1 /\ as_numeric s2 = Ok c2 /\
    r = NumSeries (map (fun p => add_cell (fst p) (snd p)) (combine c1 c2)).
Proof.
  unfold add_series. intros H. inv_bind H. inv_bind H. inversion H. eauto 6.
Qed.

Lemma nth_option_map (f : Q -> Q) cells i :
  nth i (map (option_map f) cells) None = option_map f (nth i cells None).
Proof. change (@None Q) with (option_map f None) at 1. apply map_nth. Qed.

Lemma nth_add_cells c1 c2 i a b :
  nth i c1 None = Some a -> nth i c2 None = Some b ->
  nth i (map (fun p => add_cell (fst p) (snd p)) (combine c1 c2)) None = Some (a + b)%Q.
Proof.
  revert c2 i. induction c1 as [ | x c1 IH ]; intros c2 i H1 H2.
  - destruct i; discriminate.
  - destruct c2 as [ | y c2 ]; [ destruct i; discriminate | ].
    destruct i; simpl in *.
    + now subst.
    + now apply IH.
Qed.

Lemma num_at_as_numeric df col s cells i v :
  getitem df col = Ok s -> num_at df col i = Some v ->
  as_numeric s = Ok cells -> nth i cells None = Some v.
Proof.
  unfold num_at. intros Hget Hat Hnum. rewrite Hget in Hat.
  destruct s; [ | discriminate ].
  simpl in Hnum. inversion Hnum; subst. exact Hat.
Qed.

(** ** pandas.cut with the season labels *)

Lemma cut_season_raises x :
  exists e, cut x season_bins season_labels true = Raise e.
Proof.
  unfold cut. destruct (as_numeric x); simpl; eauto.
Qed.

(** What the bins and labels would give, value by value, were the labels
    accepted: months 1-2 Winter, 3-5 Spring, 6-8 Summer, 9-11 Autumn,
    12 Winter. *)
Lemma season_bin_labels :
  map (fun m => bin_label season_bins season_labels true (Some (inject_Z m)))
      [1; 2; 3; 4; 5; 6; 7; 8; 9; 10; 11; 12]%Z
  = [Some "Winter"; Some "Winter"; Some "Spring"; Some "Spring"; Some "Spring";
     Some "Summer"; Some "Summer"; Some "Summer"; Some "Autumn"; Some "Autumn";
     Some "Autumn"; Some "Winter"].
Proof. reflexivity. Qed.

(** ** feature_engineering *)

Ltac fe_inv H :=
  unfold feature_engineering, copy in H;
  repeat inv_bind H.

Lemma neq_by_eqb (a b : string) : String.eqb a b = false -> a <> b.
Proof. intros E. now apply String.eqb_neq. Qed.

Ltac names_differ := apply neq_by_eqb; reflexivity.

Ltac simpl_frame :=
  repeat first
    [ rewrite getitem_setitem_same
    | rewrite getitem_setitem_other by names_differ
    | rewrite has_column_setitem_other by names_differ ].

(** The shape of every successful run of [feature_engineering]: the seven
    input columns are there and numeric, there is no [Month] column, and the
    result is the input with the three derived columns assigned. *)
Lemma feature_engineering_inv df out :
  feature_engineering df = Ok out ->
  exists sy ys sf fs sd ds sc cs so fo sa aq sr rn,
    (getitem df "Year" = Ok sy /\ as_numeric sy = Ok ys) /\
    (getitem df "Flood_Impact_Score" = Ok sf /\ as_numeric sf = Ok fs) /\
    (getitem df "Drought_Severity" = Ok sd /\ as_numeric sd = Ok ds) /\
    (getitem df "Cyclone_Count" = Ok sc /\ as_numeric sc = Ok cs) /\
    (getitem df "Forest_Cover_Percent" = Ok so /\ as_numeric so = Ok fo) /\
    (getitem df "AQI" = Ok sa /\ as_numeric sa = Ok aq) /\
    (getitem df "Renewable_Energy_Usage_Percent" = Ok sr /\ as_numeric sr = Ok rn) /\
    has_column "Month" df = false /\
    out =
      setitem
        (setitem
           (setitem df "Decade"
              (NumSeries (map (option_map (fun v => v * 10)%Q)
                            (map (option_map floor_tens) ys))))
           "Climate_Risk_Score"
           (NumSeries
              (map (fun p => add_cell (fst p) (snd p))
                 (combine
                    (map (fun p => add_cell (fst p) (snd p))
                       (combine (map (option_map (fun v => v * 0.3)%Q) fs)
                                (map (option_map (fun v => v * 0.3)%Q) ds)))
                    (map (option_map (fun v => v * 0.4)%Q) cs)))))
        "Environmental_Health_Index"
        (NumSeries
           (map (option_map (fun v => v / 100)%Q)
              (map (fun p => add_cell (fst p) (snd p))
                 (combine
                    (map (fun p => add_cell (fst p) (snd p))
                       (combine (map (option_map (fun v => v * 0.4)%Q) fo)
                                (map (option_map (fun v => v * 0.3)%Q)
                                   (map (option_map (fun v => 100 - v)%Q) aq))))
                    (map (option_map (fun v => v * 0.3)%Q) rn))))).
Proof.
  intros H. fe_inv H.
  repeat match goal with
  | E : floordiv_scalar _ _ = Ok _ |- _ =>
      apply map_cells_inv in E; destruct E as (? & ? & ->)
  | E : mul_scalar _ _ = Ok _ |- _ =>
      apply map_cells_inv in E; destruct E as (? & ? & ->)
  | E : rsub_scalar _ _ = Ok _ |- _ =>
      apply map_cells_inv in E; destruct E as (? & ? & ->)
  | E : div_scalar _ _ = Ok _ |- _ =>
      apply map_cells_inv in E; destruct E as (? & ? & ->)
  | E : add_series _ _ = Ok _ |- _ =>
      apply add_series_inv in E; destruct E as (? & ? & ? & ? & ->)
  | E : as_numeric (NumSeries _) = Ok _ |- _ =>
      simpl in E; inversion E; subst; clear E
  | E : getitem (setitem _ _ _) _ = Ok _ |- _ =>
      rewrite getitem_setitem_other in E by names_differ
  end.
  rewrite !has_column_setitem_other in H by names_differ.
  destruct (has_column "Month" df) eqn:HM.
  - exfalso.
    destruct (getitem _ "Month") as [month | ]; cbn [bind] in H; [ | discriminate ].
    destruct (cut_season_raises month) as [e He]. rewrite He in H. discriminate.
  - inversion H; subst out.
    do 14 eexists.
    repeat split; eauto.
Qed.

(** A successful run of [feature_engineering] never met a [Month] column,
    and leaves the presence of a [Season] column as it was. *)
Lemma feature_engineering_no_season df out :
  feature_engineering df = Ok out ->
  has_column "Month" df = false /\ has_column "Season" out = has_column "Season" df.
Proof.
  intros H.
  destruct (feature_engineering_inv df out H)
    as (sy & ys & sf & fs & sd & ds & sc & cs & so & fo & sa & aq & sr & rn
        & _ & _ & _ & _ & _ & _ & _ & HM & ->).
  split; [ exact HM | ].
  now rewrite !has_column_setitem_other by names_differ.
Qed.

(** C1: on a table that has a [Month] column, [feature_engineering] does
    not return: [pd.cut] rejects the season labels, in which Winter occurs
    twice.  No Season column is ever assigned. *)
Theorem feature_engineering_month_raises df :
  has_column "Month" df = true ->
  exists e, feature_engineering df = Raise e.
Proof.
  intros HM.
  destruct (feature_engineering df) as [out | e] eqn:H; [ | eauto ].
  apply feature_engineering_no_season in H. destruct H as [H _]. congruence.
Qed.

Lemma feature_engineering_month_raises_witness :
  has_column "Month" sample_row_month = true /\
  exists e, feature_engineering sample_row_month = Raise e.
Proof.
  split; [ reflexivity | ].
  apply (feature_engineering_month_raises sample_row_month). reflexivity.
Defined.

Example feature_engineering_month_sample :
  feature_engineering sample_row_month
  = Raise (ValueError
      "labels must be unique if ordered=True; pass ordered=False for duplicate labels").
Proof. vm_compute. reflexivity. Qed.

(** ** Row counts *)

Lemma assign_col_lengths col s s' cols :
  lookup_col col cols = Some s -> series_len s' = series_len s ->
  map (fun c => (fst c, series_len (snd c))) (assign_col col s' cols)
  = map (fun c => (fst c, series_len (snd c))) cols.
Proof.
  intros Hl Hlen.
  induction cols as [ | [name s0] rest IH ]; simpl in *; [ discriminate | ].
  destruct (String.eqb name col); simpl.
  - inversion Hl; subst. now rewrite Hlen.
  - now rewrite IH.
Qed.

Lemma getitem_lookup df col s : getitem df col = Ok s <-> lookup_col col (frame_cols df) = Some s.
Proof.
  unfold getitem. destruct (lookup_col col (frame_cols df)); split; congruence.
Qed.

Lemma for_each_column_lengths body cols :
  (forall s s', body s = Ok s' -> series_len s' = series_len s) ->
  forall df out,
    for_each_column cols body df = Ok out ->
    frame_index out = frame_index df /\ column_lengths out = column_lengths df.
Proof.
  intros Hbody.
  induction cols as [ | col rest IH ]; intros df out H; simpl in H.
  - inversion H; auto.
  - inv_bind H. inv_bind H.
    apply IH in H. destruct H as [Hi Hc].
    split; [ exact Hi | ].
    rewrite Hc. unfold column_lengths, setitem; simpl.
    eapply assign_col_lengths; [ apply getitem_lookup; eassumption | eauto ].
Qed.

Lemma fillna_length {A : Type} (cells : list (option A)) v :
  length (fillna cells v) = length cells.
Proof. unfold fillna. apply length_map. Qed.

Lemma fill_missing_length s s' : fill_missing s = Ok s' -> series_len s' = series_len s.
Proof.
  unfold fill_missing.
  destruct (0 <? isnull_sum s)%nat; [ | intros H; inversion H; reflexivity ].
  destruct s as [cells | cells].
  - intros H; inversion H; simpl. apply fillna_length.
  - destruct (mode cells); [ discriminate | ].
    intros H; inversion H; simpl. apply fillna_length.
Qed.

Lemma clip_outliers_length s s' : clip_outliers s = Ok s' -> series_len s' = series_len s.
Proof.
  destruct s as [cells | cells]; simpl; [ | discriminate ].
  intros H; inversion H; simpl. unfold loc_assign. now rewrite !length_map.
Qed.

Lemma clean_data_lengths df out :
  clean_data df = Ok out ->
  frame_index out = frame_index df /\ column_lengths out = column_lengths df.
Proof.
  unfold clean_data, fill_stage, copy. intros H. inv_bind H.
  apply for_each_column_lengths in E; [ | exact fill_missing_length ].
  apply for_each_column_lengths in H; [ | exact clip_outliers_length ].
  destruct E as [E1 E2], H as [H1 H2]. split; congruence.
Qed.

Lemma column_lengths_columns df df' :
  column_lengths df' = column_lengths df -> columns df' = columns df.
Proof.
  unfold column_lengths, columns. intros H.
  apply (f_equal (map fst)) in H. rewrite !map_map in H. exact H.
Qed.

Lemma column_lengths_well_formed df df' :
  frame_index df' = frame_index df ->
  column_lengths df' = column_lengths df ->
  well_formed df -> well_formed df'.
Proof.
  unfold well_formed, nrows, column_lengths. intros Hi Hc Hwf. rewrite Hi.
  apply Forall_forall. intros c Hin.
  apply (in_map (fun c => (fst c, series_len (snd c)))) in Hin.
  rewrite Hc in Hin. apply in_map_iff in Hin. destruct Hin as (c0 & Heq & Hin0).
  rewrite Forall_forall in Hwf. specialize (Hwf c0 Hin0).
  simpl in Heq. inversion Heq. congruence.
Qed.

Lemma add_cells_length c1 c2 :
  length (map (fun p => add_cell (fst p) (snd p)) (combine c1 c2))
  = Nat.min (length c1) (length c2).
Proof. now rewrite length_map, length_combine. Qed.

(** C7: [clean_data] and [feature_engineering] keep the rows of their input:
    same row index, hence same row count; [clean_data] keeps every column
    with its length, and [feature_engineering] returns a table whose
    columns, old and new, all have one cell per row. *)
Theorem row_count_invariant :
  (forall df out, clean_data df = Ok out ->
     nrows out = nrows df /\ frame_index out = frame_index df /\
     column_lengths out = column_lengths df) /\
  (forall df out, feature_engineering df = Ok out ->
     nrows out = nrows df /\ frame_index out = frame_index df /\
     (well_formed df -> well_formed out)).
Proof.
  split.
  - intros df out H. apply clean_data_lengths in H. destruct H as [Hi Hc].
    unfold nrows. rewrite Hi. auto.
  - intros df out H.
    destruct (feature_engineering_inv df out H)
      as (sy & ys & sf & fs & sd & ds & sc & cs & so & fo & sa & aq & sr & rn
          & [Gy Ny] & [Gf Nf] & [Gd Nd] & [Gc Nc] & [Go No] & [Ga Na] & [Gr Nr]
          & _ & ->).
    split; [ reflexivity | split; [ reflexivity | ] ].
    intros Hwf.
    assert (L : forall col s cells, getitem df col = Ok s -> as_numeric s = Ok cells ->
                length cells = nrows df).
    { intros col s cells Hg Hn. apply as_numeric_length in Hn. rewrite Hn.
      eapply getitem_well_formed; eauto. }
    repeat apply setitem_well_formed; auto; simpl;
      repeat (rewrite length_map || rewrite length_combine);
      rewrite ?(L _ _ _ Gy Ny), ?(L _ _ _ Gf Nf), ?(L _ _ _ Gd Nd), ?(L _ _ _ Gc Nc),
        ?(L _ _ _ Go No), ?(L _ _ _ Ga Na), ?(L _ _ _ Gr Nr);
      unfold nrows; simpl; lia.
Qed.

(** ** The column loops of clean_data *)

Lemma getitem_in_columns df col s : getitem df col = Ok s -> In col (columns df).
Proof.
  unfold getitem, columns.
  induction (frame_cols df) as [ | [name s0] rest IH ]; simpl; [ discriminate | ].
  destruct (String.eqb name col) eqn:E.
  - apply String.eqb_eq in E. auto.
  - auto.
Qed.

(** Over distinct column names, the loop rewrites each named column with
    [body] and leaves the others alone. *)
Lemma for_each_column_getitem body cols :
  NoDup cols ->
  forall df out,
    for_each_column cols body df = Ok out ->
    forall col s, getitem df col = Ok s ->
      (In col cols -> exists s', body s = Ok s' /\ getitem out col = Ok s') /\
      (~ In col cols -> getitem out col = Ok s).
Proof.
  induction 1 as [ | c rest Hnotin Hnd IH ]; intros df out H col s Hget; simpl in H.
  - inversion H; subst. split; [ intros [] | auto ].
  - inv_bind H. inv_bind H.
    destruct (string_dec c col) as [-> | Hne].
    + rewrite Hget in E. inversion E; subst a.
      destruct (IH _ _ H col a0 (getitem_setitem_same _ _ _)) as [_ Hout].
      split; [ intros _; eauto | intros Hn; exfalso; apply Hn; left; reflexivity ].
    + assert (Hget' : getitem (setitem df c a0) col = Ok s)
        by (rewrite getitem_setitem_other; auto).
      destruct (IH _ _ H col s Hget') as [Hin Hout].
      split.
      * intros [Heq | Hin']; [ contradiction | auto ].
      * intros Hn. apply Hout. intros Hin'. apply Hn. right. exact Hin'.
Qed.

Lemma NoDup_filter_names (p : string * Series -> bool) cols :
  NoDup (map fst cols) -> NoDup (map fst (filter p cols)).
Proof.
  induction cols as [ | c rest IH ]; simpl; intros Hnd; [ constructor | ].
  inversion Hnd as [ | x l Hnotin Hrest ]; subst.
  destruct (p c); simpl; auto.
  constructor; auto.
  intros Hin. apply Hnotin.
  apply in_map_iff in Hin. destruct Hin as (c' & Hc & Hin).
  apply filter_In in Hin. destruct Hin as [Hin _].
  apply in_map_iff. eauto.
Qed.

Lemma in_filter_names (p : string * Series -> bool) cols col s :
  NoDup (map fst cols) ->
  lookup_col col cols = Some s ->
  (In col (map fst (filter p cols)) <-> p (col, s) = true).
Proof.
  induction cols as [ | [name s0] rest IH ]; simpl; intros Hnd Hl; [ discriminate | ].
  inversion Hnd as [ | x l Hnotin Hrest ]; subst.
  destruct (String.eqb name col) eqn:E.
  - apply String.eqb_eq in E. subst name. inversion Hl; subst s0.
    destruct (p (col, s)) eqn:Hp; simpl.
    + split; auto.
    + split; [ | discriminate ].
      intros Hin. exfalso. apply Hnotin.
      apply in_map_iff in Hin. destruct Hin as (c' & Hc & Hin).
      apply filter_In in Hin. destruct Hin as [Hin _].
      apply in_map_iff. eauto.
  - apply String.eqb_neq in E.
    destruct (p (name, s0)); simpl; rewrite <- (IH Hrest Hl).
    + split; [ intros [Heq | Hin]; [ contradiction | auto ] | auto ].
    + reflexivity.
Qed.

Lemma clip_outliers_numeric cells :
  exists cells', clip_outliers (NumSeries cells) = Ok (NumSeries cells').
Proof. simpl. eauto. Qed.

(** Column by column, [clean_data] is [fill_missing] followed, on a numeric
    column, by [clip_outliers]. *)
Lemma clean_data_column df out col s :
  NoDup (columns df) ->
  clean_data df = Ok out ->
  getitem df col = Ok s ->
  exists filled s1,
    fill_stage df = Ok filled /\
    fill_missing s = Ok s1 /\ getitem filled col = Ok s1 /\
    getitem out col = (if dtype_is_numeric s1 then clip_outliers s1 else Ok s1).
Proof.
  intros Hnd H Hget. unfold clean_data, copy in H. inv_bind H.
  rename a into filled. exists filled.
  pose proof E as Efill. unfold fill_stage in E.
  destruct (for_each_column_getitem _ _ Hnd _ _ E col s Hget) as [Hin _].
  destruct (Hin (getitem_in_columns _ _ _ Hget)) as (s1 & Hs1 & Hg1).
  exists s1. repeat split; auto.
  assert (Hnd' : NoDup (columns filled)).
  { apply for_each_column_lengths in E; [ | exact fill_missing_length ].
    destruct E as [_ E]. now rewrite (column_lengths_columns _ _ E). }
  assert (Hndn : NoDup (numeric_columns filled))
    by (apply NoDup_filter_names; exact Hnd').
  destruct (for_each_column_getitem _ _ Hndn _ _ H col s1 Hg1) as [Hyes Hno].
  pose proof (in_filter_names (fun c => dtype_is_numeric (snd c)) _ col s1 Hnd'
                (proj1 (getitem_lookup _ _ _) Hg1)) as Hiff.
  simpl in Hiff.
  destruct (dtype_is_numeric s1) eqn:Hd.
  - destruct (Hyes (proj2 Hiff eq_refl)) as (s2 & Hs2 & Hg2). congruence.
  - apply Hno. intros Hin'. apply Hiff in Hin'. discriminate.
Qed.

(** ** Sorted values *)



Lemma insert_value_count (p : Q -> bool) x l :
  length (filter p (insert_value x l)) = length (filter p (x :: l)).
Proof.
  induction l as [ | y rest IH ]; simpl; auto.
  destruct (Qle_bool x y); simpl; auto.
  simpl in IH. destruct (p y), (p x); simpl in *; lia.
Qed.

Lemma sort_values_count (p : Q -> bool) l :
  length (filter p (sort_values l)) = length (filter p l).
Proof.
  induction l as [ | x rest IH ]; simpl; auto.
  rewrite insert_value_count. simpl. destruct (p x); simpl; lia.
Qed.

Lemma filter_all {A : Type} (l : list A) : filter (fun _ => true) l = l.
Proof. induction l; simpl; congruence. Qed.

Lemma sort_values_length l : length (sort_values l) = length l.
Proof.
  pose proof (sort_values_count (fun _ => true) l) as H.
  now rewrite !filter_all in H.
Qed.






Lemma count_above_le m l : (count_above m l <= length l)%nat.
Proof. apply filter_length_le. Qed.





(** ** The median splits the values *)



(** ** Quantiles by linear interpolation *)










(** ** Filling a numeric column *)

Lemma dropna_length {A : Type} (cells : list (option A)) :
  (length (dropna cells) + length (filter is_missing cells) = length cells)%nat.
Proof.
  induction cells as [ | [v | ] rest IH ]; simpl; lia.
Qed.





(** ** Clipping a numeric column *)


Lemma clip_outliers_cells cells :
  clip_outliers (NumSeries cells)
  = Ok (NumSeries
          (loc_assign (fun c => cell_gt c (upper_bound_of cells)) (upper_bound_of cells)
             (loc_assign (fun c => cell_lt c (lower_bound_of cells)) (lower_bound_of cells)
                cells))).
Proof. reflexivity. Qed.




Lemma in_columns_getitem df col : In col (columns df) -> exists s, getitem df col = Ok s.
Proof.
  unfold columns, getitem.
  induction (frame_cols df) as [ | [name s0] rest IH ]; simpl; [ intros [] | ].
  destruct (String.eqb name col) eqn:E; [ eauto | ].
  intros [Heq | Hin]; [ | auto ].
  subst. rewrite String.eqb_refl in E. discriminate.
Qed.

Lemma fill_stage_columns df filled : fill_stage df = Ok filled -> columns filled = columns df.
Proof.
  unfold fill_stage. intros H.
  apply for_each_column_lengths in H; [ | exact fill_missing_length ].
  apply column_lengths_columns. tauto.
Qed.

(** ** The order on text *)

Lemma ascii_compare_lt_trans a b c :
  Ascii.compare a b = Lt -> Ascii.compare b c = Lt -> Ascii.compare a c = Lt.
Proof.
  unfold Ascii.compare. rewrite !N.compare_lt_iff. apply N.lt_trans.
Qed.

Lemma string_compare_lt_trans s1 :
  forall s2 s3,
    String.compare s1 s2 = Lt -> String.compare s2 s3 = Lt -> String.compare s1 s3 = Lt.
Proof.
  induction s1 as [ | a s1 IH ]; intros [ | b s2 ] [ | c s3 ]; simpl; try congruence.
  destruct (Ascii.compare a b) eqn:Eab; try discriminate;
    destruct (Ascii.compare b c) eqn:Ebc; try discriminate; intros H12 H23.
  - apply Ascii.compare_eq_iff in Eab, Ebc. subst b c.
    assert (E : Ascii.compare a a = Eq) by (unfold Ascii.compare; apply N.compare_refl).
    rewrite E. eauto.
  - apply Ascii.compare_eq_iff in Eab. subst b. now rewrite Ebc.
  - apply Ascii.compare_eq_iff in Ebc. subst c. now rewrite Eab.
  - now rewrite (ascii_compare_lt_trans _ _ _ Eab Ebc).
Qed.

Lemma string_compare_refl s : String.compare s s = Eq.
Proof.
  induction s as [ | a s IH ]; simpl; auto.
  assert (E : Ascii.compare a a = Eq) by (unfold Ascii.compare; apply N.compare_refl).
  now rewrite E.
Qed.

Lemma string_leb_refl s : String.leb s s = true.
Proof. unfold String.leb. now rewrite string_compare_refl. Qed.

Lemma string_leb_trans s1 s2 s3 :
  String.leb s1 s2 = true -> String.leb s2 s3 = true -> String.leb s1 s3 = true.
Proof.
  unfold String.leb.
  destruct (String.compare s1 s2) eqn:E12; try discriminate;
    destruct (String.compare s2 s3) eqn:E23; try discriminate; intros _ _.
  - apply String.compare_eq_iff in E12, E23. subst. now rewrite string_compare_refl.
  - apply String.compare_eq_iff in E12. subst. now rewrite E23.
  - apply String.compare_eq_iff in E23. subst. now rewrite E12.
  - now rewrite (string_compare_lt_trans _ _ _ E12 E23).
Qed.

Lemma insert_text_In x l y : In y (insert_text x l) <-> y = x \/ In y l.
Proof.
  induction l as [ | z rest IH ]; simpl.
  - intuition.
  - destruct (String.leb x z); simpl; rewrite ?IH; intuition.
Qed.

Lemma sort_text_In l y : In y (sort_text l) <-> In y l.
Proof.
  induction l as [ | x rest IH ]; simpl; [ tauto | ].
  rewrite insert_text_In, IH. intuition.
Qed.

Lemma insert_text_sorted x l :
  StronglySorted text_le l -> StronglySorted text_le (insert_text x l).
Proof.
  induction 1 as [ | y rest Hs IH Hall ]; simpl.
  - repeat constructor.
  - destruct (String.leb x y) eqn:E.
    + constructor; [ constructor; auto | ].
      constructor; auto.
      eapply Forall_impl; [ | exact Hall ].
      intros z Hz. eapply string_leb_trans; eauto.
    + assert (Hyx : text_le y x).
      { destruct (String.leb_total x y) as [H | H]; [ congruence | exact H ]. }
      constructor; auto.
      apply Forall_forall. intros z Hz.
      apply insert_text_In in Hz. destruct Hz as [-> | Hz]; auto.
      rewrite Forall_forall in Hall. auto.
Qed.

Lemma sort_text_sorted l : StronglySorted text_le (sort_text l).
Proof.
  induction l; simpl; [ constructor | now apply insert_text_sorted ].
Qed.

(** The first element of the sorted texts is the smallest of them. *)
Lemma sort_text_head l v rest :
  sort_text l = v :: rest -> In v l /\ forall w, In w l -> String.leb v w = true.
Proof.
  intros E.
  pose proof (sort_text_sorted l) as Hs. rewrite E in Hs.
  inversion Hs as [ | x r Hr Hall ]; subst.
  split.
  - apply sort_text_In. rewrite E. left. reflexivity.
  - intros w Hw. apply sort_text_In in Hw. rewrite E in Hw.
    destruct Hw as [<- | Hw]; [ apply string_leb_refl | ].
    rewrite Forall_forall in Hall. now apply Hall.
Qed.

(** ** The mode of a text column *)

Lemma fold_max_ge (f : string -> nat) l w :
  In w l -> (f w <= fold_right Nat.max 0%nat (map f l))%nat.
Proof.
  induction l as [ | x rest IH ]; simpl; [ intros [] | ].
  intros [-> | Hin]; [ lia | ].
  specialize (IH Hin). lia.
Qed.

Lemma fold_max_attained (f : string -> nat) l :
  l <> [] -> exists v, In v l /\ f v = fold_right Nat.max 0%nat (map f l).
Proof.
  induction l as [ | x rest IH ]; [ congruence | intros _ ].
  destruct rest as [ | y rest' ].
  - exists x. simpl. split; [ auto | lia ].
  - destruct IH as (v & Hin & Hv); [ discriminate | ].
    change (fold_right Nat.max 0%nat (map f (x :: y :: rest')))
      with (Nat.max (f x) (fold_right Nat.max 0%nat (map f (y :: rest')))).
    destruct (Nat.le_gt_cases (fold_right Nat.max 0%nat (map f (y :: rest'))) (f x)).
    + exists x. split; [ left; reflexivity | lia ].
    + exists v. split; [ right; exact Hin | lia ].
Qed.

Lemma count_value_absent w l : ~ In w l -> count_value w l = 0%nat.
Proof.
  unfold count_value. intros Hnot.
  induction l as [ | x rest IH ]; simpl; auto.
  destruct (String.eqb w x) eqn:Ex.
  - apply String.eqb_eq in Ex. subst. exfalso. apply Hnot. left. reflexivity.
  - apply IH. intros Hin. apply Hnot. right. exact Hin.
Qed.

Lemma count_value_le_max w l : (count_value w l <= max_count l)%nat.
Proof.
  unfold max_count.
  destruct (in_dec string_dec w l) as [Hin | Hnot].
  - apply (fold_max_ge (fun v => count_value v l) l w Hin).
  - rewrite (count_value_absent _ _ Hnot). lia.
Qed.

Lemma max_count_attained l :
  l <> [] -> exists v, In v l /\ count_value v l = max_count l.
Proof. apply (fold_max_attained (fun v => count_value v l)). Qed.

Lemma mode_In cells v :
  In v (mode cells) <->
  In v (dropna cells) /\ count_value v (dropna cells) = max_count (dropna cells).
Proof.
  unfold mode. rewrite sort_text_In, nodup_In, filter_In, Nat.eqb_eq. tauto.
Qed.

Lemma mode_nonempty cells : dropna cells <> [] -> mode cells <> [].
Proof.
  intros Hne E.
  destruct (max_count_attained _ Hne) as (v & Hin & Hv).
  assert (Hm : In v (mode cells)) by (apply mode_In; auto).
  rewrite E in Hm. destruct Hm.
Qed.

(** The value that [s.mode()[0]] picks: a most frequent one, and the smallest
    of the most frequent ones. *)
Lemma mode_head cells v rest :
  mode cells = v :: rest ->
  In v (dropna cells) /\
  (forall w, (count_value w (dropna cells) <= count_value v (dropna cells))%nat) /\
  (forall w, In w (dropna cells) ->
             count_value w (dropna cells) = count_value v (dropna cells) ->
             String.leb v w = true).
Proof.
  intros E.
  assert (Hv : In v (mode cells)) by (rewrite E; left; reflexivity).
  apply mode_In in Hv. destruct Hv as [Hin Hmax].
  split; [ exact Hin | split ].
  - intros w. rewrite Hmax. apply count_value_le_max.
  - intros w Hw Hc.
    unfold mode in E. apply sort_text_head in E. destruct E as [_ Hmin].
    apply Hmin. rewrite nodup_In, filter_In, Nat.eqb_eq. split; congruence.
Qed.

(** ** Missing cells after clean_data *)

Lemma fillna_nth_error {A : Type} (cells : list (option A)) v i :
  nth_error (fillna cells v) i
  = option_map (fun c => match c with None => v | Some x => Some x end) (nth_error cells i).
Proof. unfold fillna. apply nth_error_map. Qed.

Lemma no_missing_iff {A : Type} (cells : list (option A)) :
  length (filter is_missing cells) = 0%nat <-> Forall (fun c => c <> None) cells.
Proof.
  induction cells as [ | [x | ] rest IH ]; simpl.
  - split; auto.
  - rewrite IH. split; [ constructor; [ discriminate | auto ] | ].
    intros H. now inversion H.
  - split; [ discriminate | ].
    intros H. inversion H. congruence.
Qed.

Lemma fillna_no_missing {A : Type} (cells : list (option A)) v :
  Forall (fun c => c <> None) (fillna cells (Some v)).
Proof.
  unfold fillna. apply Forall_forall. intros c Hc.
  apply in_map_iff in Hc. destruct Hc as ([x | ] & <- & _); discriminate.
Qed.

Lemma loc_assign_lt_no_missing bound cells :
  Forall (fun c => c <> None) cells ->
  Forall (fun c => c <> None) (loc_assign (fun c => cell_lt c bound) bound cells).
Proof.
  unfold loc_assign. intros H. apply Forall_forall. intros c Hc.
  apply in_map_iff in Hc. destruct Hc as (c0 & <- & Hin).
  rewrite Forall_forall in H. specialize (H c0 Hin).
  destruct c0 as [x | ]; [ | congruence ].
  destruct bound as [b | ]; simpl; [ destruct (Qltb x b) | ]; discriminate.
Qed.

Lemma loc_assign_gt_no_missing bound cells :
  Forall (fun c => c <> None) cells ->
  Forall (fun c => c <> None) (loc_assign (fun c => cell_gt c bound) bound cells).
Proof.
  unfold loc_assign. intros H. apply Forall_forall. intros c Hc.
  apply in_map_iff in Hc. destruct Hc as (c0 & <- & Hin).
  rewrite Forall_forall in H. specialize (H c0 Hin).
  destruct c0 as [x | ]; [ | congruence ].
  destruct bound as [b | ]; simpl; [ destruct (Qltb b x) | ]; discriminate.
Qed.

Lemma dropna_nonempty {A : Type} (cells : list (option A)) v :
  In (Some v) cells -> dropna cells <> [].
Proof.
  induction cells as [ | [x | ] rest IH ]; simpl; [ intros [] | discriminate | ].
  intros [H | H]; [ discriminate | auto ].
Qed.

Lemma median_is_some cells : dropna cells <> [] -> exists m, median cells = Some m.
Proof.
  intros Hne. unfold median. rewrite sort_values_length.
  destruct (dropna cells) as [ | x rest ] eqn:E; [ congruence | ].
  simpl length. cbv iota beta.
  destruct (S (length rest) =? 0)%nat eqn:E0; [ discriminate | ].
  destruct (Nat.even (S (length rest))); eauto.
Qed.



(** ** split_by_region *)

Lemma existsb_literal v l :
  existsb (String.eqb v) l = true -> In v l.
Proof.
  intros H. apply existsb_exists in H. destruct H as (x & Hin & Heq).
  apply String.eqb_eq in Heq. now subst.
Qed.

Lemma region_flags_exactly_one c : count_true (region_flags c) = 1%nat.
Proof.
  destruct c as [v | ]; [ | reflexivity ].
  unfold region_flags, all_districts, text_in.
  rewrite !existsb_app.
  destruct (existsb (String.eqb v) coastal_districts) eqn:Ec.
  - apply existsb_literal in Ec. simpl in Ec.
    repeat (destruct Ec as [<- | Ec]; [ reflexivity | ]). destruct Ec.
  - destruct (existsb (String.eqb v) northern_districts) eqn:En.
    + apply existsb_literal in En. simpl in En.
      repeat (destruct En as [<- | En]; [ reflexivity | ]). destruct En.
    + destruct (existsb (String.eqb v) central_districts); reflexivity.
Qed.

Section Partition.

Variables (A C : Type) (f1 f2 f3 f4 : C -> bool).
Hypothesis one : forall c, count_true [f1 c; f2 c; f3 c; f4 c] = 1%nat.

Lemma select_partition_length (cs : list C) (l : list A) :
  length l = length cs ->
  (length (select (map f1 cs) l) + length (select (map f2 cs) l)
   + length (select (map f3 cs) l) + length (select (map f4 cs) l) = length l)%nat.
Proof.
  revert l. induction cs as [ | c cs IH ]; intros [ | x l ] Hlen; simpl in *;
    try discriminate; auto.
  specialize (IH l ltac:(lia)). specialize (one c). unfold count_true in one.
  simpl in one.
  destruct (f1 c), (f2 c), (f3 c), (f4 c); simpl in *; try discriminate; lia.
Qed.

Lemma select_partition_perm (cs : list C) (l : list A) :
  length l = length cs ->
  Permutation
    (select (map f1 cs) l ++ select (map f2 cs) l
     ++ select (map f3 cs) l ++ select (map f4 cs) l) l.
Proof.
  revert l. induction cs as [ | c cs IH ]; intros [ | x l ] Hlen; simpl in *;
    try discriminate; auto.
  specialize (IH l ltac:(lia)). specialize (one c). unfold count_true in one.
  simpl in one.
  destruct (f1 c), (f2 c), (f3 c), (f4 c); simpl in *; try discriminate.
  - now constructor.
  - etransitivity; [ symmetry; apply Permutation_middle | now constructor ].
  - rewrite app_assoc.
    etransitivity; [ symmetry; apply Permutation_middle | ].
    rewrite <- app_assoc. now constructor.
  - rewrite !app_assoc.
    etransitivity; [ symmetry; apply Permutation_middle | ].
    rewrite <- !app_assoc. now constructor.
Qed.

End Partition.

Lemma split_by_region_inv df regions :
  split_by_region df = Ok regions ->
  exists district,
    getitem df "District" = Ok district /\
    regions =
      [("coastal", boolean_index df (isin district coastal_districts));
       ("northern", boolean_index df (isin district northern_districts));
       ("central", boolean_index df (isin district central_districts));
       ("other", boolean_index df (invert (isin district all_districts)))].
Proof.
  unfold split_by_region. intros H.
  destruct (getitem df "District") as [d | ] eqn:E; simpl in H; [ | discriminate ].
  inversion H. eauto.
Qed.

(** The masks of the four groups, as flags of the District cells. *)
Lemma region_masks district :
  exists (C : Type) (cs : list C) (f1 f2 f3 f4 : C -> bool),
    length cs = series_len district /\
    (forall c, count_true [f1 c; f2 c; f3 c; f4 c] = 1%nat) /\
    isin district coastal_districts = map f1 cs /\
    isin district northern_districts = map f2 cs /\
    isin district central_districts = map f3 cs /\
    invert (isin district all_districts) = map f4 cs.
Proof.
  destruct district as [cells | cells].
  - exists (option Q), cells,
      (fun _ => false), (fun _ => false), (fun _ => false), (fun _ => negb false).
    simpl. unfold invert. rewrite map_map. repeat split; auto.
  - exists (option string), cells,
      (text_in coastal_districts), (text_in northern_districts),
      (text_in central_districts), (fun c => negb (text_in all_districts c)).
    simpl. unfold invert. rewrite map_map. repeat split; auto.
    apply region_flags_exactly_one.
Qed.

Lemma nth_map_flag {C : Type} (f : C -> bool) (cs : list C) i c :
  nth_error cs i = Some c -> nth i (map f cs) false = f c.
Proof.
  revert i. induction cs as [ | x cs IH ]; intros [ | i ]; simpl; try discriminate.
  - intros H; inversion H; reflexivity.
  - apply IH.
Qed.

(** The rows of a group. *)
Lemma select_nil {A : Type} (m : list bool) : select m (@nil A) = [].
Proof. destruct m as [ | [ | ] m ]; reflexivity. Qed.

Lemma select_series_true m s :
  head_cell (select_series (true :: m) s) = head_cell s /\
  tail_series (select_series (true :: m) s) = select_series m (tail_series s).
Proof.
  destruct s as [[ | c cells] | [ | c cells]]; simpl; rewrite ?select_nil; auto.
Qed.

Lemma select_series_false m s :
  select_series (false :: m) s = select_series m (tail_series s).
Proof.
  destruct s as [[ | c cells] | [ | c cells]]; simpl; rewrite ?select_nil; auto.
Qed.

Lemma rows_of_select m :
  forall index cols,
    rows_of (select m index) (map (fun c => (fst c, select_series m (snd c))) cols)
    = select m (rows_of index cols).
Proof.
  induction m as [ | b m IH ]; intros index cols; [ reflexivity | ].
  destruct index as [ | label index ]; [ now destruct b | ].
  destruct b; cbn [select rows_of].
  - apply f_equal2.
    + apply f_equal. rewrite map_map. apply map_ext. intros [name s]. cbn [fst snd].
      now rewrite (proj1 (select_series_true m s)).
    + rewrite <- IH. apply f_equal. rewrite !map_map. apply map_ext.
      intros [name s]. cbn [fst snd].
      now rewrite (proj2 (select_series_true m s)).
  - rewrite <- IH. apply f_equal. rewrite map_map. apply map_ext. intros [name s].
    cbn [fst snd]. now rewrite select_series_false.
Qed.

Lemma rows_boolean_index df m : rows (boolean_index df m) = select m (rows df).
Proof. unfold rows, boolean_index; simpl. apply rows_of_select. Qed.

Lemma select_filter {A : Type} (f : A -> bool) (l : list A) :
  select (map f l) l = filter f l.
Proof.
  induction l as [ | x l IH ]; [ reflexivity | ].
  simpl. destruct (f x); now rewrite IH.
Qed.

Lemma lookup_cell_map (f : Series -> option Cell) col cols :
  lookup_cell col (map (fun c => (fst c, f (snd c))) cols)
  = option_map f (lookup_col col cols).
Proof.
  induction cols as [ | [name s] rest IH ]; simpl; [ reflexivity | ].
  destruct (String.eqb name col); auto.
Qed.

Lemma lookup_col_map (f : Series -> Series) col cols :
  lookup_col col (map (fun c => (fst c, f (snd c))) cols)
  = option_map f (lookup_col col cols).
Proof.
  induction cols as [ | [name s] rest IH ]; simpl; [ reflexivity | ].
  destruct (String.eqb name col); auto.
Qed.

Lemma row_in_text_in names r : row_in names r = text_in names (row_text "District" r).
Proof. unfold row_in, text_in. now destruct (row_text "District" r). Qed.

(** The mask that [isin] computes from the District column is the test of
    the District cell of each row. *)
Lemma isin_rows values index :
  forall cols district,
    lookup_col "District" cols = Some district ->
    series_len district = length index ->
    isin district values = map (row_in values) (rows_of index cols).
Proof.
  induction index as [ | label index IH ]; intros cols district Hd Hlen.
  - destruct district as [[ | c cells] | [ | c cells]]; simpl in *; congruence.
  - assert (Htail : isin (tail_series district) values
                    = map (row_in values)
                        (rows_of index (map (fun c => (fst c, tail_series (snd c))) cols))).
    { apply IH.
      - rewrite lookup_col_map, Hd. reflexivity.
      - destruct district as [[ | c cells] | [ | c cells]]; simpl in *; congruence. }
    cbn [rows_of map]. rewrite <- Htail.
    unfold row_in at 1, row_text. cbn [snd]. rewrite lookup_cell_map, Hd.
    destruct district as [[ | c cells] | [ | c cells]]; simpl in *; try discriminate.
    + reflexivity.
    + destruct c; reflexivity.
Qed.

Lemma row_flags_exactly_one r :
  count_true [row_in coastal_districts r; row_in northern_districts r;
              row_in central_districts r; negb (row_in all_districts r)] = 1%nat.
Proof. rewrite !row_in_text_in. apply region_flags_exactly_one. Qed.

(** C6: on a table with a District column, each of the four groups of
    [split_by_region] holds, in their order, the rows of the table whose
    District cell is one of its names (for other: none of the listed
    names), label and cells as they are in the table; every row passes
    exactly one of the four tests, so the rows of the four groups together
    are the rows of the table, each once, and the groups' row counts add up
    to the row count of the table. *)
Theorem split_by_region_partition df regions :
  well_formed df ->
  split_by_region df = Ok regions ->
  exists district coastal northern central other,
    getitem df "District" = Ok district /\
    regions = [("coastal", coastal); ("northern", northern);
               ("central", central); ("other", other)] /\
    coastal = boolean_index df (isin district coastal_districts) /\
    northern = boolean_index df (isin district northern_districts) /\
    central = boolean_index df (isin district central_districts) /\
    other = boolean_index df (invert (isin district all_districts)) /\
    (forall i, (i < nrows df)%nat ->
       count_true [nth i (isin district coastal_districts) false;
                   nth i (isin district northern_districts) false;
                   nth i (isin district central_districts) false;
                   nth i (invert (isin district all_districts)) false] = 1%nat) /\
    (nrows coastal + nrows northern + nrows central + nrows other = nrows df)%nat /\
    Permutation
      (frame_index coastal ++ frame_index northern
       ++ frame_index central ++ frame_index other)
      (frame_index df) /\
    (forall i, (i < nrows df)%nat ->
       (nth i (invert (isin district all_districts)) false = true <->
        forall name, district_at district i = Some name -> ~ In name all_districts)) /\
    rows coastal = filter (row_in coastal_districts) (rows df) /\
    rows northern = filter (row_in northern_districts) (rows df) /\
    rows central = filter (row_in central_districts) (rows df) /\
    rows other = filter (fun r => negb (row_in all_districts r)) (rows df) /\
    (forall r,
       count_true [row_in coastal_districts r; row_in northern_districts r;
                   row_in central_districts r; negb (row_in all_districts r)] = 1%nat) /\
    Permutation (rows coastal ++ rows northern ++ rows central ++ rows other) (rows df) /\
    (forall g, In g [coastal; northern; central; other] -> columns g = columns df).
Proof.
  intros Hwf H.
  destruct (split_by_region_inv _ _ H) as (district & Hd & ->).
  pose proof (getitem_well_formed _ _ _ Hwf Hd) as Hlen.
  do 5 eexists.
  split; [ exact Hd | ].
  split; [ reflexivity | ].
  do 4 (split; [ reflexivity | ]).
  assert (Hrows : forall values,
            isin district values = map (row_in values) (rows df)).
  { intros values. apply isin_rows; [ now apply getitem_lookup | exact Hlen ]. }
  assert (Hother : invert (isin district all_districts)
                   = map (fun r => negb (row_in all_districts r)) (rows df)).
  { unfold invert. rewrite Hrows, map_map. reflexivity. }
  assert (Hgroups :
    rows (boolean_index df (isin district coastal_districts))
      = filter (row_in coastal_districts) (rows df) /\
    rows (boolean_index df (isin district northern_districts))
      = filter (row_in northern_districts) (rows df) /\
    rows (boolean_index df (isin district central_districts))
      = filter (row_in central_districts) (rows df) /\
    rows (boolean_index df (invert (isin district all_districts)))
      = filter (fun r => negb (row_in all_districts r)) (rows df)).
  { rewrite !rows_boolean_index, Hother, !Hrows, !select_filter. auto. }
  destruct Hgroups as (G1 & G2 & G3 & G4).
  destruct (region_masks district) as (C & cs & f1 & f2 & f3 & f4 & Hcs & Hone & E1 & E2 & E3 & E4).
  assert (Hidx : length (frame_index df) = length cs) by (unfold nrows in Hlen; lia).
  split; [ | split; [ | split; [ | split ] ] ].
  - intros i Hi. rewrite E1, E2, E3, E4.
    destruct (nth_error cs i) as [c | ] eqn:Ec.
    + rewrite !(nth_map_flag _ _ _ _ Ec). apply Hone.
    + apply nth_error_None in Ec. unfold nrows in Hi. lia.
  - rewrite E1, E2, E3, E4. unfold nrows, boolean_index; simpl.
    apply select_partition_length; auto.
  - rewrite E1, E2, E3, E4. unfold boolean_index; simpl.
    apply select_partition_perm; auto.
  - intros i Hi. clear E1 E2 E3 E4 Hone Hrows Hother G1 G2 G3 G4.
    destruct district as [cells | cells]; cbn [isin district_at series_len] in *.
    + unfold invert. rewrite map_map.
      destruct (nth_error cells i) as [c | ] eqn:Ec.
      * rewrite (nth_map_flag _ _ _ _ Ec).
        split; [ intros _ name Hn; discriminate | reflexivity ].
      * apply nth_error_None in Ec. unfold nrows in *. lia.
    + unfold invert. rewrite map_map.
      destruct (nth_error cells i) as [c | ] eqn:Ec.
      * rewrite (nth_map_flag _ _ _ _ Ec).
        rewrite (nth_error_nth _ _ _ Ec).
        destruct c as [v | ]; cbn [text_in].
        -- rewrite negb_true_iff. split.
           ++ intros Hf name Hn Hin. inversion Hn; subst name.
              assert (Ht : existsb (String.eqb v) all_districts = true).
              { apply existsb_exists. exists v. split; auto. apply String.eqb_refl. }
              congruence.
           ++ intros Hall. destruct (existsb (String.eqb v) all_districts) eqn:Ex; auto.
              apply existsb_literal in Ex. exfalso. eapply Hall; eauto.
        -- split; [ intros _ name Hn; discriminate | reflexivity ].
      * apply nth_error_None in Ec. unfold nrows in *. lia.
  - do 4 (split; [ assumption | ]).
    split; [ exact row_flags_exactly_one | ].
    split.
    + rewrite G1, G2, G3, G4. rewrite <- !select_filter.
      apply (select_partition_perm _ _
               (row_in coastal_districts) (row_in northern_districts)
               (row_in central_districts) (fun r => negb (row_in all_districts r))
               row_flags_exactly_one).
      reflexivity.
    + intros g Hg. simpl in Hg.
      destruct Hg as [<- | [<- | [<- | [<- | []]]]];
        unfold columns, boolean_index; simpl; rewrite map_map; reflexivity.
Qed.

(** ** Mode ties *)

Lemma has_missing_count {A : Type} (cells : list (option A)) :
  In None cells -> (0 < length (filter is_missing cells))%nat.
Proof.
  induction cells as [ | [x | ] rest IH ]; simpl; [ intros [] | | lia ].
  intros [H | H]; [ discriminate | auto ].
Qed.

(** C10: when [clean_data] fills a text column, every missing cell of the
    column comes back holding one and the same value, the cells that held a
    text keep it, and that value is a most frequent one of the values
    present and, among the values tied for most frequent, the smallest in
    the order of [String.leb] (character by character): the first element
    of the sorted modes. *)
Theorem clean_data_mode_tie_break df out col cells :
  NoDup (columns df) ->
  clean_data df = Ok out ->
  getitem df col = Ok (ObjSeries cells) ->
  In None cells ->
  exists top cells',
    hd_error (mode cells) = Some top /\
    getitem out col = Ok (ObjSeries cells') /\
    cells' = fillna cells (Some top) /\
    length cells' = length cells /\
    (forall i, nth_error cells i = Some None -> nth_error cells' i = Some (Some top)) /\
    (forall i w, nth_error cells i = Some (Some w) ->
                 nth_error cells' i = Some (Some w)) /\
    In top (dropna cells) /\
    (forall w, (count_value w (dropna cells) <= count_value top (dropna cells))%nat) /\
    (forall w, In w (dropna cells) ->
               count_value w (dropna cells) = count_value top (dropna cells) ->
               String.leb top w = true).
Proof.
  intros Hnd H Hget Hmiss.
  destruct (clean_data_column _ _ _ _ Hnd H Hget) as (filled & s1 & _ & Hs1 & _ & Hout).
  apply has_missing_count in Hmiss. apply Nat.ltb_lt in Hmiss.
  unfold fill_missing in Hs1. simpl isnull_sum in Hs1. rewrite Hmiss in Hs1.
  destruct (mode cells) as [ | top rest ] eqn:Em; [ discriminate | ].
  inversion Hs1; subst s1. simpl in Hout.
  exists top, (fillna cells (Some top)).
  split; [ reflexivity | split; [ exact Hout | split; [ reflexivity | ] ] ].
  split; [ apply fillna_length | ].
  split; [ intros i Hi; now rewrite fillna_nth_error, Hi | ].
  split; [ intros i w Hi; now rewrite fillna_nth_error, Hi | ].
  exact (mode_head _ _ _ Em).
Qed.

(** ** Columns without any value *)

(** C3: a text column with cells, all of them missing, makes [clean_data]
    raise: its mode is empty and [mode()[0]] fails. *)
Theorem clean_data_all_missing_text_raises df col cells :
  NoDup (columns df) ->
  getitem df col = Ok (ObjSeries cells) ->
  cells <> [] ->
  dropna cells = [] ->
  exists e, clean_data df = Raise e.
Proof.
  intros Hnd Hget Hne Hall.
  destruct (clean_data df) as [out | e] eqn:H; [ exfalso | eauto ].
  destruct (clean_data_column _ _ _ _ Hnd H Hget) as (filled & s1 & _ & Hs1 & _).
  unfold fill_missing in Hs1. simpl isnull_sum in Hs1.
  assert (Hj : (0 <? length (filter is_missing cells))%nat = true).
  { apply Nat.ltb_lt. pose proof (dropna_length cells) as L. rewrite Hall in L.
    destruct cells; [ congruence | simpl in *; lia ]. }
  rewrite Hj in Hs1. unfold mode in Hs1. rewrite Hall in Hs1. discriminate.
Qed.

Lemma for_each_column_returns body cols :
  NoDup cols ->
  forall df,
    (forall col, In col cols ->
       exists s s', getitem df col = Ok s /\ body s = Ok s') ->
    exists out, for_each_column cols body df = Ok out.
Proof.
  induction 1 as [ | c rest Hnotin Hnd IH ]; intros df Hall; simpl; [ eauto | ].
  destruct (Hall c (or_introl eq_refl)) as (s & s' & Hg & Hb).
  rewrite Hg. simpl. rewrite Hb. simpl.
  apply IH. intros col Hin.
  assert (Hne : c <> col) by (intros ->; contradiction).
  rewrite getitem_setitem_other by exact Hne.
  apply Hall. right. exact Hin.
Qed.

Lemma fill_missing_numeric cells :
  exists cells', fill_missing (NumSeries cells) = Ok (NumSeries cells').
Proof.
  unfold fill_missing. destruct (0 <? _)%nat; eauto.
Qed.

(** The other columns are harmless: [clean_data] returns as soon as every
    text column that has a missing cell also has a value.  Numeric columns
    of one repeated value, and numeric columns without any value, do not
    make it raise. *)
Lemma clean_data_returns df :
  NoDup (columns df) ->
  (forall col cells,
     getitem df col = Ok (ObjSeries cells) -> In None cells -> dropna cells <> []) ->
  exists out, clean_data df = Ok out.
Proof.
  intros Hnd Htext. unfold clean_data, copy.
  assert (Hfill : exists filled, fill_stage df = Ok filled).
  { unfold fill_stage. apply for_each_column_returns; auto.
    intros col Hin. destruct (in_columns_getitem _ _ Hin) as [s Hs].
    exists s. destruct s as [cells | cells].
    - destruct (fill_missing_numeric cells) as [cells' Hc]. eauto.
    - unfold fill_missing. simpl isnull_sum.
      destruct (0 <? length (filter is_missing cells))%nat eqn:Hj; [ | eauto ].
      assert (Hmiss : In None cells).
      { apply Nat.ltb_lt in Hj.
        destruct (filter is_missing cells) as [ | c r ] eqn:Ef; [ simpl in Hj; lia | ].
        assert (Hc : In c (filter is_missing cells)) by (rewrite Ef; left; reflexivity).
        apply filter_In in Hc. destruct Hc as [Hc Hm].
        destruct c; [ discriminate | exact Hc ]. }
      pose proof (mode_nonempty _ (Htext _ _ Hs Hmiss)) as Hm.
      destruct (mode cells); [ congruence | eauto ]. }
  destruct Hfill as [filled Hf]. rewrite Hf. simpl.
  assert (Hnd' : NoDup (columns filled)) by (now rewrite (fill_stage_columns _ _ Hf)).
  apply for_each_column_returns; [ apply NoDup_filter_names; exact Hnd' | ].
  intros col Hin.
  assert (Hin' : In col (columns filled)).
  { unfold numeric_columns in Hin. apply in_map_iff in Hin.
    destruct Hin as (c & <- & Hc). apply filter_In in Hc.
    unfold columns. apply in_map. tauto. }
  destruct (in_columns_getitem _ _ Hin') as [s Hs].
  pose proof (in_filter_names (fun c => dtype_is_numeric (snd c)) _ col s Hnd'
                (proj1 (getitem_lookup _ _ _) Hs)) as Hiff.
  apply Hiff in Hin. simpl in Hin.
  destruct s as [cells | cells]; [ | discriminate ].
  destruct (clip_outliers_numeric cells) as [cells' Hc]. eauto.
Qed.

(** ** The I/O boundary *)

(** C9: whatever [read_csv] and [to_csv] do, [load_data] and
    [save_processed_data] return normally: a failure of [read_csv] gives
    [None] after one line naming the reason, a failure of [to_csv] gives a
    normal return after one line naming the reason. *)
Theorem io_boundary_never_raises
  (read_csv : string -> result DataFrame)
  (to_csv : DataFrame -> string -> bool -> result unit)
  (filepath : string) (df : DataFrame) (output_path : string) :
  load_data read_csv filepath =
    match read_csv filepath with
    | Ok d =>
        (Ok (Some d),
         [("Dataset loaded successfully with " ++ str_of_nat (nrows d)
           ++ " rows and " ++ str_of_nat (ncols d) ++ " columns")%string])
    | Raise e => (Ok None, [("Error loading dataset: " ++ exn_str e)%string])
    end
  /\
  save_processed_data to_csv df output_path =
    match to_csv df output_path false with
    | Ok _ => (Ok tt, [("Processed data saved to " ++ output_path)%string])
    | Raise e => (Ok tt, [("Error saving processed data: " ++ exn_str e)%string])
    end
  /\
  (exists r out, load_data read_csv filepath = (Ok r, out))
  /\
  (exists out, save_processed_data to_csv df output_path = (Ok tt, out)).
Proof.
  unfold load_data, save_processed_data, try_except, io_bind, io_lift, io_ret, print.
  destruct (read_csv filepath) as [d | e];
    destruct (to_csv df output_path false) as [[] | e'];
    simpl; repeat split; eauto.
Qed.

(** ** The theorems on the sample tables *)

Lemma has_duplicates_NoDup l : has_duplicates l = false -> NoDup l.
Proof.
  induction l as [ | x rest IH ]; simpl; [ constructor | ].
  intros H. apply orb_false_iff in H. destruct H as [Hx Hrest].
  constructor; [ | auto ].
  intros Hin.
  assert (Ht : existsb (String.eqb x) rest = true).
  { apply existsb_exists. exists x. split; [ exact Hin | apply String.eqb_refl ]. }
  congruence.
Defined.



Lemma clean_data_all_missing_text_raises_witness :
  exists e, clean_data sample_all_missing_text = Raise e.
Proof.
  apply (clean_data_all_missing_text_raises sample_all_missing_text "District"
           [None; None]).
  - apply has_duplicates_NoDup. reflexivity.
  - reflexivity.
  - discriminate.
  - reflexivity.
Defined.

Example clean_data_all_missing_text_sample :
  clean_data sample_all_missing_text = Raise (KeyError "0").
Proof. vm_compute. reflexivity. Qed.

Lemma well_formed_sample_districts : well_formed sample_districts.
Proof. repeat constructor. Defined.

Lemma split_by_region_partition_witness :
  exists district coastal northern central other,
    getitem sample_districts "District" = Ok district /\
    sample_regions = [("coastal", coastal); ("northern", northern);
                      ("central", central); ("other", other)] /\
    coastal = boolean_index sample_districts (isin district coastal_districts) /\
    northern = boolean_index sample_districts (isin district northern_districts) /\
    central = boolean_index sample_districts (isin district central_districts) /\
    other = boolean_index sample_districts (invert (isin district all_districts)) /\
    (forall i, (i < nrows sample_districts)%nat ->
       count_true [nth i (isin district coastal_districts) false;
                   nth i (isin district northern_districts) false;
                   nth i (isin district central_districts) false;
                   nth i (invert (isin district all_districts)) false] = 1%nat) /\
    (nrows coastal + nrows northern + nrows central + nrows other
     = nrows sample_districts)%nat /\
    Permutation
      (frame_index coastal ++ frame_index northern
       ++ frame_index central ++ frame_index other)
      (frame_index sample_districts) /\
    (forall i, (i < nrows sample_districts)%nat ->
       (nth i (invert (isin district all_districts)) false = true <->
        forall name, district_at district i = Some name -> ~ In name all_districts)) /\
    rows coastal = filter (row_in coastal_districts) (rows sample_districts) /\
    rows northern = filter (row_in northern_districts) (rows sample_districts) /\
    rows central = filter (row_in central_districts) (rows sample_districts) /\
    rows other = filter (fun r => negb (row_in all_districts r)) (rows sample_districts) /\
    (forall r,
       count_true [row_in coastal_districts r; row_in northern_districts r;
                   row_in central_districts r; negb (row_in all_districts r)] = 1%nat) /\
    Permutation (rows coastal ++ rows northern ++ rows central ++ rows other)
      (rows sample_districts) /\
    (forall g, In g [coastal; northern; central; other] ->
       columns g = columns sample_districts).
Proof.
  apply (split_by_region_partition sample_districts sample_regions).
  - exact well_formed_sample_districts.
  - reflexivity.
Defined.

(** The four groups of the sample table, row by row. *)
Example split_by_region_sample :
  map (fun g => (fst g, rows (snd g))) sample_regions
  = [("coastal",
      [(0%Z, [("Year", Some (NumCell (Some 1995%Q)));
              ("District", Some (TextCell (Some "Khulna")))])]);
     ("northern", []);
     ("central",
      [(1%Z, [("Year", Some (NumCell (Some 1996%Q)));
              ("District", Some (TextCell (Some "Dhaka")))])]);
     ("other",
      [(2%Z, [("Year", Some (NumCell (Some 1997%Q)));
              ("District", Some (TextCell (Some "Sylhet")))]);
       (3%Z, [("Year", Some (NumCell (Some 1998%Q)));
              ("District", Some (TextCell None))])])].
Proof. reflexivity. Qed.

Lemma row_count_invariant_witness :
  nrows sample_outlier_out = nrows sample_outlier /\
  frame_index sample_outlier_out = frame_index sample_outlier /\
  column_lengths sample_outlier_out = column_lengths sample_outlier.
Proof.
  apply (proj1 row_count_invariant sample_outlier sample_outlier_out).
  vm_compute. reflexivity.
Defined.

Lemma clean_data_mode_tie_break_witness :
  exists top cells',
    hd_error (mode [Some "Khulna"; None; Some "Dhaka"; None]) = Some top /\
    getitem sample_missing_out "District" = Ok (ObjSeries cells') /\
    cells' = fillna [Some "Khulna"; None; Some "Dhaka"; None] (Some top) /\
    length cells' = length [Some "Khulna"; None; Some "Dhaka"; None] /\
    (forall i, nth_error [Some "Khulna"; None; Some "Dhaka"; None] i = Some None ->
               nth_error cells' i = Some (Some top)) /\
    (forall i w, nth_error [Some "Khulna"; None; Some "Dhaka"; None] i = Some (Some w) ->
                 nth_error cells' i = Some (Some w)) /\
    In top (dropna [Some "Khulna"; None; Some "Dhaka"; None]) /\
    (forall w, (count_value w (dropna [Some "Khulna"; None; Some "Dhaka"; None])
                <= count_value top (dropna [Some "Khulna"; None; Some "Dhaka"; None]))%nat) /\
    (forall w, In w (dropna [Some "Khulna"; None; Some "Dhaka"; None]) ->
               count_value w (dropna [Some "Khulna"; None; Some "Dhaka"; None])
               = count_value top (dropna [Some "Khulna"; None; Some "Dhaka"; None]) ->
               String.leb top w = true).
Proof.
  apply (clean_data_mode_tie_break sample_missing sample_missing_out "District"
           [Some "Khulna"; None; Some "Dhaka"; None]).
  - apply has_duplicates_NoDup. reflexivity.
  - vm_compute. reflexivity.
  - reflexivity.
  - simpl. auto.
Defined.

Example clean_data_mode_tie_sample :
  getitem sample_missing_out "District"
  = Ok (ObjSeries [Some "Khulna"; Some "Dhaka"; Some "Dhaka"; Some "Dhaka"]).
Proof. reflexivity. Qed.

(** * Further properties *)

(** ** feature_engineering: when it returns *)

Lemma has_column_getitem df col :
  has_column col df = true -> exists s, getitem df col = Ok s.
Proof.
  unfold has_column. intros H. apply in_columns_getitem.
  apply existsb_exists in H. destruct H as (x & Hin & Heq).
  apply String.eqb_eq in Heq. now subst.
Qed.

Lemma getitem_has_column df col s :
  getitem df col = Ok s -> has_column col df = true.
Proof.
  intros H. apply getitem_in_columns in H. unfold has_column.
  apply existsb_exists. exists col. split; [ exact H | apply String.eqb_refl ].
Qed.

Lemma no_column_getitem df col :
  has_column col df = false -> getitem df col = Raise (KeyError col).
Proof.
  intros H. unfold getitem.
  destruct (lookup_col col (frame_cols df)) as [s | ] eqn:E; [ | reflexivity ].
  assert (Hg : getitem df col = Ok s) by (unfold getitem; now rewrite E).
  apply getitem_has_column in Hg. congruence.
Qed.

(** The run of [feature_engineering] on a table that has the seven inputs,
    free of text, and no [Month] column. *)
Lemma feature_engineering_run df sy ys sf fs sd ds sc cs so fo sa aq sr rn :
  getitem df "Year" = Ok sy -> as_numeric sy = Ok ys ->
  getitem df "Flood_Impact_Score" = Ok sf -> as_numeric sf = Ok fs ->
  getitem df "Drought_Severity" = Ok sd -> as_numeric sd = Ok ds ->
  getitem df "Cyclone_Count" = Ok sc -> as_numeric sc = Ok cs ->
  getitem df "Forest_Cover_Percent" = Ok so -> as_numeric so = Ok fo ->
  getitem df "AQI" = Ok sa -> as_numeric sa = Ok aq ->
  getitem df "Renewable_Energy_Usage_Percent" = Ok sr -> as_numeric sr = Ok rn ->
  has_column "Month" df = false ->
  feature_engineering df =
    Ok (setitem
          (setitem
             (setitem df "Decade"
                (NumSeries (map (option_map (fun v => v * 10)%Q)
                              (map (option_map floor_tens) ys))))
             "Climate_Risk_Score"
             (NumSeries
                (map (fun p => add_cell (fst p) (snd p))
                   (combine
                      (map (fun p => add_cell (fst p) (snd p))
                         (combine (map (option_map (fun v => v * 0.3)%Q) fs)
                                  (map (option_map (fun v => v * 0.3)%Q) ds)))
                      (map (option_map (fun v => v * 0.4)%Q) cs)))))
          "Environmental_Health_Index"
          (NumSeries
             (map (option_map (fun v => v / 100)%Q)
                (map (fun p => add_cell (fst p) (snd p))
                   (combine
                      (map (fun p => add_cell (fst p) (snd p))
                         (combine (map (option_map (fun v => v * 0.4)%Q) fo)
                                  (map (option_map (fun v => v * 0.3)%Q)
                                     (map (option_map (fun v => 100 - v)%Q) aq))))
                      (map (option_map (fun v => v * 0.3)%Q) rn)))))).
Proof.
  intros Gy Ny Gf Nf Gd Nd Gc Nc Go No Ga Na Gr Nr HM.
  unfold feature_engineering, copy, floordiv_scalar, mul_scalar, rsub_scalar,
    div_scalar, add_series, map_cells.
  rewrite Gy. cbn [bind]. rewrite Ny. cbn [bind as_numeric].
  rewrite ?getitem_setitem_other by names_differ. rewrite Gf. cbn [bind].
  rewrite Nf. cbn [bind as_numeric].
  rewrite ?getitem_setitem_other by names_differ. rewrite Gd. cbn [bind].
  rewrite Nd. cbn [bind as_numeric].
  rewrite ?getitem_setitem_other by names_differ. rewrite Gc. cbn [bind].
  rewrite Nc. cbn [bind as_numeric].
  rewrite ?getitem_setitem_other by names_differ. rewrite Go. cbn [bind].
  rewrite No. cbn [bind as_numeric].
  rewrite ?getitem_setitem_other by names_differ. rewrite Ga. cbn [bind].
  rewrite Na. cbn [bind as_numeric].
  rewrite ?getitem_setitem_other by names_differ. rewrite Gr. cbn [bind].
  rewrite Nr. cbn [bind as_numeric].
  rewrite !has_column_setitem_other by names_differ. rewrite HM.
  reflexivity.
Qed.

(** X1: [feature_engineering] returns a table exactly when the table has the
    seven columns it reads, none of them holding text, and has no [Month]
    column. *)
Theorem feature_engineering_returns_iff df :
  (exists out, feature_engineering df = Ok out) <->
  ((forall c, In c required_columns ->
      exists s cells, getitem df c = Ok s /\ as_numeric s = Ok cells) /\
   has_column "Month" df = false).
Proof.
  split.
  - intros [out H].
    destruct (feature_engineering_inv df out H)
      as (sy & ys & sf & fs & sd & ds & sc & cs & so & fo & sa & aq & sr & rn
          & Hy & Hf & Hd & Hc & Ho & Ha & Hr & HM & _).
    split; [ | exact HM ].
    intros c Hin. simpl in Hin.
    repeat (destruct Hin as [<- | Hin]; [ eauto | ]). destruct Hin.
  - intros [Hall HM].
    destruct (Hall "Year") as (sy & ys & Gy & Ny); [ simpl; tauto | ].
    destruct (Hall "Flood_Impact_Score") as (sf & fs & Gf & Nf); [ simpl; tauto | ].
    destruct (Hall "Drought_Severity") as (sd & ds & Gd & Nd); [ simpl; tauto | ].
    destruct (Hall "Cyclone_Count") as (sc & cs & Gc & Nc); [ simpl; tauto | ].
    destruct (Hall "Forest_Cover_Percent") as (so & fo & Go & No); [ simpl; tauto | ].
    destruct (Hall "AQI") as (sa & aq & Ga & Na); [ simpl; tauto | ].
    destruct (Hall "Renewable_Energy_Usage_Percent") as (sr & rn & Gr & Nr);
      [ simpl; tauto | ].
    eexists.
    eapply feature_engineering_run; eauto.
Qed.

Lemma feature_engineering_returns_iff_witness :
  exists out, feature_engineering sample_row = Ok out.
Proof.
  apply (proj2 (feature_engineering_returns_iff sample_row)).
  split; [ | reflexivity ].
  intros c Hin. simpl in Hin.
  repeat (destruct Hin as [<- | Hin];
          [ eexists; eexists; split; reflexivity | ]).
  destruct Hin.
Defined.

Ltac fe_step :=
  rewrite ?getitem_setitem_other by names_differ;
  match goal with
  | H : getitem ?df ?c = _ |- context [getitem ?df ?c] => rewrite H
  end;
  cbn [bind];
  try match goal with
      | H : as_numeric ?s = _ |- context [as_numeric ?s] => rewrite H
      end;
  cbn [bind as_numeric].

(** X2: on a table that lacks one of the seven columns, the columns that are
    there being free of text, [feature_engineering] raises [KeyError] with
    the name of the first column it fails to find, in the order in which it
    reads them. *)
Theorem feature_engineering_missing_column df c :
  (forall name s, In name required_columns -> getitem df name = Ok s ->
     exists cells, as_numeric s = Ok cells) ->
  first_missing df = Some c ->
  feature_engineering df = Raise (KeyError c).
Proof.
  intros Hnum Hfirst.
  assert (Hcase : forall name, In name required_columns ->
            (exists s cells, getitem df name = Ok s /\ as_numeric s = Ok cells)
            \/ (has_column name df = false /\ getitem df name = Raise (KeyError name))).
  { intros name Hin. destruct (has_column name df) eqn:E.
    - destruct (has_column_getitem _ _ E) as [s Hs].
      destruct (Hnum _ _ Hin Hs) as [cells Hc]. left. eauto.
    - right. split; [ reflexivity | now apply no_column_getitem ]. }
  unfold first_missing, required_columns in Hfirst. simpl in Hfirst.
  unfold feature_engineering, copy, floordiv_scalar, mul_scalar, rsub_scalar,
    div_scalar, add_series, map_cells.
  destruct (Hcase "Year") as [(s1 & c1 & G1 & N1) | [E1 G1]]; [ simpl; tauto | | ].
  2: { rewrite E1 in Hfirst. inversion Hfirst; subst c. fe_step. reflexivity. }
  rewrite (getitem_has_column _ _ _ G1) in Hfirst. simpl in Hfirst. fe_step.
  destruct (Hcase "Flood_Impact_Score") as [(s2 & c2 & G2 & N2) | [E2 G2]];
    [ simpl; tauto | | ].
  2: { rewrite E2 in Hfirst. inversion Hfirst; subst c. fe_step. reflexivity. }
  rewrite (getitem_has_column _ _ _ G2) in Hfirst. simpl in Hfirst. fe_step.
  destruct (Hcase "Drought_Severity") as [(s3 & c3 & G3 & N3) | [E3 G3]];
    [ simpl; tauto | | ].
  2: { rewrite E3 in Hfirst. inversion Hfirst; subst c. fe_step. reflexivity. }
  rewrite (getitem_has_column _ _ _ G3) in Hfirst. simpl in Hfirst. fe_step.
  destruct (Hcase "Cyclone_Count") as [(s4 & c4 & G4 & N4) | [E4 G4]];
    [ simpl; tauto | | ].
  2: { rewrite E4 in Hfirst. inversion Hfirst; subst c. fe_step. reflexivity. }
  rewrite (getitem_has_column _ _ _ G4) in Hfirst. simpl in Hfirst. fe_step.
  destruct (Hcase "Forest_Cover_Percent") as [(s5 & c5 & G5 & N5) | [E5 G5]];
    [ simpl; tauto | | ].
  2: { rewrite E5 in Hfirst. inversion Hfirst; subst c. fe_step. reflexivity. }
  rewrite (getitem_has_column _ _ _ G5) in Hfirst. simpl in Hfirst. fe_step.
  destruct (Hcase "AQI") as [(s6 & c6 & G6 & N6) | [E6 G6]]; [ simpl; tauto | | ].
  2: { rewrite E6 in Hfirst. inversion Hfirst; subst c. fe_step. reflexivity. }
  rewrite (getitem_has_column _ _ _ G6) in Hfirst. simpl in Hfirst. fe_step.
  destruct (Hcase "Renewable_Energy_Usage_Percent") as [(s7 & c7 & G7 & N7) | [E7 G7]];
    [ simpl; tauto | | ].
  2: { rewrite E7 in Hfirst. inversion Hfirst; subst c. fe_step. reflexivity. }
  rewrite (getitem_has_column _ _ _ G7) in Hfirst. simpl in Hfirst. discriminate.
Qed.

(** ** feature_engineering: the derived cells *)

Lemma nth_all_missing {A B : Type} (l : list A) i :
  nth i (map (fun _ => @None B) l) None = None.
Proof.
  revert i. induction l as [ | x l IH ]; intros [ | i ]; simpl; auto.
Qed.

Lemma num_at_numeric_view df col s cells i :
  getitem df col = Ok s -> as_numeric s = Ok cells ->
  num_at df col i = nth i cells None.
Proof.
  unfold num_at. intros Hg Hn. rewrite Hg.
  destruct s as [c | c]; simpl in Hn.
  - now inversion Hn.
  - destruct (existsb is_present c); [ discriminate | ].
    inversion Hn. now rewrite nth_all_missing.
Qed.

Lemma nth_add_cells_gen c1 c2 i :
  nth i (map (fun p => add_cell (fst p) (snd p)) (combine c1 c2)) None
  = add_cell (nth i c1 None) (nth i c2 None).
Proof.
  revert c2 i. induction c1 as [ | x c1 IH ]; intros c2 i.
  - simpl. destruct i; reflexivity.
  - destruct c2 as [ | y c2 ].
    + simpl. destruct i; simpl; [ now destruct x | now destruct (nth i c1 None) ].
    + destruct i; simpl; [ reflexivity | apply IH ].
Qed.

(** Row by row, each derived cell as a function of the input cells of the
    same row; a missing input gives a missing result. *)
Lemma feature_engineering_cells df out i :
  feature_engineering df = Ok out ->
  num_at out "Decade" i
  = option_map (fun y => floor_tens y * 10)%Q (num_at out "Year" i) /\
  num_at out "Climate_Risk_Score" i
  = add_cell
      (add_cell (option_map (fun v => v * 0.3)%Q (num_at out "Flood_Impact_Score" i))
                (option_map (fun v => v * 0.3)%Q (num_at out "Drought_Severity" i)))
      (option_map (fun v => v * 0.4)%Q (num_at out "Cyclone_Count" i)) /\
  num_at out "Environmental_Health_Index" i
  = option_map (fun v => v / 100)%Q
      (add_cell
         (add_cell (option_map (fun v => v * 0.4)%Q (num_at out "Forest_Cover_Percent" i))
                   (option_map (fun v => v * 0.3)%Q
                      (option_map (fun v => 100 - v)%Q (num_at out "AQI" i))))
         (option_map (fun v => v * 0.3)%Q
            (num_at out "Renewable_Energy_Usage_Percent" i))).
Proof.
  intros H.
  destruct (feature_engineering_inv df out H)
    as (sy & ys & sf & fs & sd & ds & sc & cs & so & fo & sa & aq & sr & rn
        & [Gy Ny] & [Gf Nf] & [Gd Nd] & [Gc Nc] & [Go No] & [Ga Na] & [Gr Nr]
        & _ & ->).
  match goal with
  | |- context [setitem (setitem (setitem df "Decade" ?a) _ ?b) _ ?c] =>
      set (D := a); set (R := b); set (E := c)
  end.
  assert (Hin : forall col s cells,
            getitem df col = Ok s -> as_numeric s = Ok cells ->
            col <> "Decade" -> col <> "Climate_Risk_Score" ->
            col <> "Environmental_Health_Index" ->
            num_at (setitem (setitem (setitem df "Decade" D) "Climate_Risk_Score" R)
                      "Environmental_Health_Index" E) col i = nth i cells None).
  { intros col s cells Hg Hn H1 H2 H3.
    eapply num_at_numeric_view; [ | exact Hn ].
    rewrite !getitem_setitem_other by congruence. exact Hg. }
  rewrite (Hin _ _ _ Gy Ny), (Hin _ _ _ Gf Nf), (Hin _ _ _ Gd Nd), (Hin _ _ _ Gc Nc),
    (Hin _ _ _ Go No), (Hin _ _ _ Ga Na), (Hin _ _ _ Gr Nr) by names_differ.
  unfold num_at. simpl_frame. unfold D, R, E.
  rewrite !nth_option_map, !nth_add_cells_gen, !nth_option_map.
  repeat split.
  destruct (nth i ys None); reflexivity.
Qed.


(** ** feature_engineering: the columns of the result *)

Lemma columns_setitem df col s :
  columns (setitem df col s)
  = if has_column col df then columns df else columns df ++ [col].
Proof.
  unfold columns, has_column, columns, setitem; simpl.
  induction (frame_cols df) as [ | [name s0] rest IH ]; simpl; [ reflexivity | ].
  rewrite (String.eqb_sym col name).
  destruct (String.eqb name col) eqn:E; simpl.
  - reflexivity.
  - rewrite IH. destruct (existsb (String.eqb col) (map fst rest)); reflexivity.
Qed.

Lemma setitem_same df col s : getitem df col = Ok s -> setitem df col s = df.
Proof.
  intros H. apply getitem_lookup in H.
  destruct df as [idx cols]. unfold setitem; simpl in *. f_equal.
  induction cols as [ | [name s0] rest IH ]; simpl in *; [ discriminate | ].
  destruct (String.eqb name col) eqn:E.
  - now inversion H.
  - now rewrite IH.
Qed.

(** X7: [feature_engineering] leaves every column other than the three
    derived ones as it found it, and the result has the columns of the input
    in their order, followed by those derived columns that the input did not
    already have (one it already had is overwritten in place). *)
Theorem feature_engineering_columns df out :
  feature_engineering df = Ok out ->
  (forall col, ~ In col derived_columns -> getitem out col = getitem df col) /\
  columns out
  = columns df ++ filter (fun c => negb (has_column c df)) derived_columns.
Proof.
  intros H.
  destruct (feature_engineering_inv df out H)
    as (sy & ys & sf & fs & sd & ds & sc & cs & so & fo & sa & aq & sr & rn
        & _ & _ & _ & _ & _ & _ & _ & _ & ->).
  split.
  - intros col Hnot. simpl in Hnot.
    rewrite !getitem_setitem_other; auto; intros E; apply Hnot; auto.
  - rewrite !columns_setitem.
    rewrite !has_column_setitem_other by names_differ.
    unfold derived_columns. simpl filter.
    destruct (has_column "Decade" df), (has_column "Climate_Risk_Score" df),
      (has_column "Environmental_Health_Index" df); simpl;
      rewrite <- ?app_assoc, ?app_nil_r; reflexivity.
Qed.

Lemma feature_engineering_columns_witness :
  (forall col, ~ In col derived_columns ->
     getitem sample_row_out col = getitem sample_row col) /\
  columns sample_row_out
  = columns sample_row
    ++ filter (fun c => negb (has_column c sample_row)) derived_columns.
Proof.
  apply (feature_engineering_columns sample_row sample_row_out). reflexivity.
Defined.

(** X8: [feature_engineering] is idempotent: run on a table it returned, it
    returns that table again. *)
Theorem feature_engineering_idempotent df out :
  feature_engineering df = Ok out ->
  feature_engineering out = Ok out.
Proof.
  intros H.
  destruct (feature_engineering_inv df out H)
    as (sy & ys & sf & fs & sd & ds & sc & cs & so & fo & sa & aq & sr & rn
        & [Gy Ny] & [Gf Nf] & [Gd Nd] & [Gc Nc] & [Go No] & [Ga Na] & [Gr Nr]
        & HM & Hout).
  match type of Hout with
  | _ = setitem (setitem (setitem df "Decade" ?a) _ ?b) _ ?c =>
      set (D := a) in *; set (R := b) in *; set (E := c) in *
  end.
  assert (Hkeep : forall col s, getitem df col = Ok s ->
            col <> "Decade" -> col <> "Climate_Risk_Score" ->
            col <> "Environmental_Health_Index" -> getitem out col = Ok s).
  { intros col s Hg H1 H2 H3. rewrite Hout.
    rewrite !getitem_setitem_other by congruence. exact Hg. }
  assert (HM' : has_column "Month" out = false).
  { rewrite Hout. now rewrite !has_column_setitem_other by names_differ. }
  rewrite (feature_engineering_run out sy ys sf fs sd ds sc cs so fo sa aq sr rn);
    auto; try (apply Hkeep; auto; names_differ).
  fold D R E. f_equal.
  assert (GD : getitem out "Decade" = Ok D) by (rewrite Hout; now simpl_frame).
  assert (GR : getitem out "Climate_Risk_Score" = Ok R) by (rewrite Hout; now simpl_frame).
  assert (GE : getitem out "Environmental_Health_Index" = Ok E)
    by (rewrite Hout; now simpl_frame).
  rewrite (setitem_same _ _ _ GD), (setitem_same _ _ _ GR), (setitem_same _ _ _ GE).
  reflexivity.
Qed.

Lemma feature_engineering_idempotent_witness :
  feature_engineering sample_row_out = Ok sample_row_out.
Proof.
  apply (feature_engineering_idempotent sample_row sample_row_out). reflexivity.
Defined.

(** ** clean_data: what makes it raise *)

Lemma for_each_column_raise body cols :
  NoDup cols ->
  forall df e,
    (forall col, In col cols -> exists s, getitem df col = Ok s) ->
    for_each_column cols body df = Raise e ->
    exists col s, In col cols /\ getitem df col = Ok s /\ body s = Raise e.
Proof.
  induction 1 as [ | c rest Hnotin Hnd IH ]; intros df e Hall H; simpl in H;
    [ discriminate | ].
  destruct (Hall c (or_introl eq_refl)) as [s Hs].
  rewrite Hs in H. cbn [bind] in H.
  destruct (body s) as [s' | e'] eqn:Hb; cbn [bind] in H.
  - assert (Hother : forall col, In col rest ->
              getitem (setitem df c s') col = getitem df col).
    { intros col Hin. apply getitem_setitem_other. intros ->. contradiction. }
    destruct (IH (setitem df c s') e) as (col & s0 & Hin & Hg & Hr); auto.
    + intros col Hin. rewrite (Hother col Hin). apply Hall. right. exact Hin.
    + exists col, s0. rewrite (Hother col Hin) in Hg. auto using in_cons.
  - inversion H; subst e'. exists c, s. auto using in_eq.
Qed.

Lemma fill_missing_raise s e :
  fill_missing s = Raise e ->
  e = KeyError "0" /\
  exists cells, s = ObjSeries cells /\ In None cells /\ dropna cells = [].
Proof.
  unfold fill_missing.
  destruct (0 <? isnull_sum s)%nat eqn:Hj; [ | discriminate ].
  destruct s as [cells | cells]; [ discriminate | ].
  destruct (mode cells) as [ | top rest ] eqn:Em; [ | discriminate ].
  intros H; inversion H. split; [ reflexivity | ].
  exists cells. split; [ reflexivity | ].
  split.
  - apply Nat.ltb_lt in Hj. simpl in Hj.
    destruct (filter is_missing cells) as [ | c r ] eqn:Ef; [ simpl in Hj; lia | ].
    assert (Hc : In c (filter is_missing cells)) by (rewrite Ef; left; reflexivity).
    apply filter_In in Hc. destruct Hc as [Hc Hm].
    destruct c; [ discriminate | exact Hc ].
  - destruct (dropna cells) as [ | x l ] eqn:Ed; [ reflexivity | ].
    exfalso. apply (mode_nonempty cells); [ rewrite Ed; discriminate | exact Em ].
Qed.

(** X9: over distinct column names, [clean_data] raises for one reason only:
    a text column that has cells, all of them missing.  The exception is
    then the [KeyError] of [mode()[0]]. *)
Theorem clean_data_raises_only df e :
  NoDup (columns df) ->
  clean_data df = Raise e ->
  e = KeyError "0" /\
  exists col cells,
    getitem df col = Ok (ObjSeries cells) /\ In None cells /\ dropna cells = [].
Proof.
  intros Hnd H. unfold clean_data, copy in H.
  destruct (fill_stage df) as [filled | e'] eqn:Hf; cbn [bind] in H.
  - exfalso.
    assert (Hnd' : NoDup (columns filled)) by (now rewrite (fill_stage_columns _ _ Hf)).
    assert (Hall : forall col, In col (numeric_columns filled) ->
              exists s, getitem filled col = Ok s).
    { intros col Hin. apply in_columns_getitem.
      unfold numeric_columns in Hin. apply in_map_iff in Hin.
      destruct Hin as (c & <- & Hc). apply filter_In in Hc.
      unfold columns. apply in_map. tauto. }
    destruct (for_each_column_raise _ _ (NoDup_filter_names _ _ Hnd') _ _ Hall H)
      as (col & s & Hin & Hg & Hr).
    pose proof (in_filter_names (fun c => dtype_is_numeric (snd c)) _ col s Hnd'
                  (proj1 (getitem_lookup _ _ _) Hg)) as Hiff.
    apply Hiff in Hin. simpl in Hin.
    destruct s; [ discriminate Hr | discriminate Hin ].
  - inversion H; subst e'. unfold fill_stage in Hf.
    destruct (for_each_column_raise _ _ Hnd _ _ (in_columns_getitem df) Hf)
      as (col & s & Hin & Hg & Hr).
    destruct (fill_missing_raise _ _ Hr) as (He & cells & -> & Hmiss & Hall).
    split; [ exact He | eauto ].
Qed.

Lemma clean_data_raises_only_witness :
  KeyError "0" = KeyError "0" /\
  exists col cells,
    getitem sample_all_missing_text col = Ok (ObjSeries cells) /\
    In None cells /\ dropna cells = [].
Proof.
  apply (clean_data_raises_only sample_all_missing_text (KeyError "0")).
  - apply has_duplicates_NoDup. reflexivity.
  - vm_compute. reflexivity.
Defined.

(** ** clean_data: the missing cells that are left *)





Lemma in_none_missing {A : Type} (cells : list (option A)) :
  In None cells -> ~ Forall (fun c => c <> None) cells.
Proof.
  intros Hin Hall. rewrite Forall_forall in Hall. now apply (Hall None).
Qed.



(** ** clean_data: what clipping keeps *)









(** ** clean_data followed by feature_engineering *)

Lemma clean_data_numeric_no_missing df out col cells v :
  NoDup (columns df) ->
  clean_data df = Ok out ->
  getitem df col = Ok (NumSeries cells) ->
  In (Some v) cells ->
  exists cells',
    getitem out col = Ok (NumSeries cells') /\
    length cells' = length cells /\
    Forall (fun c => c <> None) cells'.
Proof.
  intros Hnd H Hget Hv.
  destruct (clean_data_column _ _ _ _ Hnd H Hget) as (filled & s1 & _ & Hs1 & _ & Hout).
  pose proof (fill_missing_length _ _ Hs1) as Hlen.
  destruct (median_is_some _ (dropna_nonempty _ _ Hv)) as [m Hm].
  unfold fill_missing in Hs1. simpl isnull_sum in Hs1. rewrite Hm in Hs1.
  assert (Hall : exists cells1, s1 = NumSeries cells1 /\
                   Forall (fun c => c <> None) cells1).
  { destruct (0 <? length (filter is_missing cells))%nat eqn:Hj;
      inversion Hs1; eexists; split; try reflexivity.
    - apply fillna_no_missing.
    - apply no_missing_iff. apply Nat.ltb_ge in Hj. lia. }
  destruct Hall as (cells1 & -> & Hall).
  cbn [dtype_is_numeric] in Hout. rewrite clip_outliers_cells in Hout.
  eexists. split; [ exact Hout | split ].
  - unfold loc_assign. rewrite !length_map. exact Hlen.
  - apply loc_assign_gt_no_missing, loc_assign_lt_no_missing. exact Hall.
Qed.

Lemma num_at_present df col cells i :
  getitem df col = Ok (NumSeries cells) ->
  Forall (fun c => c <> None) cells ->
  (i < length cells)%nat ->
  num_at df col i <> None.
Proof.
  intros Hg Hall Hi. unfold num_at. rewrite Hg.
  rewrite Forall_forall in Hall. apply Hall. now apply nth_In.
Qed.

Lemma feature_engineering_keeps_inputs df out col i :
  feature_engineering df = Ok out ->
  In col required_columns ->
  num_at out col i = num_at df col i.
Proof.
  intros H Hin.
  destruct (feature_engineering_inv df out H)
    as (sy & ys & sf & fs & sd & ds & sc & cs & so & fo & sa & aq & sr & rn
        & _ & _ & _ & _ & _ & _ & _ & _ & ->).
  unfold num_at. simpl in Hin.
  repeat (destruct Hin as [<- | Hin];
          [ now rewrite !getitem_setitem_other by names_differ | ]).
  destruct Hin.
Qed.

(** X13: a table whose seven input columns are numeric with at least one
    value each, the values finite, comes out of [clean_data] followed by
    [feature_engineering] with no missing cell in Decade, Climate_Risk_Score
    and Environmental_Health_Index. *)
Theorem pipeline_derived_no_missing df cleaned processed i name :
  NoDup (columns df) ->
  well_formed df ->
  clean_data df = Ok cleaned ->
  feature_engineering cleaned = Ok processed ->
  (forall c, In c required_columns ->
     exists cells v, getitem df c = Ok (NumSeries cells) /\ In (Some v) cells) ->
  (i < nrows df)%nat ->
  In name derived_columns ->
  num_at processed name i <> None.
Proof.
  intros Hnd Hwf Hc Hf Hreq Hi Hname.
  assert (Hin : forall c, In c required_columns -> num_at processed c i <> None).
  { intros c Hcin.
    destruct (Hreq c Hcin) as (cells & v & Hg & Hv).
    destruct (clean_data_numeric_no_missing _ _ _ _ _ Hnd Hc Hg Hv)
      as (cells' & Hg' & Hlen & Hall).
    rewrite (feature_engineering_keeps_inputs _ _ _ _ Hf Hcin).
    eapply num_at_present; eauto.
    rewrite Hlen. pose proof (getitem_well_formed _ _ _ Hwf Hg) as L.
    simpl in L. lia. }
  destruct (feature_engineering_cells cleaned processed i Hf) as (HD & HR & HE).
  pose proof (Hin "Year" ltac:(simpl; tauto)) as P1.
  pose proof (Hin "Flood_Impact_Score" ltac:(simpl; tauto)) as P2.
  pose proof (Hin "Drought_Severity" ltac:(simpl; tauto)) as P3.
  pose proof (Hin "Cyclone_Count" ltac:(simpl; tauto)) as P4.
  pose proof (Hin "Forest_Cover_Percent" ltac:(simpl; tauto)) as P5.
  pose proof (Hin "AQI" ltac:(simpl; tauto)) as P6.
  pose proof (Hin "Renewable_Energy_Usage_Percent" ltac:(simpl; tauto)) as P7.
  simpl in Hname.
  destruct Hname as [<- | [<- | [<- | []]]].
  - rewrite HD. destruct (num_at processed "Year" i); [ discriminate | congruence ].
  - rewrite HR.
    destruct (num_at processed "Flood_Impact_Score" i); [ | congruence ].
    destruct (num_at processed "Drought_Severity" i); [ | congruence ].
    destruct (num_at processed "Cyclone_Count" i); [ discriminate | congruence ].
  - rewrite HE.
    destruct (num_at processed "Forest_Cover_Percent" i); [ | congruence ].
    destruct (num_at processed "AQI" i); [ | congruence ].
    destruct (num_at processed "Renewable_Energy_Usage_Percent" i);
      [ discriminate | congruence ].
Qed.

(** ** split_by_region: the groups as tables *)

Lemma select_length_eq {A B : Type} (m : list bool) (l : list A) (l' : list B) :
  length l = length l' -> length (select m l) = length (select m l').
Proof.
  revert l l'. induction m as [ | b m IH ]; intros l l' Hlen.
  - destruct l, l'; reflexivity.
  - destruct b, l, l'; simpl in *; try discriminate; auto.
Qed.

Lemma select_length_le {A : Type} (m : list bool) (l : list A) :
  (length (select m l) <= length l)%nat.
Proof.
  revert l. induction m as [ | b m IH ]; intros l.
  - destruct l; simpl; lia.
  - destruct b, l; simpl; try lia; specialize (IH l); lia.
Qed.

Lemma select_map {A B : Type} (f : A -> B) (m : list bool) (l : list A) :
  select m (map f l) = map f (select m l).
Proof.
  revert l. induction m as [ | b m IH ]; intros l.
  - destruct l; reflexivity.
  - destruct b, l; simpl; try reflexivity; now rewrite IH.
Qed.

Lemma select_all {A : Type} (m : list bool) (l : list A) :
  Forall (fun b => b = true) m -> length m = length l -> select m l = l.
Proof.
  revert l. induction m as [ | b m IH ]; intros l Hall Hlen.
  - destruct l; [ reflexivity | discriminate ].
  - inversion Hall; subst. destruct l; simpl in *; [ reflexivity | ].
    f_equal. apply IH; auto.
Qed.

Lemma select_none {A : Type} (m : list bool) (l : list A) :
  Forall (fun b => b = false) m -> select m l = [].
Proof.
  revert l. induction m as [ | b m IH ]; intros l Hall.
  - destruct l; reflexivity.
  - inversion Hall; subst. destruct l; simpl; [ reflexivity | ]. apply IH; auto.
Qed.

Lemma select_series_len m s s' :
  series_len s = series_len s' ->
  series_len (select_series m s) = series_len (select_series m s').
Proof.
  destruct s, s'; simpl; apply select_length_eq.
Qed.

Lemma boolean_index_columns df m : columns (boolean_index df m) = columns df.
Proof.
  unfold columns, boolean_index; simpl. rewrite map_map. reflexivity.
Qed.

Lemma series_len_select m s (l : list Z) :
  series_len s = length l ->
  series_len (select_series m s) = length (select m l).
Proof. destruct s; simpl; apply select_length_eq. Qed.

Lemma boolean_index_well_formed df m :
  well_formed df -> well_formed (boolean_index df m).
Proof.
  unfold well_formed, boolean_index, nrows; simpl. intros Hwf.
  apply Forall_forall. intros c Hin.
  apply in_map_iff in Hin. destruct Hin as (c0 & <- & Hin0).
  rewrite Forall_forall in Hwf. simpl.
  apply series_len_select. now apply Hwf.
Qed.

Lemma getitem_boolean_index df m col :
  getitem (boolean_index df m) col
  = match getitem df col with
    | Ok s => Ok (select_series m s)
    | Raise e => Raise e
    end.
Proof.
  unfold getitem, boolean_index; simpl.
  induction (frame_cols df) as [ | [name s0] rest IH ]; simpl; [ reflexivity | ].
  destruct (String.eqb name col); [ reflexivity | exact IH ].
Qed.

Lemma isin_select m district values :
  isin (select_series m district) values = select m (isin district values).
Proof.
  destruct district; simpl; now rewrite select_map.
Qed.

Lemma boolean_index_all df m :
  well_formed df -> length m = nrows df ->
  Forall (fun b => b = true) m ->
  boolean_index df m = df.
Proof.
  intros Hwf Hlen Hall. destruct df as [idx cols].
  unfold boolean_index, well_formed, nrows in *; simpl in *.
  f_equal; [ now apply select_all | ].
  induction Hwf as [ | [name s] rest Hx Hrest IH ]; simpl; [ reflexivity | ].
  f_equal; [ | exact IH ].
  f_equal. simpl in Hx.
  destruct s; simpl in *; f_equal; apply select_all; auto; lia.
Qed.

Lemma boolean_index_none df m :
  Forall (fun b => b = false) m -> nrows (boolean_index df m) = 0%nat.
Proof.
  intros Hall. unfold nrows, boolean_index; simpl. now rewrite select_none.
Qed.

Lemma mask_select_same {C : Type} (f : C -> bool) (cs : list C) :
  Forall (fun b => b = true) (select (map f cs) (map f cs)).
Proof.
  induction cs as [ | c cs IH ]; simpl; [ constructor | ].
  destruct (f c) eqn:E; simpl; auto.
Qed.

Lemma mask_select_other {C : Type} (f g : C -> bool) (cs : list C) :
  (forall c, f c = true -> g c = false) ->
  Forall (fun b => b = false) (select (map f cs) (map g cs)).
Proof.
  intros Hfg. induction cs as [ | c cs IH ]; simpl; [ constructor | ].
  destruct (f c) eqn:E; simpl; auto.
Qed.

Lemma mask_length_select {C A : Type} (f g : C -> bool) (cs : list C) (l : list A) :
  length l = length cs ->
  length (select (map f cs) (map g cs)) = length (select (map f cs) l).
Proof.
  intros Hlen. apply select_length_eq. now rewrite length_map.
Qed.

(** X14: every group returned by [split_by_region] is a table with the
    columns of the input, in their order, one cell per row in each, and at
    most as many rows as the input. *)
Theorem split_by_region_groups df regions name g :
  well_formed df ->
  split_by_region df = Ok regions ->
  In (name, g) regions ->
  columns g = columns df /\ well_formed g /\ (nrows g <= nrows df)%nat.
Proof.
  intros Hwf H Hin.
  destruct (split_by_region_inv _ _ H) as (district & Hd & ->).
  simpl in Hin.
  repeat (destruct Hin as [Hin | Hin];
          [ inversion Hin; subst;
            split; [ apply boolean_index_columns | ];
            split; [ now apply boolean_index_well_formed | ];
            apply select_length_le | ]).
  destruct Hin.
Qed.

Lemma split_by_region_groups_witness :
  columns sample_coastal = columns sample_districts /\
  well_formed sample_coastal /\
  (nrows sample_coastal <= nrows sample_districts)%nat.
Proof.
  apply (split_by_region_groups sample_districts sample_regions "coastal").
  - exact well_formed_sample_districts.
  - reflexivity.
  - left. reflexivity.
Defined.

Lemma exactly_one_excludes (b1 b2 b3 b4 : bool) :
  count_true [b1; b2; b3; b4] = 1%nat ->
  (b1 = true -> b2 = false /\ b3 = false /\ b4 = false) /\
  (b2 = true -> b1 = false /\ b3 = false /\ b4 = false) /\
  (b3 = true -> b1 = false /\ b2 = false /\ b4 = false) /\
  (b4 = true -> b1 = false /\ b2 = false /\ b3 = false).
Proof.
  destruct b1, b2, b3, b4; unfold count_true; simpl; intros H;
    try discriminate; repeat split; intros; auto; discriminate.
Qed.

(** Splitting a sub-table selected by the mask [map f cs]: the mask
    [map g cs] of the table becomes, on the sub-table, all true when [g] is
    [f] and all false when [g] excludes [f]. *)
Lemma resplit_same {C : Type} (f : C -> bool) (cs : list C) df :
  well_formed df -> length cs = nrows df ->
  boolean_index (boolean_index df (map f cs)) (select (map f cs) (map f cs))
  = boolean_index df (map f cs).
Proof.
  intros Hwf Hlen. apply boolean_index_all.
  - now apply boolean_index_well_formed.
  - unfold nrows, boolean_index; simpl. apply mask_length_select.
    unfold nrows in Hlen. lia.
  - apply mask_select_same.
Qed.

Lemma resplit_other {C : Type} (f g : C -> bool) (cs : list C) df :
  (forall c, f c = true -> g c = false) ->
  nrows (boolean_index (boolean_index df (map f cs)) (select (map f cs) (map g cs)))
  = 0%nat.
Proof.
  intros Hfg. apply boolean_index_none. now apply mask_select_other.
Qed.

Lemma invert_select m mask : invert (select m mask) = select m (invert mask).
Proof. unfold invert. symmetry. apply select_map. Qed.

(** X15: splitting is stable: [split_by_region] run on one of the groups it
    returned puts the whole group under its own name and leaves the three
    other groups without rows. *)
Theorem split_by_region_stable df regions name g :
  well_formed df ->
  split_by_region df = Ok regions ->
  In (name, g) regions ->
  exists regions',
    split_by_region g = Ok regions' /\
    map fst regions' = map fst regions /\
    forall name' g', In (name', g') regions' ->
      (name' = name -> g' = g) /\ (name' <> name -> nrows g' = 0%nat).
Proof.
  intros Hwf H Hin.
  destruct (split_by_region_inv _ _ H) as (district & Hd & ->).
  pose proof (getitem_well_formed _ _ _ Hwf Hd) as Hlen.
  destruct (region_masks district)
    as (C & cs & f1 & f2 & f3 & f4 & Hcs & Hone & E1 & E2 & E3 & E4).
  assert (Hcs' : length cs = nrows df) by lia.
  assert (Hex : forall c,
            (f1 c = true -> f2 c = false /\ f3 c = false /\ f4 c = false) /\
            (f2 c = true -> f1 c = false /\ f3 c = false /\ f4 c = false) /\
            (f3 c = true -> f1 c = false /\ f2 c = false /\ f4 c = false) /\
            (f4 c = true -> f1 c = false /\ f2 c = false /\ f3 c = false))
    by (intros c; apply exactly_one_excludes, Hone).
  assert (Hrun : forall m,
            split_by_region (boolean_index df m)
            = Ok [("coastal", boolean_index (boolean_index df m)
                                (select m (isin district coastal_districts)));
                  ("northern", boolean_index (boolean_index df m)
                                 (select m (isin district northern_districts)));
                  ("central", boolean_index (boolean_index df m)
                                (select m (isin district central_districts)));
                  ("other", boolean_index (boolean_index df m)
                              (select m (invert (isin district all_districts))))]).
  { intros m. unfold split_by_region.
    rewrite getitem_boolean_index, Hd. cbn [bind].
    rewrite !isin_select, invert_select. reflexivity. }
  simpl in Hin.
  destruct Hin as [Hin | [Hin | [Hin | [Hin | []]]]]; inversion Hin; subst name g;
    eexists; (split; [ apply Hrun | ]); (split; [ reflexivity | ]);
    rewrite E1, E2, E3, E4;
    intros name' g' Hin'; simpl in Hin';
    destruct Hin' as [Hin' | [Hin' | [Hin' | [Hin' | []]]]];
    inversion Hin'; subst name' g';
    (split;
     [ intros Heq; try discriminate Heq; now apply resplit_same
     | intros Hne; try (exfalso; apply Hne; reflexivity);
       apply resplit_other; intros c Hc; apply Hex in Hc; tauto ]).
Qed.

(** X16: [split_by_region] returns exactly on the tables that have a
    District column, whatever the column holds; on the others it raises
    [KeyError] naming District. *)
Theorem split_by_region_needs_district df :
  ((exists regions, split_by_region df = Ok regions) <->
   has_column "District" df = true) /\
  (has_column "District" df = false ->
   split_by_region df = Raise (KeyError "District")).
Proof.
  split; [ split | ].
  - intros [regions H]. apply split_by_region_inv in H.
    destruct H as (district & Hd & _). eapply getitem_has_column; eauto.
  - intros H. apply has_column_getitem in H. destruct H as [d Hd].
    unfold split_by_region. rewrite Hd. cbn [bind]. eauto.
  - intros H. apply no_column_getitem in H.
    unfold split_by_region. rewrite H. reflexivity.
Qed.

(** ** main *)


Section MainProperties.

Variable read_csv : string -> result DataFrame.
Variable to_csv : DataFrame -> string -> bool -> result unit.
Variable series_repr : list (string * nat) -> string.

Lemma main_after_load df :
  read_csv input_file = Ok df ->
  main read_csv to_csv series_repr =
    match clean_data df with
    | Raise e => (Raise e, cleaning_lines series_repr df)
    | Ok cleaned_df =>
        match feature_engineering cleaned_df with
        | Raise e =>
            (Raise e, cleaning_lines series_repr df ++ ["Engineering features..."])
        | Ok processed_df =>
            (Ok tt,
             cleaning_lines series_repr df
             ++ ["Engineering features...";
                 match to_csv processed_df output_file false with
                 | Ok _ => ("Processed data saved to " ++ output_file)%string
                 | Raise e => ("Error saving processed data: " ++ exn_str e)%string
                 end;
                 completed])
        end
    end.
Proof.
  intros Hread.
  unfold main, load_data, clean_data_io, save_processed_data, try_except, io_bind,
    io_lift, io_ret, print, cleaning_lines, loaded_line, copy at 1.
  rewrite Hread.
  destruct (clean_data df) as [c | e]; [ | reflexivity ].
  destruct (feature_engineering c) as [p | e]; [ | reflexivity ].
  destruct (to_csv p output_file false) as [[] | e]; reflexivity.
Qed.

End MainProperties.

(** X17: when the input file cannot be read, [main] prints the reason and
    returns normally; it does no cleaning and writes nothing, whatever the
    writer would have done. *)
Theorem main_load_failure
  (read_csv : string -> result DataFrame)
  (to_csv : DataFrame -> string -> bool -> result unit)
  (series_repr : list (string * nat) -> string) (e : exn) :
  read_csv input_file = Raise e ->
  main read_csv to_csv series_repr
  = (Ok tt, [("Error loading dataset: " ++ exn_str e)%string]).
Proof.
  intros Hread.
  unfold main, load_data, try_except, io_bind, io_lift, io_ret, print.
  rewrite Hread. reflexivity.
Qed.

Lemma main_load_failure_witness :
  main (fun _ => Raise (OtherError "FileNotFoundError" "No such file or directory"))
       (fun _ _ _ => Ok tt) (fun _ => "")
  = (Ok tt, ["Error loading dataset: No such file or directory"]).
Proof.
  apply (main_load_failure
           (fun _ => Raise (OtherError "FileNotFoundError" "No such file or directory"))
           (fun _ _ _ => Ok tt) (fun _ => "")
           (OtherError "FileNotFoundError" "No such file or directory")).
  reflexivity.
Defined.

(** X18: when loading, cleaning and feature derivation succeed, [main]
    hands the derived table to the writer, under the fixed output path and
    without the row index, and returns normally after printing the
    completion line, also when the writer failed: the failure shows only in
    the line before. *)
Theorem main_completes
  (read_csv : string -> result DataFrame)
  (to_csv : DataFrame -> string -> bool -> result unit)
  (series_repr : list (string * nat) -> string)
  (df cleaned_df processed_df : DataFrame) :
  read_csv input_file = Ok df ->
  clean_data df = Ok cleaned_df ->
  feature_engineering cleaned_df = Ok processed_df ->
  main read_csv to_csv series_repr
  = (Ok tt,
     cleaning_lines series_repr df
     ++ ["Engineering features...";
         match to_csv processed_df output_file false with
         | Ok _ => ("Processed data saved to " ++ output_file)%string
         | Raise e => ("Error saving processed data: " ++ exn_str e)%string
         end;
         completed]).
Proof.
  intros Hread Hclean Hfe.
  rewrite (main_after_load _ _ _ _ Hread), Hclean, Hfe. reflexivity.
Qed.

Lemma not_completed_cleaning series_repr df :
  ~ In completed (cleaning_lines series_repr df).
Proof.
  unfold cleaning_lines, loaded_line, completed. simpl.
  intros [H | [H | [H | []]]]; discriminate H.
Qed.

(** X19: [main] handles no failure of cleaning or feature derivation: the
    exception that [clean_data] or [feature_engineering] raises leaves [main]
    as it is, after at most four printed lines, none of them the completion
    line, and without any use of the writer. *)
Theorem main_propagates
  (read_csv : string -> result DataFrame)
  (to_csv : DataFrame -> string -> bool -> result unit)
  (series_repr : list (string * nat) -> string)
  (df : DataFrame) (e : exn) :
  read_csv input_file = Ok df ->
  (clean_data df = Raise e \/
   exists cleaned_df, clean_data df = Ok cleaned_df /\
                      feature_engineering cleaned_df = Raise e) ->
  exists out,
    main read_csv to_csv series_repr = (Raise e, out) /\
    ~ In completed out /\
    (length out <= 4)%nat /\
    forall to_csv', main read_csv to_csv' series_repr = (Raise e, out).
Proof.
  intros Hread Hfail.
  destruct Hfail as [Hc | (c & Hc & Hf)].
  - exists (cleaning_lines series_repr df).
    split; [ | split; [ apply not_completed_cleaning | split; [ simpl; lia | ] ] ].
    + rewrite (main_after_load _ _ _ _ Hread), Hc. reflexivity.
    + intros to_csv'. rewrite (main_after_load _ _ _ _ Hread), Hc. reflexivity.
  - exists (cleaning_lines series_repr df ++ ["Engineering features..."]).
    split; [ | split; [ | split; [ simpl; lia | ] ] ].
    + rewrite (main_after_load _ _ _ _ Hread), Hc, Hf. reflexivity.
    + intros Hin. apply in_app_or in Hin.
      destruct Hin as [Hin | [Hin | []]];
        [ now apply not_completed_cleaning in Hin | discriminate Hin ].
    + intros to_csv'. rewrite (main_after_load _ _ _ _ Hread), Hc, Hf. reflexivity.
Qed.

(** X20: a dataset that has a [Month] column cannot be processed: [main]
    ends with an exception, without the completion line and without any use
    of the writer. *)
Theorem main_month_fails
  (read_csv : string -> result DataFrame)
  (to_csv : DataFrame -> string -> bool -> result unit)
  (series_repr : list (string * nat) -> string)
  (df : DataFrame) :
  read_csv input_file = Ok df ->
  has_column "Month" df = true ->
  exists e out,
    main read_csv to_csv series_repr = (Raise e, out) /\
    ~ In completed out /\
    forall to_csv', main read_csv to_csv' series_repr = (Raise e, out).
Proof.
  intros Hread HM.
  destruct (clean_data df) as [c | e] eqn:Hc.
  - assert (HM' : has_column "Month" c = true).
    { apply clean_data_lengths in Hc. destruct Hc as [_ Hc].
      unfold has_column. rewrite (column_lengths_columns _ _ Hc). exact HM. }
    destruct (feature_engineering c) as [p | e] eqn:Hf.
    + apply feature_engineering_no_season in Hf. destruct Hf as [Hf _]. congruence.
    + exists e, (cleaning_lines series_repr df ++ ["Engineering features..."]).
      split; [ | split ].
      * rewrite (main_after_load _ _ _ _ Hread), Hc, Hf. reflexivity.
      * intros Hin. apply in_app_or in Hin.
        destruct Hin as [Hin | [Hin | []]];
          [ now apply not_completed_cleaning in Hin | discriminate Hin ].
      * intros to_csv'. rewrite (main_after_load _ _ _ _ Hread), Hc, Hf. reflexivity.
  - exists e, (cleaning_lines series_repr df).
    split; [ | split; [ apply not_completed_cleaning | ] ].
    + rewrite (main_after_load _ _ _ _ Hread), Hc. reflexivity.
    + intros to_csv'. rewrite (main_after_load _ _ _ _ Hread), Hc. reflexivity.
Qed.

(** ** The further theorems on the sample tables *)

Lemma feature_engineering_missing_column_witness :
  feature_engineering sample_no_drought = Raise (KeyError "Drought_Severity").
Proof.
  apply (feature_engineering_missing_column sample_no_drought "Drought_Severity").
  - intros name s Hin. simpl in Hin.
    repeat (destruct Hin as [<- | Hin];
            [ vm_compute; intros H; inversion H; eexists; reflexivity | ]).
    destruct Hin.
  - reflexivity.
Defined.


(** The derived cells of the sample table with gaps: row 0 lacks its
    Drought_Severity and its AQI, row 1 its Flood_Impact_Score and its
    Forest_Cover_Percent, row 2 its Year, Cyclone_Count and
    Renewable_Energy_Usage_Percent. *)
Example feature_engineering_gaps_sample :
  map (fun name => map (fun i => is_missing (num_at sample_gaps_out name i)) [0; 1; 2]%nat)
    derived_columns
  = [[false; false; true]; [true; true; true]; [true; true; true]].
Proof. reflexivity. Qed.


Lemma well_formed_sample_gaps : well_formed sample_gaps.
Proof. repeat constructor. Defined.

Lemma pipeline_derived_no_missing_witness :
  num_at sample_gaps_processed "Climate_Risk_Score" 2 <> None.
Proof.
  apply (pipeline_derived_no_missing sample_gaps sample_gaps_cleaned
           sample_gaps_processed 2%nat "Climate_Risk_Score").
  - apply has_duplicates_NoDup. reflexivity.
  - exact well_formed_sample_gaps.
  - vm_compute. reflexivity.
  - vm_compute. reflexivity.
  - intros c Hin. simpl in Hin.
    repeat (destruct Hin as [<- | Hin];
            [ eexists; eexists; split; [ reflexivity | simpl; eauto ] | ]).
    destruct Hin.
  - unfold nrows, sample_gaps. simpl. lia.
  - simpl. tauto.
Defined.

(** On the sample table with gaps every column has a missing cell before
    cleaning; after cleaning and feature derivation no cell is missing. *)
Example pipeline_gaps_sample :
  map (fun c => isnull_sum (snd c)) (frame_cols sample_gaps) = [1; 1; 1; 1; 1; 1; 1]%nat /\
  map (fun c => isnull_sum (snd c)) (frame_cols sample_gaps_processed)
  = [0; 0; 0; 0; 0; 0; 0; 0; 0; 0]%nat.
Proof. split; reflexivity. Qed.

Lemma split_by_region_stable_witness :
  exists regions',
    split_by_region sample_coastal = Ok regions' /\
    map fst regions' = map fst sample_regions /\
    forall name' g', In (name', g') regions' ->
      (name' = "coastal" -> g' = sample_coastal) /\
      (name' <> "coastal" -> nrows g' = 0%nat).
Proof.
  apply (split_by_region_stable sample_districts sample_regions "coastal" sample_coastal).
  - exact well_formed_sample_districts.
  - reflexivity.
  - left. reflexivity.
Defined.

Lemma split_by_region_needs_district_witness :
  split_by_region sample_outlier = Raise (KeyError "District").
Proof.
  apply (proj2 (split_by_region_needs_district sample_outlier)). reflexivity.
Defined.

Lemma main_completes_witness :
  main read_sample_row write_denied no_repr
  = (Ok tt,
     cleaning_lines no_repr sample_row
     ++ ["Engineering features...";
         match write_denied sample_row_processed output_file false with
         | Ok _ => ("Processed data saved to " ++ output_file)%string
         | Raise e => ("Error saving processed data: " ++ exn_str e)%string
         end;
         completed]).
Proof.
  apply (main_completes read_sample_row write_denied no_repr
           sample_row sample_row_cleaned sample_row_processed).
  - reflexivity.
  - vm_compute. reflexivity.
  - vm_compute. reflexivity.
Defined.

Lemma main_propagates_witness :
  exists out,
    main read_sample_all_missing_text write_denied no_repr = (Raise (KeyError "0"), out) /\
    ~ In completed out /\
    (length out <= 4)%nat /\
    forall to_csv',
      main read_sample_all_missing_text to_csv' no_repr = (Raise (KeyError "0"), out).
Proof.
  apply (main_propagates read_sample_all_missing_text write_denied no_repr
           sample_all_missing_text (KeyError "0")).
  - reflexivity.
  - left. vm_compute. reflexivity.
Defined.

Lemma main_month_fails_witness :
  exists e out,
    main read_sample_month write_denied no_repr = (Raise e, out) /\
    ~ In completed out /\
    forall to_csv', main read_sample_month to_csv' no_repr = (Raise e, out).
Proof.
  apply (main_month_fails read_sample_month write_denied no_repr sample_row_month);
    reflexivity.
Defined.

(** * Properties over machine numbers *)

(** ** The order of binary64 numbers *)

Lemma key_compare_refl k : Machine.key_compare k k = Eq.
Proof.
  destruct k as [[a b] c]. unfold Machine.key_compare.
  now rewrite !Z.compare_refl.
Qed.

Lemma key_compare_antisym k k' :
  Machine.key_compare k' k = CompOpp (Machine.key_compare k k').
Proof.
  destruct k as [[a b] c], k' as [[a' b'] c']. unfold Machine.key_compare.
  rewrite (Z.compare_antisym a a'), (Z.compare_antisym b b'), (Z.compare_antisym c c').
  destruct (a ?= a')%Z, (b ?= b')%Z, (c ?= c')%Z; reflexivity.
Qed.

Lemma key_compare_eq k k' : Machine.key_compare k k' = Eq -> k = k'.
Proof.
  destruct k as [[a b] c], k' as [[a' b'] c']. unfold Machine.key_compare.
  destruct (Z.compare_spec a a'); try discriminate.
  destruct (Z.compare_spec b b'); try discriminate.
  destruct (Z.compare_spec c c'); try discriminate.
  intros _. congruence.
Qed.

Lemma key_compare_lt k k' :
  Machine.key_compare k k' = Lt <-> Machine.key_lt k k'.
Proof.
  destruct k as [[a b] c], k' as [[a' b'] c'].
  unfold Machine.key_compare, Machine.key_lt.
  destruct (Z.compare_spec a a'); destruct (Z.compare_spec b b');
    destruct (Z.compare_spec c c'); split; intros Hc; try discriminate;
    try reflexivity; try lia.
Qed.

Lemma key_compare_cases k k' :
  (Machine.key_compare k k' = Lt /\ Machine.key_lt k k') \/
  (Machine.key_compare k k' = Eq /\ k = k') \/
  (Machine.key_compare k k' = Gt /\ Machine.key_lt k' k).
Proof.
  destruct (Machine.key_compare k k') eqn:E.
  - right. left. split; [ reflexivity | now apply key_compare_eq ].
  - left. split; [ reflexivity | now apply key_compare_lt ].
  - right. right. split; [ reflexivity | ].
    apply key_compare_lt. rewrite key_compare_antisym, E. reflexivity.
Qed.

Lemma key_lt_irrefl k : ~ Machine.key_lt k k.
Proof. destruct k as [[a b] c]. unfold Machine.key_lt. lia. Qed.

Lemma key_lt_trans k1 k2 k3 :
  Machine.key_lt k1 k2 -> Machine.key_lt k2 k3 -> Machine.key_lt k1 k3.
Proof.
  destruct k1 as [[a1 b1] c1], k2 as [[a2 b2] c2], k3 as [[a3 b3] c3].
  unfold Machine.key_lt. lia.
Qed.

Lemma SFcompare_key x y :
  x <> S754_nan -> y <> S754_nan ->
  SFcompare x y = Some (Machine.key_compare (Machine.sf_key x) (Machine.sf_key y)).
Proof.
  intros Hx Hy.
  destruct x as [sx | sx | | sx mx ex], y as [sy | sy | | sy my ey];
    try congruence; try (destruct sx; reflexivity); try (destruct sy; reflexivity);
    try (destruct sx, sy; reflexivity).
  destruct sx, sy; try reflexivity.
  unfold SFcompare, Machine.sf_key, Machine.key_compare.
  change (-1 ?= -1)%Z with Eq. cbv iota.
  rewrite Z.compare_opp, (Z.compare_antisym ex ey).
  destruct (ex ?= ey)%Z; reflexivity.
Qed.

Lemma is_nan_spec x : is_nan x = true <-> Prim2SF x = S754_nan.
Proof.
  unfold is_nan. rewrite FloatAxioms.eqb_spec. unfold SFeqb.
  destruct (Prim2SF x) as [s | s | | s m e] eqn:E.
  - simpl. split; discriminate.
  - destruct s; simpl; split; discriminate.
  - simpl. split; reflexivity.
  - rewrite SFcompare_key by discriminate. rewrite key_compare_refl.
    simpl. split; discriminate.
Qed.

Lemma is_number_spec x : is_nan x = false <-> Prim2SF x <> S754_nan.
Proof.
  rewrite <- is_nan_spec. destruct (is_nan x); split; congruence.
Qed.

(** The three comparisons of two numbers, by their keys. *)
Lemma float_compare x y :
  is_nan x = false -> is_nan y = false ->
  (x <? y)%float
  = match Machine.key_compare (Machine.fkey x) (Machine.fkey y) with
    | Lt => true | _ => false end /\
  (x <=? y)%float
  = match Machine.key_compare (Machine.fkey x) (Machine.fkey y) with
    | Gt => false | _ => true end /\
  (x =? y)%float
  = match Machine.key_compare (Machine.fkey x) (Machine.fkey y) with
    | Eq => true | _ => false end.
Proof.
  intros Hx Hy. apply is_number_spec in Hx. apply is_number_spec in Hy.
  rewrite FloatAxioms.ltb_spec, FloatAxioms.leb_spec, FloatAxioms.eqb_spec. unfold SFltb, SFleb, SFeqb, Machine.fkey.
  rewrite (SFcompare_key _ _ Hx Hy).
  destruct (Machine.key_compare _ _); auto.
Qed.

(** A comparison with NaN is false. *)
Lemma float_compare_nan x y :
  is_nan x = true \/ is_nan y = true ->
  (x <? y)%float = false /\ (x <=? y)%float = false /\ (x =? y)%float = false.
Proof.
  intros H.
  rewrite FloatAxioms.ltb_spec, FloatAxioms.leb_spec, FloatAxioms.eqb_spec. unfold SFltb, SFleb, SFeqb.
  assert (E : SFcompare (Prim2SF x) (Prim2SF y) = None).
  { destruct H as [H | H]; apply is_nan_spec in H; rewrite H.
    - reflexivity.
    - now destruct (Prim2SF x). }
  rewrite E. auto.
Qed.

Lemma ltb_numbers x y : (x <? y)%float = true -> is_nan x = false /\ is_nan y = false.
Proof.
  intros H. destruct (is_nan x) eqn:Ex.
  - destruct (float_compare_nan x y (or_introl Ex)) as (E & _). congruence.
  - destruct (is_nan y) eqn:Ey; auto.
    destruct (float_compare_nan x y (or_intror Ey)) as (E & _). congruence.
Qed.

Lemma leb_numbers x y : (x <=? y)%float = true -> is_nan x = false /\ is_nan y = false.
Proof.
  intros H. destruct (is_nan x) eqn:Ex.
  - destruct (float_compare_nan x y (or_introl Ex)) as (_ & E & _). congruence.
  - destruct (is_nan y) eqn:Ey; auto.
    destruct (float_compare_nan x y (or_intror Ey)) as (_ & E & _). congruence.
Qed.

Lemma eqb_numbers x y : (x =? y)%float = true -> is_nan x = false /\ is_nan y = false.
Proof.
  intros H. destruct (is_nan x) eqn:Ex.
  - destruct (float_compare_nan x y (or_introl Ex)) as (_ & _ & E). congruence.
  - destruct (is_nan y) eqn:Ey; auto.
    destruct (float_compare_nan x y (or_intror Ey)) as (_ & _ & E). congruence.
Qed.

Lemma ltb_key x y :
  (x <? y)%float = true <->
  is_nan x = false /\ is_nan y = false /\ Machine.key_lt (Machine.fkey x) (Machine.fkey y).
Proof.
  split.
  - intros H. destruct (ltb_numbers _ _ H) as [Hx Hy].
    destruct (float_compare x y Hx Hy) as (E & _). rewrite E in H.
    repeat split; auto. apply key_compare_lt.
    destruct (Machine.key_compare _ _); congruence.
  - intros (Hx & Hy & Hk). destruct (float_compare x y Hx Hy) as (E & _).
    rewrite E. apply key_compare_lt in Hk. now rewrite Hk.
Qed.

Lemma eqb_key x y :
  (x =? y)%float = true <->
  is_nan x = false /\ is_nan y = false /\ Machine.fkey x = Machine.fkey y.
Proof.
  split.
  - intros H. destruct (eqb_numbers _ _ H) as [Hx Hy].
    destruct (float_compare x y Hx Hy) as (_ & _ & E). rewrite E in H.
    repeat split; auto. apply key_compare_eq.
    destruct (Machine.key_compare _ _); congruence.
  - intros (Hx & Hy & Hk). destruct (float_compare x y Hx Hy) as (_ & _ & E).
    rewrite E, Hk, key_compare_refl. reflexivity.
Qed.

Lemma leb_key x y :
  (x <=? y)%float = true <->
  is_nan x = false /\ is_nan y = false /\
  ~ Machine.key_lt (Machine.fkey y) (Machine.fkey x).
Proof.
  split.
  - intros H. destruct (leb_numbers _ _ H) as [Hx Hy].
    destruct (float_compare x y Hx Hy) as (_ & E & _). rewrite E in H.
    repeat split; auto. intros Hlt.
    destruct (key_compare_cases (Machine.fkey x) (Machine.fkey y))
      as [[Ec Hk] | [[Ec Hk] | [Ec Hk]]].
    + exact (key_lt_irrefl _ (key_lt_trans _ _ _ Hk Hlt)).
    + rewrite Hk in Hlt. exact (key_lt_irrefl _ Hlt).
    + rewrite Ec in H. discriminate.
  - intros (Hx & Hy & Hk). destruct (float_compare x y Hx Hy) as (_ & E & _).
    rewrite E.
    destruct (key_compare_cases (Machine.fkey x) (Machine.fkey y))
      as [[Ec _] | [[Ec _] | [Ec Hgt]]]; rewrite Ec; auto; contradiction.
Qed.


Lemma leb_not_ltb x y : (x <=? y)%float = true -> (y <? x)%float = false.
Proof.
  intros H. apply leb_key in H. destruct H as (_ & _ & H).
  destruct (y <? x)%float eqn:E; [ | reflexivity ].
  apply ltb_key in E. destruct E as (_ & _ & E). contradiction.
Qed.


Lemma eqb_ltb_r x y z : (x =? y)%float = true -> (z <? x)%float = (z <? y)%float.
Proof.
  intros H. apply eqb_key in H. destruct H as (Hx & Hy & Hk).
  destruct (is_nan z) eqn:Hz.
  - destruct (float_compare_nan z x (or_introl Hz)) as (-> & _).
    destruct (float_compare_nan z y (or_introl Hz)) as (-> & _). reflexivity.
  - destruct (float_compare z x Hz Hx) as (-> & _).
    destruct (float_compare z y Hz Hy) as (-> & _). now rewrite Hk.
Qed.

Lemma eqb_refl_number x : is_nan x = false -> (x =? x)%float = true.
Proof. intros H. apply eqb_key. auto. Qed.

(** ** Columns of a table of machine numbers *)

Lemma machine_lookup_assign_same col s cols :
  Machine.lookup_col col (Machine.assign_col col s cols) = Some s.
Proof.
  induction cols as [ | [name s0] rest IH ]; simpl.
  - now rewrite String.eqb_refl.
  - destruct (String.eqb name col) eqn:E; simpl; rewrite E; auto.
Qed.

Lemma machine_lookup_assign_other col col' s cols :
  col <> col' ->
  Machine.lookup_col col' (Machine.assign_col col s cols) = Machine.lookup_col col' cols.
Proof.
  intros Hne.
  induction cols as [ | [name s0] rest IH ]; simpl.
  - destruct (String.eqb col col') eqn:E; auto.
    apply String.eqb_eq in E. contradiction.
  - destruct (String.eqb name col) eqn:E; simpl.
    + apply String.eqb_eq in E. subst name.
      destruct (String.eqb col col') eqn:E'; auto.
      apply String.eqb_eq in E'. contradiction.
    + now rewrite IH.
Qed.

Lemma machine_getitem_setitem_same df col s :
  Machine.getitem (Machine.setitem df col s) col = Ok s.
Proof.
  unfold Machine.getitem, Machine.setitem; simpl.
  now rewrite machine_lookup_assign_same.
Qed.

Lemma machine_getitem_setitem_other df col col' s :
  col <> col' ->
  Machine.getitem (Machine.setitem df col s) col' = Machine.getitem df col'.
Proof.
  intros Hne. unfold Machine.getitem, Machine.setitem; simpl.
  now rewrite machine_lookup_assign_other.
Qed.

Lemma machine_has_column_setitem_other df col col' s :
  col <> col' ->
  Machine.has_column col' (Machine.setitem df col s) = Machine.has_column col' df.
Proof.
  intros Hne. unfold Machine.has_column, Machine.columns, Machine.setitem; simpl.
  induction (Machine.frame_cols df) as [ | [name s0] rest IH ]; simpl.
  - destruct (String.eqb col' col) eqn:E; auto.
    apply String.eqb_eq in E. congruence.
  - destruct (String.eqb name col) eqn:E; simpl; [ reflexivity | now rewrite IH ].
Qed.

Lemma machine_getitem_lookup df col s :
  Machine.getitem df col = Ok s <-> Machine.lookup_col col (Machine.frame_cols df) = Some s.
Proof.
  unfold Machine.getitem.
  destruct (Machine.lookup_col col (Machine.frame_cols df)); split; congruence.
Qed.

Lemma machine_getitem_in_columns df col s :
  Machine.getitem df col = Ok s -> In col (Machine.columns df).
Proof.
  unfold Machine.getitem, Machine.columns.
  induction (Machine.frame_cols df) as [ | [name s0] rest IH ]; simpl; [ discriminate | ].
  destruct (String.eqb name col) eqn:E.
  - apply String.eqb_eq in E. auto.
  - auto.
Qed.


Lemma machine_assign_col_names col s s' cols :
  Machine.lookup_col col cols = Some s ->
  map fst (Machine.assign_col col s' cols) = map fst cols.
Proof.
  induction cols as [ | [name s0] rest IH ]; simpl; [ discriminate | ].
  destruct (String.eqb name col); simpl; [ reflexivity | ].
  intros H. now rewrite IH.
Qed.

Ltac machine_frame :=
  repeat first
    [ rewrite machine_getitem_setitem_same
    | rewrite machine_getitem_setitem_other by names_differ
    | rewrite machine_has_column_setitem_other by names_differ ].

(** ** Operations on columns, cell by cell *)

Lemma no_text_cells (cells : list (option string)) :
  existsb is_present cells = false -> map Machine.TextCell cells
  = map (fun _ => Machine.TextCell None) cells.
Proof.
  induction cells as [ | [x | ] rest IH ]; simpl; [ reflexivity | discriminate | ].
  intros H. now rewrite IH.
Qed.

Lemma numbers_only_cells cells s' :
  Machine.numbers_only cells = Ok s' ->
  Machine.cells_of s' = map (fun _ => Machine.TextCell None) cells.
Proof.
  unfold Machine.numbers_only.
  destruct (existsb is_present cells) eqn:E; [ discriminate | ].
  intros H. inversion H; subst s'. simpl. now apply no_text_cells.
Qed.

Lemma cells_floordiv s k s' :
  Machine.floordiv_scalar s k = Ok s' ->
  Machine.cells_of s' = map (Machine.floordiv_cell k) (Machine.cells_of s).
Proof.
  destruct s as [cells | cells | cells]; simpl; intros H.
  - inversion H; subst s'. simpl. now rewrite !map_map.
  - inversion H; subst s'. simpl. now rewrite !map_map.
  - rewrite (numbers_only_cells _ _ H), map_map. reflexivity.
Qed.

Lemma cells_mul s k s' :
  Machine.mul_scalar s k = Ok s' ->
  Machine.cells_of s' = map (Machine.mul_cell k) (Machine.cells_of s).
Proof.
  destruct s as [cells | cells | cells], k as [k | k]; simpl; intros H;
    try (inversion H; subst s'; simpl; now rewrite !map_map).
  rewrite (numbers_only_cells _ _ H), map_map. reflexivity.
Qed.

Lemma cells_rsub k s s' :
  Machine.rsub_scalar k s = Ok s' ->
  Machine.cells_of s' = map (Machine.rsub_cell k) (Machine.cells_of s).
Proof.
  destruct s as [cells | cells | cells]; simpl; intros H;
    try (inversion H; subst s'; simpl; now rewrite !map_map).
  rewrite (numbers_only_cells _ _ H), map_map. reflexivity.
Qed.

Lemma cells_div s k s' :
  Machine.div_scalar s k = Ok s' ->
  Machine.cells_of s' = map (Machine.div_cell k) (Machine.cells_of s).
Proof.
  destruct s as [cells | cells | cells]; simpl; intros H;
    try (inversion H; subst s'; simpl; now rewrite !map_map).
  rewrite (numbers_only_cells _ _ H), map_map. reflexivity.
Qed.

Lemma nth_error_map_combine {A B C : Type} (f : A * B -> C) (l1 : list A) (l2 : list B) i :
  nth_error (map f (combine l1 l2)) i
  = match nth_error l1 i, nth_error l2 i with
    | Some a, Some b => Some (f (a, b))
    | _, _ => None
    end.
Proof.
  revert l2 i. induction l1 as [ | x l1 IH ]; intros l2 i.
  - simpl. now destruct i.
  - destruct l2 as [ | y l2 ].
    + simpl. destruct i; simpl; [ reflexivity | now destruct (nth_error l1 i) ].
    + destruct i; simpl; [ reflexivity | apply IH ].
Qed.

Lemma add_objects_nth c1 :
  forall c2 cells i,
    Machine.add_objects c1 c2 = Ok cells ->
    nth_error (map Machine.TextCell cells) i
    = match nth_error (map Machine.TextCell c1) i, nth_error (map Machine.TextCell c2) i with
      | Some a, Some b => Some (Machine.add_cell a b)
      | _, _ => None
      end.
Proof.
  induction c1 as [ | a r1 IH ]; intros c2 cells i H.
  - simpl in H. inversion H; subst cells. now destruct i.
  - destruct c2 as [ | b r2 ].
    + simpl in H. inversion H; subst cells.
      destruct i; simpl; [ reflexivity | ].
      now destruct (nth_error (map Machine.TextCell r1) i).
    + simpl in H.
      destruct a as [x | ], b as [y | ]; try discriminate;
        destruct (Machine.add_objects r1 r2) as [rest | ] eqn:E; try discriminate;
        simpl in H; inversion H; subst cells;
        (destruct i; simpl; [ reflexivity | now apply IH ]).
Qed.

Lemma add_numbers_nth {A : Type} (cell_of : A -> Machine.Cell) objects (others : list A) s' i :
  (forall c x, Machine.add_cell (Machine.TextCell c) (cell_of x) = Machine.TextCell None) ->
  Machine.add_numbers objects others = Ok s' ->
  nth_error (Machine.cells_of s') i
  = match nth_error (map Machine.TextCell objects) i, nth_error (map cell_of others) i with
    | Some a, Some b => Some (Machine.add_cell a b)
    | _, _ => None
    end.
Proof.
  intros Hadd. unfold Machine.add_numbers.
  destruct (existsb is_present objects); [ discriminate | ].
  intros H. inversion H; subst s'. simpl.
  rewrite map_map, nth_error_map_combine, !nth_error_map.
  destruct (nth_error objects i), (nth_error others i); cbn [option_map];
    try reflexivity.
  now rewrite Hadd.
Qed.

Lemma add_numbers_nth_r {A : Type} (cell_of : A -> Machine.Cell) objects (others : list A) s' i :
  (forall c x, Machine.add_cell (cell_of x) (Machine.TextCell c) = Machine.TextCell None) ->
  Machine.add_numbers objects others = Ok s' ->
  nth_error (Machine.cells_of s') i
  = match nth_error (map cell_of others) i, nth_error (map Machine.TextCell objects) i with
    | Some a, Some b => Some (Machine.add_cell a b)
    | _, _ => None
    end.
Proof.
  intros Hadd. unfold Machine.add_numbers.
  destruct (existsb is_present objects); [ discriminate | ].
  intros H. inversion H; subst s'. simpl.
  rewrite map_map, nth_error_map_combine, !nth_error_map.
  destruct (nth_error objects i), (nth_error others i); cbn [option_map];
    try reflexivity.
  now rewrite Hadd.
Qed.

Lemma cells_add s1 s2 s' i :
  Machine.add_series s1 s2 = Ok s' ->
  nth_error (Machine.cells_of s') i
  = match nth_error (Machine.cells_of s1) i, nth_error (Machine.cells_of s2) i with
    | Some a, Some b => Some (Machine.add_cell a b)
    | _, _ => None
    end.
Proof.
  destruct s1 as [c1 | c1 | c1], s2 as [c2 | c2 | c2]; cbn [Machine.add_series];
    intros H;
    try (inversion H; subst s'; cbn [Machine.cells_of];
         rewrite map_map, nth_error_map_combine, !nth_error_map;
         destruct (nth_error c1 i), (nth_error c2 i); reflexivity).
  - cbn [Machine.cells_of]. apply (add_numbers_nth_r Machine.IntCell); auto.
  - cbn [Machine.cells_of]. apply (add_numbers_nth_r Machine.FloatCell); auto.
  - cbn [Machine.cells_of]. apply (add_numbers_nth Machine.IntCell); auto.
    intros [x | ] y; reflexivity.
  - cbn [Machine.cells_of]. apply (add_numbers_nth Machine.FloatCell); auto.
    intros [x | ] y; reflexivity.
  - destruct (Machine.add_objects c1 c2) as [cells | ] eqn:E; [ | discriminate ].
    simpl in H. inversion H; subst s'. cbn [Machine.cells_of].
    now apply add_objects_nth.
Qed.

(** ** feature_engineering over machine numbers *)

Lemma machine_cut_season_raises month :
  exists e, Machine.cut month Machine.season_bins season_labels true = Raise e.
Proof.
  unfold Machine.cut.
  destruct month as [cells | cells | cells]; cbn [bind];
    try (eexists; reflexivity).
  destruct (existsb is_present cells); eexists; reflexivity.
Qed.

(** The shape of every successful run: the columns it reads are there, the
    operations on them return, there is no [Month] column, and the result is
    the input with the three derived columns assigned. *)
Lemma machine_feature_engineering_inv df out :
  Machine.feature_engineering df = Ok out ->
  exists year tens decade flood r1 drought r2 r12 cyclone r3 risk
         forest h1 aqi inv h2 h12 renew h3 hsum health,
    (Machine.getitem df "Year" = Ok year /\
     Machine.floordiv_scalar year 10 = Ok tens /\
     Machine.mul_scalar tens (Machine.PyInt 10) = Ok decade) /\
    (Machine.getitem df "Flood_Impact_Score" = Ok flood /\
     Machine.mul_scalar flood (Machine.PyFloat 0.3) = Ok r1 /\
     Machine.getitem df "Drought_Severity" = Ok drought /\
     Machine.mul_scalar drought (Machine.PyFloat 0.3) = Ok r2 /\
     Machine.add_series r1 r2 = Ok r12 /\
     Machine.getitem df "Cyclone_Count" = Ok cyclone /\
     Machine.mul_scalar cyclone (Machine.PyFloat 0.4) = Ok r3 /\
     Machine.add_series r12 r3 = Ok risk) /\
    (Machine.getitem df "Forest_Cover_Percent" = Ok forest /\
     Machine.mul_scalar forest (Machine.PyFloat 0.4) = Ok h1 /\
     Machine.getitem df "AQI" = Ok aqi /\
     Machine.rsub_scalar 100 aqi = Ok inv /\
     Machine.mul_scalar inv (Machine.PyFloat 0.3) = Ok h2 /\
     Machine.add_series h1 h2 = Ok h12 /\
     Machine.getitem df "Renewable_Energy_Usage_Percent" = Ok renew /\
     Machine.mul_scalar renew (Machine.PyFloat 0.3) = Ok h3 /\
     Machine.add_series h12 h3 = Ok hsum /\
     Machine.div_scalar hsum 100 = Ok health) /\
    Machine.has_column "Month" df = false /\
    out = Machine.setitem
            (Machine.setitem (Machine.setitem df "Decade" decade)
               "Climate_Risk_Score" risk)
            "Environmental_Health_Index" health.
Proof.
  intros H. unfold Machine.feature_engineering, Machine.copy in H.
  repeat inv_bind H.
  repeat match goal with
  | E : Machine.getitem (Machine.setitem _ _ _) _ = Ok _ |- _ =>
      rewrite machine_getitem_setitem_other in E by names_differ
  end.
  rewrite !machine_has_column_setitem_other in H by names_differ.
  destruct (Machine.has_column "Month" df) eqn:HM.
  - exfalso.
    destruct (Machine.getitem _ "Month") as [month | ]; cbn [bind] in H;
      [ | discriminate ].
    destruct (machine_cut_season_raises month) as [e He]. rewrite He in H. discriminate.
  - inversion H; subst out.
    do 21 eexists.
    repeat split; eauto.
Qed.

Lemma machine_cell_getitem df col s i :
  Machine.getitem df col = Ok s ->
  Machine.cell df col i = nth_error (Machine.cells_of s) i.
Proof. unfold Machine.cell. now intros ->. Qed.

(** Row by row, each derived cell as a function of the input cells of the
    same row; the other columns are those of the input. *)
Lemma machine_feature_engineering_cells df out i :
  Machine.feature_engineering df = Ok out ->
  (forall col, ~ In col derived_columns ->
     Machine.getitem out col = Machine.getitem df col) /\
  Machine.cell out "Decade" i
  = option_map (fun y => Machine.mul_cell (Machine.PyInt 10) (Machine.floordiv_cell 10 y))
      (Machine.cell df "Year" i) /\
  Machine.cell out "Climate_Risk_Score" i
  = match Machine.cell df "Flood_Impact_Score" i, Machine.cell df "Drought_Severity" i,
          Machine.cell df "Cyclone_Count" i with
    | Some f, Some d, Some c =>
        Some (Machine.add_cell
                (Machine.add_cell (Machine.mul_cell (Machine.PyFloat 0.3) f)
                                  (Machine.mul_cell (Machine.PyFloat 0.3) d))
                (Machine.mul_cell (Machine.PyFloat 0.4) c))
    | _, _, _ => None
    end /\
  Machine.cell out "Environmental_Health_Index" i
  = match Machine.cell df "Forest_Cover_Percent" i, Machine.cell df "AQI" i,
          Machine.cell df "Renewable_Energy_Usage_Percent" i with
    | Some f, Some a, Some r =>
        Some (Machine.div_cell 100
                (Machine.add_cell
                   (Machine.add_cell
                      (Machine.mul_cell (Machine.PyFloat 0.4) f)
                      (Machine.mul_cell (Machine.PyFloat 0.3) (Machine.rsub_cell 100 a)))
                   (Machine.mul_cell (Machine.PyFloat 0.3) r)))
    | _, _, _ => None
    end.
Proof.
  intros H.
  destruct (machine_feature_engineering_inv df out H)
    as (year & tens & decade & flood & r1 & drought & r2 & r12 & cyclone & r3 & risk
        & forest & h1 & aqi & inv & h2 & h12 & renew & h3 & hsum & health
        & (Gy & Ey & Ed) & (Gf & E1 & Gd & E2 & E12 & Gc & E3 & Er)
        & (Go & F1 & Ga & Fi & F2 & F12 & Gr & F3 & Fs & Fh) & _ & ->).
  split; [ | split; [ | split ] ].
  - intros col Hnot. simpl in Hnot.
    rewrite !machine_getitem_setitem_other; auto; intros E; apply Hnot; auto.
  - unfold Machine.cell at 1. machine_frame.
    rewrite (machine_cell_getitem _ _ _ _ Gy).
    rewrite (cells_mul _ _ _ Ed), (cells_floordiv _ _ _ Ey), map_map, nth_error_map.
    reflexivity.
  - unfold Machine.cell at 1. machine_frame.
    rewrite (machine_cell_getitem _ _ _ _ Gf), (machine_cell_getitem _ _ _ _ Gd),
      (machine_cell_getitem _ _ _ _ Gc).
    rewrite (cells_add _ _ _ _ Er), (cells_add _ _ _ _ E12).
    rewrite (cells_mul _ _ _ E1), (cells_mul _ _ _ E2), (cells_mul _ _ _ E3).
    rewrite !nth_error_map.
    destruct (nth_error (Machine.cells_of flood) i),
      (nth_error (Machine.cells_of drought) i),
      (nth_error (Machine.cells_of cyclone) i); reflexivity.
  - unfold Machine.cell at 1. machine_frame.
    rewrite (machine_cell_getitem _ _ _ _ Go), (machine_cell_getitem _ _ _ _ Ga),
      (machine_cell_getitem _ _ _ _ Gr).
    rewrite (cells_div _ _ _ Fh), nth_error_map.
    rewrite (cells_add _ _ _ _ Fs), (cells_add _ _ _ _ F12).
    rewrite (cells_mul _ _ _ F1), (cells_mul _ _ _ F2), (cells_mul _ _ _ F3),
      (cells_rsub _ _ _ Fi).
    rewrite !nth_error_map.
    destruct (nth_error (Machine.cells_of forest) i),
      (nth_error (Machine.cells_of aqi) i),
      (nth_error (Machine.cells_of renew) i); reflexivity.
Qed.

Lemma wrap64_small z :
  (Machine.int64_min <= z <= Machine.int64_max)%Z -> Machine.wrap64 z = z.
Proof.
  unfold Machine.wrap64, Machine.int64_min, Machine.int64_max. intros H.
  rewrite Z.mod_small; lia.
Qed.

Lemma floor_tens_range (y : Z) :
  (-9223372036854775800 <= y <= 9223372036854775807)%Z ->
  (Machine.int64_min <= y / 10 * 10 <= Machine.int64_max)%Z /\
  (y / 10 * 10 <= y < y / 10 * 10 + 10)%Z.
Proof.
  unfold Machine.int64_min, Machine.int64_max. intros H.
  pose proof (Z.div_mod y 10 ltac:(lia)) as E.
  pose proof (Z.mod_pos_bound y 10 ltac:(lia)) as B.
  lia.
Qed.

(** C5: in every table returned by [feature_engineering], row by row and in
    the arithmetic of the columns: the columns other than the three derived
    ones are those of the input; the Decade of an int64 Year is
    [(Year // 10) * 10] wrapped around to int64, which is
    [(Year // 10) * 10] itself from the year -9223372036854775800 on; the
    Decade of a float64 Year is numpy's [floor_divide(Year, 10)] times 10;
    Climate_Risk_Score is
    [Flood_Impact_Score * 0.3 + Drought_Severity * 0.3 + Cyclone_Count * 0.4]
    and Environmental_Health_Index is
    [(Forest_Cover_Percent * 0.4 + (100 - AQI) * 0.3
      + Renewable_Energy_Usage_Percent * 0.3) / 100],
    each product, sum and quotient rounded to binary64 in this order, the
    cells of an int64 column converted to binary64 first and [100 - AQI]
    taken in int64 on an int64 AQI; a NaN of an object column gives NaN.
    The row of 1995 with scores 5, 2, 1 and 20, 150, 10 gives 1990, 2.5
    and -0.04. *)
Theorem feature_engineering_formulas :
  (forall df out, Machine.feature_engineering df = Ok out ->
   forall i : nat,
     (forall col, ~ In col derived_columns ->
        Machine.cell out col i = Machine.cell df col i) /\
     (forall y : Z,
        Machine.cell df "Year" i = Some (Machine.IntCell y) ->
        Machine.cell out "Decade" i
        = Some (Machine.IntCell (Machine.wrap64 (y / 10 * 10))) /\
        ((-9223372036854775800 <= y <= 9223372036854775807)%Z ->
         Machine.cell out "Decade" i = Some (Machine.IntCell (y / 10 * 10)))) /\
     (forall y : float,
        Machine.cell df "Year" i = Some (Machine.FloatCell y) ->
        Machine.cell out "Decade" i
        = Some (Machine.FloatCell (Machine.floor_divide y 10 * 10))) /\
     (forall f d c x y z,
        Machine.cell df "Flood_Impact_Score" i = Some f ->
        Machine.cell df "Drought_Severity" i = Some d ->
        Machine.cell df "Cyclone_Count" i = Some c ->
        Machine.number f = Some x -> Machine.number d = Some y ->
        Machine.number c = Some z ->
        Machine.cell out "Climate_Risk_Score" i
        = Some (Machine.FloatCell (x * 0.3 + y * 0.3 + z * 0.4))) /\
     (forall f a r x z,
        Machine.cell df "Forest_Cover_Percent" i = Some f ->
        Machine.cell df "AQI" i = Some a ->
        Machine.cell df "Renewable_Energy_Usage_Percent" i = Some r ->
        Machine.number f = Some x -> Machine.number r = Some z ->
        (forall k : Z, a = Machine.IntCell k ->
           Machine.cell out "Environmental_Health_Index" i
           = Some (Machine.FloatCell
                     ((x * 0.4
                       + Machine.float_of_int64 (Machine.wrap64 (100 - k)) * 0.3
                       + z * 0.3) / 100)) /\
           ((-9223372036854775707 <= k <= 9223372036854775807)%Z ->
            Machine.wrap64 (100 - k) = (100 - k)%Z)) /\
        (forall u : float, a = Machine.FloatCell u ->
           Machine.cell out "Environmental_Health_Index" i
           = Some (Machine.FloatCell ((x * 0.4 + (100 - u) * 0.3 + z * 0.3) / 100)))) /\
     (forall t, Machine.cell df "Year" i = Some (Machine.TextCell t) ->
        Machine.cell out "Decade" i = Some (Machine.TextCell None)) /\
     (forall f d c,
        Machine.cell df "Flood_Impact_Score" i = Some f ->
        Machine.cell df "Drought_Severity" i = Some d ->
        Machine.cell df "Cyclone_Count" i = Some c ->
        Machine.number f = None \/ Machine.number d = None \/ Machine.number c = None ->
        Machine.cell out "Climate_Risk_Score" i = Some (Machine.TextCell None)) /\
     (forall f a r,
        Machine.cell df "Forest_Cover_Percent" i = Some f ->
        Machine.cell df "AQI" i = Some a ->
        Machine.cell df "Renewable_Energy_Usage_Percent" i = Some r ->
        Machine.number f = None \/ Machine.number a = None \/ Machine.number r = None ->
        Machine.cell out "Environmental_Health_Index" i = Some (Machine.TextCell None)))
  /\
  (Machine.feature_engineering Machine.sample_row = Ok Machine.sample_row_out /\
   Machine.cell Machine.sample_row_out "Decade" 0 = Some (Machine.IntCell 1990) /\
   Machine.cell Machine.sample_row_out "Climate_Risk_Score" 0
   = Some (Machine.FloatCell 2.5) /\
   Machine.cell Machine.sample_row_out "Environmental_Health_Index" 0
   = Some (Machine.FloatCell (-0.04))).
Proof.
  split; [ | repeat split; vm_compute; reflexivity ].
  intros df out H i.
  destruct (machine_feature_engineering_cells df out i H) as (Hkeep & HD & HR & HE).
  split; [ | split; [ | split; [ | split; [ | split; [ | split; [ | split ] ] ] ] ] ].
  - intros col Hcol. unfold Machine.cell. now rewrite (Hkeep col Hcol).
  - intros y Hy. rewrite HD, Hy. cbn [option_map Machine.floordiv_cell Machine.mul_cell].
    split; [ reflexivity | ].
    intros Hr. destruct (floor_tens_range y Hr) as [Hw _].
    now rewrite (wrap64_small _ Hw).
  - intros y Hy. rewrite HD, Hy. reflexivity.
  - intros f d c x y z Hf Hd Hc Nf Nd Nc. rewrite HR, Hf, Hd, Hc.
    destruct f, d, c; simpl in Nf, Nd, Nc; try discriminate;
      inversion Nf; inversion Nd; inversion Nc; reflexivity.
  - intros f a r x z Hf Ha Hr Nf Nr. rewrite HE, Hf, Ha, Hr.
    split.
    + intros k ->. split.
      * destruct f, r; simpl in Nf, Nr; try discriminate;
          inversion Nf; inversion Nr; reflexivity.
      * intros Hk. apply wrap64_small.
        unfold Machine.int64_min, Machine.int64_max. lia.
    + intros u ->.
      destruct f, r; simpl in Nf, Nr; try discriminate;
        inversion Nf; inversion Nr; reflexivity.
  - intros t Ht. rewrite HD, Ht. reflexivity.
  - intros f d c Hf Hd Hc Hnone. rewrite HR, Hf, Hd, Hc.
    destruct f, d, c; simpl in Hnone;
      try (destruct Hnone as [Hn | [Hn | Hn]]; discriminate); reflexivity.
  - intros f a r Hf Ha Hr Hnone. rewrite HE, Hf, Ha, Hr.
    destruct f, a, r; simpl in Hnone;
      try (destruct Hnone as [Hn | [Hn | Hn]]; discriminate); reflexivity.
Qed.

Lemma feature_engineering_formulas_witness :
  Machine.cell Machine.sample_row_out "District" 0 = Some (Machine.TextCell (Some "Dhaka")) /\
  Machine.cell Machine.sample_row_out "Decade" 0 = Some (Machine.IntCell 1990) /\
  Machine.cell Machine.sample_row_out "Climate_Risk_Score" 0
  = Some (Machine.FloatCell 2.5) /\
  Machine.cell Machine.sample_row_out "Environmental_Health_Index" 0
  = Some (Machine.FloatCell (-0.04)).
Proof.
  destruct (proj1 feature_engineering_formulas Machine.sample_row Machine.sample_row_out
              eq_refl 0%nat) as (HK & HD & _ & HR & HE & _).
  split; [ | split; [ | split ] ].
  - rewrite (HK "District"); [ reflexivity | ].
    simpl. intros [E | [E | [E | []]]]; discriminate.
  - exact (proj2 (HD 1995%Z eq_refl) ltac:(lia)).
  - exact (HR (Machine.IntCell 5) (Machine.IntCell 2) (Machine.IntCell 1) 5 2 1
             eq_refl eq_refl eq_refl eq_refl eq_refl eq_refl)%float.
  - exact (proj1 (proj1 (HE (Machine.IntCell 20) (Machine.IntCell 150) (Machine.IntCell 10)
                           20 10 eq_refl eq_refl eq_refl eq_refl eq_refl)
                    150%Z eq_refl))%float.
Defined.

(** The Decade is not always [(Year // 10) * 10]: on the smallest int64 the
    product wraps around. *)
Lemma feature_engineering_formulas_counterexample :
  Machine.feature_engineering Machine.sample_wrap = Ok Machine.sample_wrap_out /\
  Machine.cell Machine.sample_wrap "Year" 0
  = Some (Machine.IntCell (-9223372036854775808)) /\
  Machine.cell Machine.sample_wrap_out "Decade" 0
  = Some (Machine.IntCell 9223372036854775806) /\
  (-9223372036854775808 / 10 * 10 = -9223372036854775810)%Z.
Proof. repeat split; vm_compute; reflexivity. Qed.

(** The derived cells on float64 columns: rounding shows in the first row
    (three scores of 0.9 give a score above 0.9), a Year of infinity has no
    Decade, and a missing input gives a missing result. *)
Example feature_engineering_floats_sample :
  Machine.feature_engineering Machine.sample_floats = Ok Machine.sample_floats_out /\
  Machine.getitem Machine.sample_floats_out "Decade"
  = Ok (Machine.Float64 [1990; 2000; nan]%float) /\
  Machine.getitem Machine.sample_floats_out "Climate_Risk_Score"
  = Ok (Machine.Float64 [0.9000000000000001; 2.5; 1]%float) /\
  (0.9 <? 0.9000000000000001)%float = true /\
  Machine.cell Machine.sample_floats_out "Environmental_Health_Index" 1
  = Some (Machine.FloatCell (-0.04)) /\
  Machine.cell Machine.sample_floats_out "Environmental_Health_Index" 2
  = Some (Machine.FloatCell nan).
Proof. repeat split; vm_compute; reflexivity. Qed.

(** X3: in every table returned by [feature_engineering], the Decade of an
    int64 Year from -9223372036854775800 on is a whole multiple of ten, at
    most the Year and less than ten below it. *)
Theorem feature_engineering_decade_bounds df out i y :
  Machine.feature_engineering df = Ok out ->
  Machine.cell df "Year" i = Some (Machine.IntCell y) ->
  (-9223372036854775800 <= y <= 9223372036854775807)%Z ->
  exists d k : Z,
    Machine.cell out "Decade" i = Some (Machine.IntCell d) /\
    (d = 10 * k /\ d <= y < d + 10)%Z.
Proof.
  intros H Hy Hr.
  destruct (machine_feature_engineering_cells df out i H) as (_ & HD & _).
  rewrite Hy in HD. cbn [option_map Machine.floordiv_cell Machine.mul_cell] in HD.
  destruct (floor_tens_range y Hr) as [Hw Hb].
  rewrite (wrap64_small _ Hw) in HD.
  exists (y / 10 * 10)%Z, (y / 10)%Z. split; [ exact HD | lia ].
Qed.

Lemma feature_engineering_decade_bounds_witness :
  exists d k : Z,
    Machine.cell Machine.sample_row_out "Decade" 0 = Some (Machine.IntCell d) /\
    (d = 10 * k /\ d <= 1995 < d + 10)%Z.
Proof.
  apply (feature_engineering_decade_bounds Machine.sample_row Machine.sample_row_out
           0%nat 1995%Z).
  - reflexivity.
  - reflexivity.
  - lia.
Defined.

(** ** The column loops of clean_data over machine numbers *)

Lemma machine_for_each_column_getitem body cols :
  NoDup cols ->
  forall df out,
    Machine.for_each_column cols body df = Ok out ->
    forall col s, Machine.getitem df col = Ok s ->
      (In col cols -> exists s', body s = Ok s' /\ Machine.getitem out col = Ok s') /\
      (~ In col cols -> Machine.getitem out col = Ok s).
Proof.
  induction 1 as [ | c rest Hnotin Hnd IH ]; intros df out H col s Hget; simpl in H.
  - inversion H; subst. split; [ intros [] | auto ].
  - inv_bind H. inv_bind H.
    destruct (string_dec c col) as [-> | Hne].
    + rewrite Hget in E. inversion E; subst a.
      destruct (IH _ _ H col a0 (machine_getitem_setitem_same _ _ _)) as [_ Hout].
      split; [ intros _; eauto | intros Hn; exfalso; apply Hn; left; reflexivity ].
    + assert (Hget' : Machine.getitem (Machine.setitem df c a0) col = Ok s)
        by (rewrite machine_getitem_setitem_other; auto).
      destruct (IH _ _ H col s Hget') as [Hin Hout].
      split.
      * intros [Heq | Hin']; [ contradiction | auto ].
      * intros Hn. apply Hout. intros Hin'. apply Hn. right. exact Hin'.
Qed.

Lemma machine_for_each_column_columns body cols :
  forall df out,
    Machine.for_each_column cols body df = Ok out ->
    Machine.columns out = Machine.columns df.
Proof.
  induction cols as [ | col rest IH ]; intros df out H; simpl in H.
  - now inversion H.
  - inv_bind H. inv_bind H. rewrite (IH _ _ H).
    unfold Machine.columns, Machine.setitem; simpl.
    eapply machine_assign_col_names. apply machine_getitem_lookup. eassumption.
Qed.

Lemma machine_NoDup_filter_names (p : string * Machine.Series -> bool) cols :
  NoDup (map fst cols) -> NoDup (map fst (filter p cols)).
Proof.
  induction cols as [ | c rest IH ]; simpl; intros Hnd; [ constructor | ].
  inversion Hnd as [ | x l Hnotin Hrest ]; subst.
  destruct (p c); simpl; auto.
  constructor; auto.
  intros Hin. apply Hnotin.
  apply in_map_iff in Hin. destruct Hin as (c' & Hc & Hin).
  apply filter_In in Hin. destruct Hin as [Hin _].
  apply in_map_iff. eauto.
Qed.

Lemma machine_in_filter_names (p : string * Machine.Series -> bool) cols col s :
  NoDup (map fst cols) ->
  Machine.lookup_col col cols = Some s ->
  (In col (map fst (filter p cols)) <-> p (col, s) = true).
Proof.
  induction cols as [ | [name s0] rest IH ]; simpl; intros Hnd Hl; [ discriminate | ].
  inversion Hnd as [ | x l Hnotin Hrest ]; subst.
  destruct (String.eqb name col) eqn:E.
  - apply String.eqb_eq in E. subst name. inversion Hl; subst s0.
    destruct (p (col, s)) eqn:Hp; simpl.
    + split; auto.
    + split; [ | discriminate ].
      intros Hin. exfalso. apply Hnotin.
      apply in_map_iff in Hin. destruct Hin as (c' & Hc & Hin).
      apply filter_In in Hin. destruct Hin as [Hin _].
      apply in_map_iff. eauto.
  - apply String.eqb_neq in E.
    destruct (p (name, s0)); simpl; rewrite <- (IH Hrest Hl).
    + split; [ intros [Heq | Hin]; [ contradiction | auto ] | auto ].
    + reflexivity.
Qed.

(** Column by column, [clean_data] is [fill_missing] followed, on a numeric
    column, by [clip_outliers]. *)
Lemma machine_clean_data_column df out :
  NoDup (Machine.columns df) ->
  Machine.clean_data df = Ok out ->
  exists filled,
    Machine.fill_stage df = Ok filled /\
    Machine.columns filled = Machine.columns df /\
    Machine.columns out = Machine.columns df /\
    (forall col s, Machine.getitem df col = Ok s ->
       exists s1, Machine.fill_missing s = Ok s1 /\ Machine.getitem filled col = Ok s1) /\
    (forall col s1, Machine.getitem filled col = Ok s1 ->
       Machine.getitem out col
       = if Machine.dtype_is_numeric s1 then Machine.clip_outliers s1 else Ok s1).
Proof.
  intros Hnd H. unfold Machine.clean_data, Machine.copy in H. inv_bind H.
  rename a into filled. exists filled.
  pose proof E as Efill. unfold Machine.fill_stage in E.
  pose proof (machine_for_each_column_columns _ _ _ _ E) as Hcols.
  split; [ reflexivity | split; [ exact Hcols | split; [ | split ] ] ].
  - now rewrite (machine_for_each_column_columns _ _ _ _ H).
  - intros col s Hget.
    destruct (machine_for_each_column_getitem _ _ Hnd _ _ E col s Hget) as [Hin _].
    exact (Hin (machine_getitem_in_columns _ _ _ Hget)).
  - intros col s1 Hg1.
    assert (Hnd' : NoDup (Machine.columns filled)) by (now rewrite Hcols).
    assert (Hndn : NoDup (Machine.numeric_columns filled))
      by (apply machine_NoDup_filter_names; exact Hnd').
    destruct (machine_for_each_column_getitem _ _ Hndn _ _ H col s1 Hg1) as [Hyes Hno].
    pose proof (machine_in_filter_names
                  (fun c => Machine.dtype_is_numeric (snd c)) _ col s1 Hnd'
                  (proj1 (machine_getitem_lookup _ _ _) Hg1)) as Hiff.
    simpl in Hiff.
    destruct (Machine.dtype_is_numeric s1) eqn:Hd.
    + destruct (Hyes (proj2 Hiff eq_refl)) as (s2 & Hs2 & Hg2). congruence.
    + apply Hno. intros Hin'. apply Hiff in Hin'. discriminate.
Qed.

(** ** Clipping a column of machine numbers *)

Lemma lt_scalar_numbers s bound mask :
  Machine.dtype_is_numeric s = true ->
  Machine.lt_scalar s bound = Ok mask ->
  mask = map (fun v => (v <? bound)%float) (Machine.numbers s).
Proof.
  destruct s as [cells | cells | cells]; simpl; intros Hd H; try discriminate;
    inversion H; [ now rewrite map_map | reflexivity ].
Qed.

Lemma gt_scalar_numbers s bound mask :
  Machine.dtype_is_numeric s = true ->
  Machine.gt_scalar s bound = Ok mask ->
  mask = map (fun v => (bound <? v)%float) (Machine.numbers s).
Proof.
  destruct s as [cells | cells | cells]; simpl; intros Hd H; try discriminate;
    inversion H; [ now rewrite map_map | reflexivity ].
Qed.

Lemma int64_of_float_eqb x k :
  Machine.int64_of_float x = Some k -> (Machine.float_of_int64 k =? x)%float = true.
Proof.
  unfold Machine.int64_of_float.
  destruct (Machine.int_of_float x) as [n | ]; [ | discriminate ].
  destruct (Machine.int64_min <=? n)%Z; [ | discriminate ].
  destruct (n <=? Machine.int64_max)%Z; [ | discriminate ].
  destruct (Machine.float_of_int64 n =? x)%float eqn:E; [ | discriminate ].
  intros H. inversion H; subst k. exact E.
Qed.

Lemma nth_error_set_where {A : Type} (mask : list bool) (value : A) cells i b c :
  nth_error mask i = Some b -> nth_error cells i = Some c ->
  nth_error (Machine.set_where mask value cells) i = Some (if b then value else c).
Proof.
  intros Hb Hc. unfold Machine.set_where.
  now rewrite nth_error_map_combine, Hb, Hc.
Qed.

(** One assignment [df.loc[mask, col] = value], on the numbers of the
    column: where the mask holds the cell becomes [value] (on a column that
    stays int64: the int64 equal to it), elsewhere it keeps its number. *)
Lemma loc_assign_numbers mask value s s' :
  Machine.dtype_is_numeric s = true ->
  Machine.loc_assign mask value s = Ok s' ->
  Machine.dtype_is_numeric s' = true /\
  forall i b v,
    nth_error mask i = Some b -> nth_error (Machine.numbers s) i = Some v ->
    exists v',
      nth_error (Machine.numbers s') i = Some v' /\
      (b = false -> v' = v) /\
      (b = true -> v' = value \/ (v' =? value)%float = true).
Proof.
  destruct s as [cells | cells | cells]; cbn [Machine.dtype_is_numeric Machine.loc_assign];
    intros Hd H; try discriminate.
  - destruct (length cells =? 0)%nat eqn:En.
    + inversion H; subst s'. split; [ reflexivity | ].
      intros i b v _ Hv. apply Nat.eqb_eq in En.
      destruct cells; [ now destruct i | discriminate ].
    + destruct (Machine.int64_of_float value) as [k | ] eqn:Ek;
        inversion H; subst s'; (split; [ reflexivity | ]);
        cbn [Machine.numbers]; intros i b v Hb Hv.
      * rewrite nth_error_map in Hv.
        destruct (nth_error cells i) as [z | ] eqn:Ez; [ | discriminate ].
        simpl in Hv. inversion Hv; subst v.
        rewrite nth_error_map, (nth_error_set_where _ _ _ _ _ _ Hb Ez). simpl.
        eexists. split; [ reflexivity | ].
        split; intros ->; [ reflexivity | ].
        right. now apply int64_of_float_eqb.
      * rewrite (nth_error_set_where _ _ _ _ _ _ Hb Hv).
        eexists. split; [ reflexivity | ].
        split; intros ->; auto.
  - inversion H; subst s'. split; [ reflexivity | ].
    cbn [Machine.numbers]. intros i b v Hb Hv.
    rewrite (nth_error_set_where _ _ _ _ _ _ Hb Hv).
    eexists. split; [ reflexivity | ].
    split; intros ->; auto.
Qed.

Lemma quantile_numeric s q v :
  Machine.quantile s q = Ok v -> Machine.dtype_is_numeric s = true.
Proof. destruct s; simpl; [ reflexivity | reflexivity | discriminate ]. Qed.

Lemma same_number_eqb v value bound :
  (bound <? value)%float = true \/ (value <? bound)%float = true ->
  v = value \/ (v =? value)%float = true ->
  (v =? value)%float = true.
Proof.
  intros Hnum [-> | H]; [ | exact H ].
  apply eqb_refl_number.
  destruct Hnum as [H | H]; apply ltb_numbers in H; tauto.
Qed.

(** The second loop of [clean_data] on one column, cell by cell: with the
    bounds computed from the quartiles of the column, a number below the
    lower bound is replaced by it, a number above the upper bound by the
    upper bound, any other number (and NaN) stays; numbers are compared as
    binary64 numbers. *)
Lemma clip_outliers_numbers s s' :
  Machine.clip_outliers s = Ok s' ->
  exists q1 q3,
    Machine.quantile s 0.25 = Ok q1 /\
    Machine.quantile s 0.75 = Ok q3 /\
    Machine.dtype_is_numeric s' = true /\
    forall i v,
      nth_error (Machine.numbers s) i = Some v ->
      exists v',
        nth_error (Machine.numbers s') i = Some v' /\
        ((v <? q1 - 1.5 * (q3 - q1))%float = true ->
         (q3 + 1.5 * (q3 - q1) <? q1 - 1.5 * (q3 - q1))%float = false ->
         (v' =? q1 - 1.5 * (q3 - q1))%float = true) /\
        ((v <? q1 - 1.5 * (q3 - q1))%float = true ->
         (q3 + 1.5 * (q3 - q1) <? q1 - 1.5 * (q3 - q1))%float = true ->
         (v' =? q3 + 1.5 * (q3 - q1))%float = true) /\
        ((v <? q1 - 1.5 * (q3 - q1))%float = false ->
         (q3 + 1.5 * (q3 - q1) <? v)%float = true ->
         (v' =? q3 + 1.5 * (q3 - q1))%float = true) /\
        ((v <? q1 - 1.5 * (q3 - q1))%float = false ->
         (q3 + 1.5 * (q3 - q1) <? v)%float = false ->
         v' = v).
Proof.
  intros H. unfold Machine.clip_outliers in H.
  inv_bind H. rename a into q1, E into Eq1.
  inv_bind H. rename a into q3, E into Eq3.
  inv_bind H. rename a into below, E into Ebelow.
  inv_bind H. rename a into s1, E into Es1.
  inv_bind H. rename a into above, E into Eabove.
  exists q1, q3.
  set (lower := (q1 - 1.5 * (q3 - q1))%float) in *.
  set (upper := (q3 + 1.5 * (q3 - q1))%float) in *.
  pose proof (quantile_numeric _ _ _ Eq1) as Hd.
  destruct (loc_assign_numbers _ _ _ _ Hd Es1) as [Hd1 Hstep1].
  destruct (loc_assign_numbers _ _ _ _ Hd1 H) as [Hd2 Hstep2].
  apply (lt_scalar_numbers _ _ _ Hd) in Ebelow.
  apply (gt_scalar_numbers _ _ _ Hd1) in Eabove.
  split; [ reflexivity | split; [ reflexivity | split; [ exact Hd2 | ] ] ].
  intros i v Hv.
  assert (Hb1 : nth_error below i = Some (v <? lower)%float)
    by (rewrite Ebelow, nth_error_map, Hv; reflexivity).
  destruct (Hstep1 i _ v Hb1 Hv) as (v1 & Hv1 & Hkeep1 & Hset1).
  assert (Hb2 : nth_error above i = Some (upper <? v1)%float)
    by (rewrite Eabove, nth_error_map, Hv1; reflexivity).
  destruct (Hstep2 i _ v1 Hb2 Hv1) as (v' & Hv' & Hkeep2 & Hset2).
  exists v'. split; [ exact Hv' | ].
  destruct (v <? lower)%float eqn:Bv.
  - assert (E1 : (v1 =? lower)%float = true)
      by (apply (same_number_eqb _ _ v); auto).
    rewrite (eqb_ltb_r _ _ upper E1) in Hkeep2, Hset2.
    repeat split; intros Ha Hb; try discriminate.
    + rewrite (Hkeep2 Hb). exact E1.
    + apply (same_number_eqb _ _ lower); auto.
  - rewrite (Hkeep1 eq_refl) in *.
    repeat split; intros Ha Hb; try discriminate.
    + apply (same_number_eqb _ _ v); auto.
    + auto.
Qed.




(** The quartiles are those of the filled column: before the fill, the
    column with the missing cell has the median 3 and the quartiles 2 and 4,
    which would give the bounds -1 and 7. *)
Example clean_data_quartiles_sample :
  Machine.median [1; 2; 3; 4; nan; 100]%float = 3%float /\
  Machine.quantile (Machine.Float64 [1; 2; 3; 4; nan; 100]%float) 0.25 = Ok 2%float /\
  Machine.quantile (Machine.Float64 [1; 2; 3; 4; nan; 100]%float) 0.75 = Ok 4%float /\
  (2 - 1.5 * (4 - 2) = -1 /\ 4 + 1.5 * (4 - 2) = 7)%float.
Proof. repeat split; vm_compute; reflexivity. Qed.

(** ** clean_data: the order of the values of a float64 column *)

Lemma key_lt_asym k k' : Machine.key_lt k k' -> ~ Machine.key_lt k' k.
Proof.
  destruct k as [[a b] c], k' as [[a' b'] c']. unfold Machine.key_lt. lia.
Qed.

Lemma key_lt_total k k' : Machine.key_lt k k' \/ k = k' \/ Machine.key_lt k' k.
Proof.
  destruct (key_compare_cases k k') as [[_ H] | [[_ H] | [_ H]]]; auto.
Qed.

Lemma key_le_lt_trans k1 k2 k3 :
  ~ Machine.key_lt k2 k1 -> Machine.key_lt k2 k3 -> Machine.key_lt k1 k3.
Proof.
  intros H12 H23. destruct (key_lt_total k1 k2) as [H | [-> | H]].
  - exact (key_lt_trans _ _ _ H H23).
  - exact H23.
  - contradiction.
Qed.

Lemma key_lt_le_trans k1 k2 k3 :
  Machine.key_lt k1 k2 -> ~ Machine.key_lt k3 k2 -> Machine.key_lt k1 k3.
Proof.
  intros H12 H23. destruct (key_lt_total k2 k3) as [H | [<- | H]].
  - exact (key_lt_trans _ _ _ H12 H).
  - exact H12.
  - contradiction.
Qed.

Lemma eqb_leb x y : (x =? y)%float = true -> (x <=? y)%float = true.
Proof.
  intros H. apply eqb_key in H. destruct H as (Hx & Hy & Hk).
  apply leb_key. repeat split; auto. rewrite Hk. apply key_lt_irrefl.
Qed.

Lemma ltb_leb x y : (x <? y)%float = true -> (x <=? y)%float = true.
Proof.
  intros H. apply ltb_key in H. destruct H as (Hx & Hy & Hk).
  apply leb_key. repeat split; auto. now apply key_lt_asym.
Qed.

Lemma not_ltb_leb x y :
  is_nan x = false -> is_nan y = false ->
  (x <? y)%float = false -> (y <=? x)%float = true.
Proof.
  intros Hx Hy H. apply leb_key. repeat split; auto.
  intros Hk. assert (E : (x <? y)%float = true) by (apply ltb_key; auto).
  congruence.
Qed.

Lemma leb_trans x y z :
  (x <=? y)%float = true -> (y <=? z)%float = true -> (x <=? z)%float = true.
Proof.
  intros H1 H2. apply leb_key in H1. apply leb_key in H2.
  destruct H1 as (Hx & Hy & H1), H2 as (_ & Hz & H2).
  apply leb_key. repeat split; auto.
  intros H. apply H1. exact (key_le_lt_trans _ _ _ H2 H).
Qed.

Lemma leb_ltb_trans x y z :
  (x <=? y)%float = true -> (y <? z)%float = true -> (x <? z)%float = true.
Proof.
  intros H1 H2. apply leb_key in H1. apply ltb_key in H2.
  destruct H1 as (Hx & Hy & H1), H2 as (_ & Hz & H2).
  apply ltb_key. repeat split; auto. exact (key_le_lt_trans _ _ _ H1 H2).
Qed.

Lemma ltb_leb_trans x y z :
  (x <? y)%float = true -> (y <=? z)%float = true -> (x <? z)%float = true.
Proof.
  intros H1 H2. apply ltb_key in H1. apply leb_key in H2.
  destruct H1 as (Hx & Hy & H1), H2 as (_ & Hz & H2).
  apply ltb_key. repeat split; auto. exact (key_lt_le_trans _ _ _ H1 H2).
Qed.

Lemma ltb_trans x y z :
  (x <? y)%float = true -> (y <? z)%float = true -> (x <? z)%float = true.
Proof. intros H1 H2. exact (leb_ltb_trans _ _ _ (ltb_leb _ _ H1) H2). Qed.

Lemma eqb_sym_number x y : (x =? y)%float = true -> (y =? x)%float = true.
Proof.
  intros H. apply eqb_key in H. destruct H as (Hx & Hy & Hk).
  apply eqb_key. auto.
Qed.

Lemma clipped_order lower upper v w v' w' :
  Machine.clipped lower upper v v' -> Machine.clipped lower upper w w' ->
  (v <=? w)%float = true -> (v' <=? w')%float = true.
Proof.
  intros (Lv & Cv & Uv & Sv) (Lw & Cw & Uw & Sw) Hvw.
  destruct (leb_numbers _ _ Hvw) as [Nv Nw].
  destruct (upper <? lower)%float eqn:Cross.
  - (* crossed bounds: every number ends at the upper bound *)
    destruct (ltb_numbers _ _ Cross) as [NU NL].
    assert (All : forall x x', is_nan x = false ->
              ((x <? lower)%float = true -> (x' =? upper)%float = true) ->
              ((x <? lower)%float = false -> (upper <? x)%float = true ->
               (x' =? upper)%float = true) ->
              (x' =? upper)%float = true).
    { intros x x' Nx H1 H2. destruct (x <? lower)%float eqn:E; [ now apply H1 | ].
      apply H2; [ reflexivity | ].
      exact (ltb_leb_trans _ _ _ Cross (not_ltb_leb _ _ Nx NL E)). }
    assert (Ev : (v' =? upper)%float = true)
      by (apply (All v v' Nv); auto).
    assert (Ew : (w' =? upper)%float = true)
      by (apply (All w w' Nw); auto).
    exact (leb_trans _ _ _ (eqb_leb _ _ Ev) (eqb_leb _ _ (eqb_sym_number _ _ Ew))).
  - destruct (v <? lower)%float eqn:Bv.
    + pose proof (Lv eq_refl eq_refl) as Ev.
      destruct (ltb_numbers _ _ Bv) as [_ NL].
      apply (leb_trans _ lower); [ now apply eqb_leb | ].
      destruct (w <? lower)%float eqn:Bw.
      * apply eqb_leb, eqb_sym_number. now apply Lw.
      * destruct (upper <? w)%float eqn:Aw.
        -- destruct (ltb_numbers _ _ Aw) as [NU _].
           apply (leb_trans _ upper).
           ++ now apply not_ltb_leb.
           ++ apply eqb_leb, eqb_sym_number. now apply Uw.
        -- rewrite (Sw eq_refl eq_refl). now apply not_ltb_leb.
    + destruct (upper <? v)%float eqn:Av.
      * pose proof (Uv eq_refl eq_refl) as Ev.
        pose proof (ltb_leb_trans _ _ _ Av Hvw) as Aw.
        assert (Bw : (w <? lower)%float = false).
        { destruct (w <? lower)%float eqn:E; [ | reflexivity ].
          pose proof (ltb_trans _ _ _ Aw E). congruence. }
        apply (leb_trans _ upper); [ now apply eqb_leb | ].
        apply eqb_leb, eqb_sym_number. now apply Uw.
      * rewrite (Sv eq_refl eq_refl).
        destruct (w <? lower)%float eqn:Bw.
        -- pose proof (leb_ltb_trans _ _ _ Hvw Bw). congruence.
        -- destruct (upper <? w)%float eqn:Aw.
           ++ destruct (ltb_numbers _ _ Aw) as [NU _].
              apply (leb_trans _ upper).
              ** now apply not_ltb_leb.
              ** apply eqb_leb, eqb_sym_number. now apply Uw.
           ++ rewrite (Sw eq_refl eq_refl). exact Hvw.
Qed.

Lemma clip_outliers_float64 cells s' :
  Machine.clip_outliers (Machine.Float64 cells) = Ok s' ->
  exists cells', s' = Machine.Float64 cells'.
Proof.
  unfold Machine.clip_outliers. cbn. intros H. inversion H. eexists. reflexivity.
Qed.

Lemma fill_missing_float64 cells :
  exists cells1,
    Machine.fill_missing (Machine.Float64 cells) = Ok (Machine.Float64 cells1) /\
    forall i v, nth_error cells i = Some v -> is_nan v = false ->
                nth_error cells1 i = Some v.
Proof.
  unfold Machine.fill_missing.
  destruct (0 <? Machine.isnull_sum (Machine.Float64 cells))%nat.
  - eexists. split; [ reflexivity | ].
    intros i v Hv Hn. unfold Machine.fillna_float.
    rewrite nth_error_map, Hv. cbn. now rewrite Hn.
  - eexists. split; [ reflexivity | auto ].
Qed.

(** X11: over distinct column names, [clean_data] keeps the order of the
    values of a float64 column: where row [i] held a value at most that of
    row [j] before cleaning, it does so after. *)
Theorem clean_data_keeps_order df out col cells :
  NoDup (Machine.columns df) ->
  Machine.clean_data df = Ok out ->
  Machine.getitem df col = Ok (Machine.Float64 cells) ->
  exists cells',
    Machine.getitem out col = Ok (Machine.Float64 cells') /\
    forall i j v w,
      nth_error cells i = Some v -> nth_error cells j = Some w ->
      (v <=? w)%float = true ->
      exists v' w',
        nth_error cells' i = Some v' /\ nth_error cells' j = Some w' /\
        (v' <=? w')%float = true.
Proof.
  intros Hnd H Hg.
  destruct (machine_clean_data_column df out Hnd H)
    as (filled & _ & _ & _ & Hfill & Hclip).
  destruct (Hfill col _ Hg) as (s1 & Hs1 & Hg1).
  destruct (fill_missing_float64 cells) as (cells1 & E1 & Hkeep).
  rewrite E1 in Hs1. inversion Hs1; subst s1. clear Hs1.
  pose proof (Hclip col _ Hg1) as Hout. cbn [Machine.dtype_is_numeric] in Hout.
  destruct (Machine.clip_outliers (Machine.Float64 cells1)) as [s' | e] eqn:Ec.
  2: { unfold Machine.clip_outliers in Ec. cbn in Ec. discriminate. }
  destruct (clip_outliers_float64 _ _ Ec) as (cells' & ->).
  destruct (clip_outliers_numbers _ _ Ec) as (q1 & q3 & _ & _ & _ & Hcells).
  cbn [Machine.numbers] in Hcells.
  exists cells'. split; [ exact Hout | ].
  intros i j v w Hv Hw Hvw.
  destruct (leb_numbers _ _ Hvw) as [Nv Nw].
  destruct (Hcells i v (Hkeep i v Hv Nv)) as (v' & Hv' & Cv).
  destruct (Hcells j w (Hkeep j w Hw Nw)) as (w' & Hw' & Cw).
  exists v', w'. split; [ exact Hv' | split; [ exact Hw' | ] ].
  exact (clipped_order _ _ v w v' w' Cv Cw Hvw).
Qed.

Lemma clean_data_keeps_order_witness :
  exists cells',
    Machine.getitem Machine.sample_quartiles_out "level" = Ok (Machine.Float64 cells') /\
    forall i j v w,
      nth_error [1; 2; 3; 4; nan; 100]%float i = Some v ->
      nth_error [1; 2; 3; 4; nan; 100]%float j = Some w ->
      (v <=? w)%float = true ->
      exists v' w',
        nth_error cells' i = Some v' /\ nth_error cells' j = Some w' /\
        (v' <=? w')%float = true.
Proof.
  apply (clean_data_keeps_order Machine.sample_quartiles Machine.sample_quartiles_out
           "level" [1; 2; 3; 4; nan; 100]%float).
  - apply has_duplicates_NoDup. reflexivity.
  - vm_compute. reflexivity.
  - reflexivity.
Defined.

(** On the sample column the value 100 is clipped to 6 and stays the
    largest; the filled cell holds the median. *)
Example clean_data_keeps_order_sample :
  Machine.getitem Machine.sample_quartiles_out "level"
  = Ok (Machine.Float64 [1; 2; 3; 4; 3; 6]%float) /\
  (4 <=? 100)%float = true /\ (4 <=? 6)%float = true.
Proof. repeat split; vm_compute; reflexivity. Qed.
